(** * file_agent.py: a shallow embedding of [FileStructureAgent]

    The agent walks a directory, builds a tree of folder and file nodes,
    renders it, summarises it, writes it as JSON and sends a bounded digest
    of it to a chat endpoint.  The Python functions are embedded as Rocq
    functions over an explicit model of what they observe of the outside
    world: the directory tree found below a path, the working directory,
    the outcome of writing the export file and the outcome of the one HTTP
    request.  Everything the code prints is collected, in order, as a list
    of lines; an exception is a value of [result].

    File names and the other strings are text: a [str] is kept as the UTF-8
    bytes of its code points. *)

From Stdlib Require Import String Ascii List ZArith QArith Qround Qabs Lia Bool.
From Stdlib Require Import Sorting.Mergesort Sorting.Sorted Sorting.Permutation.
From Stdlib Require Import DecimalString DecimalPos.
Import ListNotations.
Open Scope string_scope.
Open Scope Z_scope.

(** ** Python strings and numbers *)

(** A [str] is modelled by its UTF-8 bytes: comparing two such strings byte
    by byte is comparing them code point by code point, which is the order
    of Python's [sorted] on [str]. *)

Definition newline : string := String "010" "".
Definition dquote : string := String "034" "".
Definition squote : string := String "039" "".

(** [s * n] on a string: [n] copies, none when [n] is not positive. *)
Definition str_mul (s : string) (n : Z) : string :=
  String.concat "" (repeat s (Z.to_nat n)).

(** [str(n)] and [f"{n}"] for an [int]. *)
Definition str_of_int (n : Z) : string := NilZero.string_of_int (Z.to_int n).

Module StringOrder <: Orders.TotalLeBool.
Definition t := string.
Definition leb := String.leb.
Definition leb_total :
  forall a1 a2, leb a1 a2 = true \/ leb a2 a1 = true := String.leb_total.
End StringOrder.

Module StringSort := Sort StringOrder.

(** [sorted(items)] on a list of [str]. *)
Definition sorted (items : list string) : list string := StringSort.sort items.

(** ** Exceptions *)

Inductive exn_class : Type :=
| FileNotFoundError | PermissionError | NotADirectoryError | OSError
| RequestException | ConnectionError | Timeout | HTTPError | InvalidJSONError
| ValueError | KeyError | IndexError | TypeError | UnicodeEncodeError.

(** An exception: its class and the text [str(e)] gives. *)
Record exn : Type := Exn { exn_class_of : exn_class; exn_str : string }.

(** [except PermissionError]. *)
Definition is_PermissionError (e : exn) : bool :=
  match exn_class_of e with PermissionError => true | _ => false end.

(** [except requests.exceptions.RequestException]: the class or one of its
    subclasses. *)
Definition is_RequestException (e : exn) : bool :=
  match exn_class_of e with
  | RequestException | ConnectionError | Timeout | HTTPError
  | InvalidJSONError => true
  | _ => false
  end.

Inductive result (A : Type) : Type :=
| Ok (a : A)
| Raise (e : exn).
Arguments Ok {A} a.
Arguments Raise {A} e.

(** ** posixpath *)

Module posixpath.

Definition is_sep (c : ascii) : bool := Ascii.eqb c "/".

Definition startswith_sep (s : string) : bool :=
  match s with String c _ => is_sep c | EmptyString => false end.

Fixpoint endswith_sep (s : string) : bool :=
  match s with
  | EmptyString => false
  | String c EmptyString => is_sep c
  | String _ r => endswith_sep r
  end.

(** [s.split('/')] *)
Fixpoint split (s : string) : list string :=
  match s with
  | EmptyString => [EmptyString]
  | String c r =>
      if is_sep c then EmptyString :: split r
      else match split r with
           | h :: t => String c h :: t
           | [] => [String c EmptyString]
           end
  end.

Definition isabs (s : string) : bool := startswith_sep s.

Definition join (a b : string) : string :=
  if startswith_sep b then b
  else if String.eqb a "" || endswith_sep a then a ++ b
  else a ++ "/" ++ b.

Definition basename (p : string) : string := last (split p) "".

Definition normpath_step (initial_slashes : nat) (new_comps : list string)
    (comp : string) : list string :=
  if String.eqb comp "" || String.eqb comp "." then new_comps
  else if negb (String.eqb comp "..")
          || (Nat.eqb initial_slashes 0 && Nat.eqb (length new_comps) 0)
          || (negb (Nat.eqb (length new_comps) 0)
              && String.eqb (last new_comps "") "..")
  then new_comps ++ [comp]
  else removelast new_comps.

Definition normpath (path : string) : string :=
  if String.eqb path "" then "."
  else
    let initial_slashes :=
      if startswith_sep path then
        match path with
        | String _ (String c2 r) =>
            if is_sep c2 && negb (startswith_sep r) then 2%nat else 1%nat
        | _ => 1%nat
        end
      else 0%nat in
    let comps := fold_left (normpath_step initial_slashes) (split path) [] in
    let path' :=
      String.concat "" (repeat "/" initial_slashes) ++ String.concat "/" comps in
    if String.eqb path' "" then "." else path'.

(** [abspath], with the working directory [os.getcwd()] made explicit. *)
Definition abspath (cwd path : string) : string :=
  normpath (if isabs path then path else join cwd path).

End posixpath.

(** ** The directory tree the agent observes

    What [os.listdir], [os.path.isdir], [os.path.isfile], [os.path.exists]
    and [os.path.getsize] answer for a path is determined by the entry the
    path denotes.  A directory lists its entries in the order the operating
    system returns them, which is arbitrary. *)

Unset Elimination Schemes.
Inductive entry : Type :=
| RegularFile (st_size : Z)
    (** a regular file *)
| Directory (entries : list (string * entry))
    (** a directory that can be listed *)
| UnlistableDirectory (err : exn)
    (** a directory whose listing fails with [err]: [PermissionError]
        when access is denied, another [OSError] otherwise *)
| SpecialFile (st_size : Z)
    (** neither a directory nor a regular file: a socket, a FIFO, a device *)
| NoEntry (err : exn).
    (** [stat] fails with [err]: nothing there, a dangling symbolic link,
        a parent without search permission *)

(** ** The node tree (the dicts [get_folder_structure] builds)

    A folder is [{"name", "type": "folder", "path", "children"}], a file is
    [{"name", "type": "file", "path", "size"}]. *)
Inductive Node : Type :=
| Folder (name path : string) (children : list Node)
| File (name path : string) (size : Z).
Set Elimination Schemes.

Definition node_type (n : Node) : string :=
  match n with Folder _ _ _ => "folder" | File _ _ _ => "file" end.

Definition node_name (n : Node) : string :=
  match n with Folder name _ _ => name | File name _ _ => name end.

Definition node_path (n : Node) : string :=
  match n with Folder _ path _ => path | File _ path _ => path end.

Definition node_children (n : Node) : list Node :=
  match n with Folder _ _ children => children | File _ _ _ => [] end.

Module os.

Definition ENOENT (path : string) : exn :=
  Exn FileNotFoundError
    ("[Errno 2] No such file or directory: " ++ squote ++ path ++ squote).

Definition ENOTDIR (path : string) : exn :=
  Exn NotADirectoryError
    ("[Errno 20] Not a directory: " ++ squote ++ path ++ squote).

(** The entry a name denotes inside a directory. *)
Fixpoint lookup (entries : list (string * entry)) (item : string) : entry :=
  match entries with
  | [] => NoEntry (ENOENT item)
  | (n, c) :: rest => if String.eqb n item then c else lookup rest item
  end.

Definition child (target : entry) (item : string) : entry :=
  match target with
  | Directory entries => lookup entries item
  | RegularFile _ | SpecialFile _ => NoEntry (ENOTDIR item)
  | UnlistableDirectory _ => NoEntry (ENOENT item)
  | NoEntry err => NoEntry err
  end.

Definition exists_ (target : entry) : bool :=
  match target with NoEntry _ => false | _ => true end.

Definition isdir (target : entry) : bool :=
  match target with
  | Directory _ | UnlistableDirectory _ => true
  | _ => false
  end.

Definition isfile (target : entry) : bool :=
  match target with RegularFile _ => true | _ => false end.

(** [os.path.getsize]; the agent never asks for the size of a directory
    (both callers test [isdir] first), so that case is left at 0. *)
Definition getsize (target : entry) : result Z :=
  match target with
  | RegularFile sz | SpecialFile sz => Ok sz
  | Directory _ | UnlistableDirectory _ => Ok 0
  | NoEntry err => Raise err
  end.

Definition listdir (path : string) (target : entry) : result (list string) :=
  match target with
  | Directory entries => Ok (map fst entries)
  | UnlistableDirectory err => Raise err
  | RegularFile _ | SpecialFile _ => Raise (ENOTDIR path)
  | NoEntry err => Raise err
  end.

End os.

(** ** [_format_size]

    [size_bytes] starts as an [int] and becomes a [float] at the first
    division.  A [float] is modelled by the rational it denotes: converting
    an [int] rounds it to 53 significant bits (half to even), dividing by
    [1024.0] is exact because the divisor is a power of two and the quotient
    stays at or above 1, and [{:.1f}] rounds the exact value to the nearest
    tenth, half to even.  (An [int] of [2^1024] or more raises
    [OverflowError] on conversion; the theorems keep below it.) *)

Inductive number : Type :=
| Int (n : Z)
| Float (x : Q).

Definition float_of_int (n : Z) : Q :=
  let a := Z.abs n in
  if a <? 2 ^ 53 then inject_Z n
  else
    let e := Z.log2 a - 52 in
    let q := a / 2 ^ e in
    let r := a mod 2 ^ e in
    let half := 2 ^ (e - 1) in
    let q' := if (half <? r) || ((r =? half) && Z.odd q) then q + 1 else q in
    inject_Z (Z.sgn n * (q' * 2 ^ e)).

Definition to_float (v : number) : Q :=
  match v with Int n => float_of_int n | Float x => x end.

(** [v >= 1024] *)
Definition ge_1024 (v : number) : bool :=
  match v with Int n => 1024 <=? n | Float x => Qle_bool 1024 x end.

(** [v / 1024.0] *)
Definition div_1024 (v : number) : number := Float (to_float v / 1024).

Definition round_half_even (x : Q) : Z :=
  let f := Qfloor x in
  match Qcompare (x - inject_Z f) (1 # 2) with
  | Lt => f
  | Gt => f + 1
  | Eq => if Z.even f then f else f + 1
  end.

(** [f"{x:.1f}"] *)
Definition format_1f (x : Q) : string :=
  let t := round_half_even (Qabs x * 10) in
  (if Qle_bool 0 x then "" else "-")
    ++ str_of_int (t / 10) ++ "." ++ str_of_int (t mod 10).

Definition size_names : list string := ["B"; "KB"; "MB"; "GB"].

(** The [while] loop of [_format_size]; every turn increments [i], so
    [length size_names] turns are always enough. *)
Fixpoint format_size_loop (fuel : nat) (size_bytes : number) (i : nat)
  : number * nat :=
  match fuel with
  | O => (size_bytes, i)
  | S fuel' =>
      if ge_1024 size_bytes && (i <? length size_names - 1)%nat
      then format_size_loop fuel' (div_1024 size_bytes) (i + 1)%nat
      else (size_bytes, i)
  end.

Definition _format_size (size_bytes : Z) : string :=
  if size_bytes =? 0 then "0 B"
  else
    let '(size_bytes', i) :=
      format_size_loop (length size_names) (Int size_bytes) 0%nat in
    format_1f (to_float size_bytes') ++ " " ++ nth i size_names "".

(** ** The agent *)

(** What was printed: the text of each call of [print], oldest first.  A
    text that holds a newline, as a file name may, takes more than one line
    of the terminal. *)
Definition output : Type := list string.

Record FileStructureAgent : Type :=
  { api_key : string; api_url : string }.

(** [__init__]: [getenv] is the value of [DEEPSEEK_API_KEY], if any. *)
Definition __init__ (getenv : option string) : result FileStructureAgent :=
  match getenv with
  | Some key =>
      if String.eqb key "" then
        Raise (Exn ValueError "❌ 未找到DEEPSEEK_API_KEY环境变量，请检查.env文件")
      else
        Ok {| api_key := key;
              api_url := "https://api.deepseek.com/v1/chat/completions" |}
  | None => Raise (Exn ValueError "❌ 未找到DEEPSEEK_API_KEY环境变量，请检查.env文件")
  end.

Section Agent.

(** [os.getcwd()] *)
Variable cwd : string.

(** *** [get_folder_structure] *)

(** The [for item in sorted(items)] loop.  [dir] is the entry [folder_path]
    denotes, [recurse item] is the call
    [self.get_folder_structure(item_path)], [children] is
    [structure["children"]] so far.  The loop ends at the first exception;
    the children appended until then stay in the list. *)
Fixpoint scan_items (folder_path : string) (dir : entry)
    (recurse : string -> result Node * output)
    (items : list string) (children : list Node)
  : list Node * option exn * output :=
  match items with
  | [] => (children, None, [])
  | item :: rest =>
      let item_path := posixpath.join folder_path item in
      if os.isdir (os.child dir item) then
        match recurse item with
        | (Ok sub, out) =>
            let '(children', raised, out') :=
              scan_items folder_path dir recurse rest (children ++ [sub])%list in
            (children', raised, (out ++ out')%list)
        | (Raise e, out) => (children, Some e, out)
        end
      else
        match os.getsize (os.child dir item) with
        | Ok size =>
            scan_items folder_path dir recurse rest
              (children ++ [File item item_path size])%list
        | Raise e => (children, Some e, [])
        end
  end.

(** The two [except] clauses. *)
Definition scan_handler (folder_path : string) (e : exn) : output :=
  if is_PermissionError e then ["⚠️ 没有权限访问: " ++ folder_path]
  else ["❌ 扫描出错: " ++ exn_str e].

(** [target] is the entry [folder_path] denotes. *)
Fixpoint get_folder_structure (folder_path : string) (target : entry)
    {struct target} : result Node * output :=
  let recurse : string -> result Node * output :=
    match target with
    | Directory entries =>
        (fix at_item (es : list (string * entry)) (item : string) {struct es}
           : result Node * output :=
           match es with
           | [] =>
               (Raise (Exn FileNotFoundError
                         ("路径不存在: " ++ posixpath.join folder_path item)), [])
           | (n, c) :: es' =>
               if String.eqb n item
               then get_folder_structure (posixpath.join folder_path item) c
               else at_item es' item
           end) entries
    | _ =>
        fun item =>
          (Raise (Exn FileNotFoundError
                    ("路径不存在: " ++ posixpath.join folder_path item)), [])
    end in
  if negb (os.exists_ target) then
    (Raise (Exn FileNotFoundError ("路径不存在: " ++ folder_path)), [])
  else
    let name := posixpath.basename (posixpath.abspath cwd folder_path) in
    let path := posixpath.abspath cwd folder_path in
    match os.listdir folder_path target with
    | Ok items =>
        let '(children, raised, out) :=
          scan_items folder_path target recurse (sorted items) [] in
        match raised with
        | None => (Ok (Folder name path children), out)
        | Some e =>
            (Ok (Folder name path children),
             (out ++ scan_handler folder_path e)%list)
        end
    | Raise e => (Ok (Folder name path []), scan_handler folder_path e)
    end.

(** *** [_print_tree] *)

Definition connector (is_last : bool) : string :=
  if is_last then "└── " else "├── ".

(** The [for i, item in enumerate(all_items)] loop, from index [i] on.
    [recurse item new_prefix] is the call
    [self._print_tree(item_path, new_prefix, show_size)], which prints and
    catches every exception itself. *)
Fixpoint print_items (prefix : string) (show_size : bool) (dir : entry)
    (recurse : string -> string -> output)
    (folders : list string) (total_count : Z)
    (i : Z) (all_items : list string) : output * option exn :=
  match all_items with
  | [] => ([], None)
  | item :: rest =>
      let is_last := i =? total_count - 1 in
      if existsb (String.eqb item) folders then
        let line := prefix ++ connector is_last ++ "📁 " ++ item ++ "/" in
        let new_prefix := prefix ++ (if is_last then "    " else "│   ") in
        let sub := recurse item new_prefix in
        let '(out, raised) :=
          print_items prefix show_size dir recurse folders total_count
            (i + 1) rest in
        (line :: (sub ++ out)%list, raised)
      else
        let size_info :=
          if show_size then
            match os.getsize (os.child dir item) with
            | Ok file_size => Ok (" (" ++ _format_size file_size ++ ")")
            | Raise e => Raise e
            end
          else Ok "" in
        match size_info with
        | Ok size_info =>
            let line := prefix ++ connector is_last ++ "📄 " ++ item ++ size_info in
            let '(out, raised) :=
              print_items prefix show_size dir recurse folders total_count
                (i + 1) rest in
            (line :: out, raised)
        | Raise e => ([], Some e)
        end
  end.

Definition print_handler (prefix : string) (e : exn) : output :=
  if is_PermissionError e then [prefix ++ "└── 🔒 [权限拒绝]"]
  else [prefix ++ "└── ❌ [错误: " ++ exn_str e ++ "]"].

(** [target] is the entry [path] denotes. *)
Fixpoint _print_tree (path prefix : string) (show_size : bool)
    (target : entry) {struct target} : output :=
  let recurse : string -> string -> output :=
    match target with
    | Directory entries =>
        (fix at_item (es : list (string * entry)) (item new_prefix : string)
           {struct es} : output :=
           match es with
           | [] => print_handler new_prefix (os.ENOENT item)
           | (n, c) :: es' =>
               if String.eqb n item
               then _print_tree (posixpath.join path item) new_prefix show_size c
               else at_item es' item new_prefix
           end) entries
    | _ =>
        fun item new_prefix =>
          print_handler new_prefix (os.ENOENT item)
    end in
  match os.listdir path target with
  | Ok items =>
      let items := sorted items in
      let folders := filter (fun item => os.isdir (os.child target item)) items in
      let files := filter (fun item => os.isfile (os.child target item)) items in
      let all_items := (folders ++ files)%list in
      let total_count := Z.of_nat (length all_items) in
      let '(out, raised) :=
        print_items prefix show_size target recurse folders total_count
          0 all_items in
      match raised with
      | None => out
      | Some e => (out ++ print_handler prefix e)%list
      end
  | Raise e => print_handler prefix e
  end.

(** [display_structure_tree] *)
Definition display_structure_tree (folder_path : string) (show_size : bool)
    (target : entry) : output :=
  ([("🌳 文件夹结构: " ++ posixpath.abspath cwd folder_path)%string]
     ++ [str_mul "=" 70]
     ++ _print_tree folder_path "" show_size target
     ++ [str_mul "=" 70])%list.

End Agent.

(** *** [_structure_to_text] *)

Fixpoint _structure_to_text (structure : Node) (level max_depth : Z)
    {struct structure} : string :=
  if max_depth <? level then str_mul "  " level ++ "..." ++ newline
  else
    let indent := str_mul "  " level in
    match structure with
    | Folder name _ children =>
        (indent ++ "📁 " ++ name ++ "/" ++ newline)
          ++ (fix for_children (cs : list Node) : string :=
                match cs with
                | [] => ""
                | child :: cs' =>
                    _structure_to_text child (level + 1) max_depth
                      ++ for_children cs'
                end) children
    | File name _ size =>
        indent ++ "📄 " ++ name ++ " (" ++ _format_size size ++ ")" ++ newline
    end.

(** *** [get_structure_summary] *)

Fixpoint count_items (struct : Node) : Z * Z * Z :=
  match struct with
  | Folder _ _ children =>
      (fix for_children (cs : list Node) (acc : Z * Z * Z) : Z * Z * Z :=
         match cs with
         | [] => acc
         | child :: cs' =>
             let '(folders, files, total_size) := acc in
             match child with
             | Folder _ _ _ =>
                 let '(sub_folders, sub_files, sub_size) := count_items child in
                 for_children cs'
                   (folders + sub_folders, files + sub_files,
                    total_size + sub_size)
             | File _ _ size =>
                 for_children cs' (folders, files + 1, total_size + size)
             end
         end) children (0 + 1, 0, 0)
  | File _ _ _ => (0, 0, 0)
  end.

Definition summary_text (folder_path : string) (counts : Z * Z * Z) : string :=
  let '(folders, files, total_size) := counts in
  newline ++ "📊 文件结构统计:" ++ newline
    ++ "├── 📁 文件夹数量: " ++ str_of_int folders ++ newline
    ++ "├── 📄 文件数量: " ++ str_of_int files ++ newline
    ++ "├── 💾 总大小: " ++ _format_size total_size ++ newline
    ++ "└── 📍 扫描路径: " ++ folder_path ++ newline.

Definition get_structure_summary (cwd folder_path : string) (target : entry)
  : result string * output :=
  match get_folder_structure cwd folder_path target with
  | (Ok structure, out) =>
      (Ok (summary_text folder_path (count_items structure)), out)
  | (Raise e, out) => (Raise e, out)
  end.

(** ** [analyze_with_ai] *)

(** JSON values as Python objects: what [response.json()] returns.  Numbers
    with a fraction are left out: the agent only indexes into the value, and
    a [float] answers an index as an [int] does. *)
Unset Elimination Schemes.
Inductive json : Type :=
| JNull
| JBool (b : bool)
| JInt (n : Z)
| JStr (s : string)
| JList (items : list json)
| JDict (items : list (string * json)).
Set Elimination Schemes.

Fixpoint dict_get (items : list (string * json)) (key : string) : option json :=
  match items with
  | [] => None
  | (k, v) :: rest => if String.eqb k key then Some v else dict_get rest key
  end.

Definition not_subscriptable (type_name : string) : exn :=
  Exn TypeError (squote ++ type_name ++ squote ++ " object is not subscriptable").

(** [obj[key]] for a [str] key. *)
Definition getitem_str (obj : json) (key : string) : result json :=
  match obj with
  | JDict items =>
      match dict_get items key with
      | Some v => Ok v
      | None => Raise (Exn KeyError (squote ++ key ++ squote))
      end
  | JList _ =>
      Raise (Exn TypeError "list indices must be integers or slices, not str")
  | JStr _ => Raise (Exn TypeError "string indices must be integers, not 'str'")
  | JNull => Raise (not_subscriptable "NoneType")
  | JBool _ => Raise (not_subscriptable "bool")
  | JInt _ => Raise (not_subscriptable "int")
  end.

(** The bytes of the first code point of a UTF-8 string. *)
Definition is_continuation (c : ascii) : bool :=
  let n := N_of_ascii c in (128 <=? n)%N && (n <? 192)%N.

Fixpoint take_continuation (s : string) : string :=
  match s with
  | String c r =>
      if is_continuation c then String c (take_continuation r) else ""
  | EmptyString => ""
  end.

(** [obj[0]] *)
Definition getitem_0 (obj : json) : result json :=
  match obj with
  | JList (x :: _) => Ok x
  | JList [] => Raise (Exn IndexError "list index out of range")
  | JStr (String c r) => Ok (JStr (String c (take_continuation r)))
  | JStr EmptyString => Raise (Exn IndexError "string index out of range")
  | JDict _ => Raise (Exn KeyError "0")
  | JNull => Raise (not_subscriptable "NoneType")
  | JBool _ => Raise (not_subscriptable "bool")
  | JInt _ => Raise (not_subscriptable "int")
  end.

(** The body of the request: [data]. *)
Record chat_request : Type :=
  { model : string;
    messages : list (string * string);   (* role, content *)
    stream : bool;
    temperature : Q }.

(** What the agent reads of a [requests.Response]; [json_body] is the
    outcome of [response.json()]. *)
Record response : Type :=
  { status_code : Z;
    reason : string;
    url : string;
    json_body : result json }.

Definition raise_for_status (r : response) : result unit :=
  if (400 <=? status_code r) && (status_code r <? 500) then
    Raise (Exn HTTPError
             (str_of_int (status_code r) ++ " Client Error: " ++ reason r
                ++ " for url: " ++ url r))
  else if (500 <=? status_code r) && (status_code r <? 600) then
    Raise (Exn HTTPError
             (str_of_int (status_code r) ++ " Server Error: " ++ reason r
                ++ " for url: " ++ url r))
  else Ok tt.

Definition bind {A B : Type} (m : result A) (k : A -> result B) : result B :=
  match m with Ok a => k a | Raise e => Raise e end.

Notation "x <- m ;; k" := (bind m (fun x => k))
  (at level 61, m at next level, right associativity).

Definition build_prompt (folder_path structure_text question : string) : string :=
  newline ++ "请分析以下文件结构：" ++ newline
    ++ newline ++ "文件夹路径: " ++ folder_path ++ newline
    ++ newline ++ "文件结构:" ++ newline
    ++ structure_text ++ newline
    ++ newline ++ "问题: " ++ question ++ newline
    ++ newline ++ "请根据文件结构提供详细的分析和回答。" ++ newline.

Section RemoteAnalysis.

Variable cwd : string.

(** [requests.post(url, headers=headers, json=data, timeout=60)]: the
    network is the environment's; it answers with a response or raises. *)
Variable requests_post :
  string -> list (string * string) -> chat_request -> Z -> result response.

(** The [try] block. *)
Definition request_answer (self : FileStructureAgent) (prompt : string)
  : result json :=
  let headers :=
    [("Content-Type", "application/json");
     ("Authorization", "Bearer " ++ api_key self)] in
  let data :=
    {| model := "deepseek-chat";
       messages :=
         [("system",
           "你是一个专业的文件结构分析助手。请根据用户提供的文件结构信息，分析项目类型、结构特点，并回答用户的问题。");
          ("user", prompt)];
       stream := false;
       temperature := 7 # 10 |} in
  response <- requests_post (api_url self) headers data 60 ;;
  _ <- raise_for_status response ;;
  result <- json_body response ;;
  choices <- getitem_str result "choices" ;;
  first <- getitem_0 choices ;;
  message <- getitem_str first "message" ;;
  answer <- getitem_str message "content" ;;
  Ok answer.

(** [target] is the entry [folder_path] denotes.  The scan and the digest
    come before the [try]. *)
Definition analyze_with_ai (self : FileStructureAgent) (folder_path : string)
    (target : entry) (question : string) (max_depth : Z)
  : result json * output :=
  let banner := ["🤖 正在使用AI分析文件结构..."] in
  match get_folder_structure cwd folder_path target with
  | (Raise e, out) => (Raise e, (banner ++ out)%list)
  | (Ok structure, out) =>
      let structure_text := _structure_to_text structure 0 max_depth in
      let prompt := build_prompt folder_path structure_text question in
      match request_answer self prompt with
      | Ok answer => (Ok answer, (banner ++ out)%list)
      | Raise e =>
          if is_RequestException e then
            (Ok (JStr ("❌ API调用失败: " ++ exn_str e)), (banner ++ out)%list)
          else
            (Ok (JStr ("❌ 处理响应时出错: " ++ exn_str e)), (banner ++ out)%list)
      end
  end.

End RemoteAnalysis.

(** ** [save_structure_to_json] *)

(** The dict a node is, as a Python object; the keys are in insertion
    order. *)
Fixpoint to_dict (structure : Node) : json :=
  match structure with
  | Folder name path children =>
      JDict [("name", JStr name); ("type", JStr "folder"); ("path", JStr path);
             ("children", JList (map to_dict children))]
  | File name path size =>
      JDict [("name", JStr name); ("type", JStr "file"); ("path", JStr path);
             ("size", JInt size)]
  end.

(** *** [json.dump(obj, f, indent=2, ensure_ascii=False)] *)

Definition backslash : ascii := "\".

Definition hex_digit (n : N) : ascii :=
  match n with
  | 0 => "0" | 1 => "1" | 2 => "2" | 3 => "3" | 4 => "4" | 5 => "5"
  | 6 => "6" | 7 => "7" | 8 => "8" | 9 => "9" | 10 => "a" | 11 => "b"
  | 12 => "c" | 13 => "d" | 14 => "e" | _ => "f"
  end%char%N.

(** With [ensure_ascii=False] only the quote, the backslash and the control
    characters are escaped; every other byte is written as it is. *)
Definition escape_char (c : ascii) : string :=
  if Ascii.eqb c "034" then String backslash dquote
  else if Ascii.eqb c backslash then String backslash (String backslash "")
  else if Ascii.eqb c "010" then String backslash "n"
  else if Ascii.eqb c "013" then String backslash "r"
  else if Ascii.eqb c "009" then String backslash "t"
  else if Ascii.eqb c "008" then String backslash "b"
  else if Ascii.eqb c "012" then String backslash "f"
  else if (N_of_ascii c <? 32)%N then
    String backslash
      (String "u"
         (String "0"
            (String "0"
               (String (hex_digit (N_of_ascii c / 16))
                  (String (hex_digit (N_of_ascii c mod 16)) "")))))
  else String c "".

Fixpoint escape (s : string) : string :=
  match s with
  | EmptyString => ""
  | String c r => escape_char c ++ escape r
  end.

Definition encode_str (s : string) : string := dquote ++ escape s ++ dquote.

Definition newline_indent (level : nat) : string :=
  newline ++ String.concat "" (repeat "  " level).

(** The text of [obj] at nesting depth [level]: [_iterencode] with
    [indent=2], item separator [,] and key separator [: ]. *)
Fixpoint encode (obj : json) (level : nat) {struct obj} : string :=
  match obj with
  | JNull => "null"
  | JBool true => "true"
  | JBool false => "false"
  | JInt n => str_of_int n
  | JStr s => encode_str s
  | JList [] => "[]"
  | JList (x :: xs) =>
      "[" ++ newline_indent (S level) ++ encode x (S level)
        ++ (fix more (xs : list json) : string :=
              match xs with
              | [] => newline_indent level ++ "]"
              | y :: ys =>
                  "," ++ newline_indent (S level) ++ encode y (S level)
                    ++ more ys
              end) xs
  | JDict [] => "{}"
  | JDict ((k, x) :: kvs) =>
      "{" ++ newline_indent (S level) ++ encode_str k ++ ": "
        ++ encode x (S level)
        ++ (fix more (kvs : list (string * json)) : string :=
              match kvs with
              | [] => newline_indent level ++ "}"
              | (k', y) :: kvs' =>
                  "," ++ newline_indent (S level) ++ encode_str k' ++ ": "
                    ++ encode y (S level) ++ more kvs'
              end) kvs
  end.

(** *** Writing the text

    The file is opened with [encoding='utf-8'] and strict error handling.
    [json.dump] hands the document to [f.write] chunk by chunk, a chunk for
    every key and for every string value (the escaped text between its
    quotes), and each chunk is encoded as it is written.  A file name that
    is not UTF-8 reaches Python with each offending byte held in a lone
    surrogate ([surrogateescape]), and the encoder refuses a surrogate:
    writing the chunk raises [UnicodeEncodeError] for the first run of them.
    Here such a name is the bytes the file system holds; [sorted] places it
    by those bytes, which is the order of Python among names that are
    text. *)

Definition byte_in (lo hi : N) (c : ascii) : bool :=
  ((lo <=? N_of_ascii c) && (N_of_ascii c <=? hi))%N.

(** For a byte that starts a UTF-8 sequence: how many bytes follow it and
    the range of the first of them; the others are continuation bytes
    (Unicode, table 3-7: no overlong form, no surrogate, nothing above
    U+10FFFF). *)
Definition utf8_lead (c : ascii) : option (nat * N * N) :=
  if byte_in 0 127 c then Some (0%nat, 0%N, 0%N)
  else if byte_in 194 223 c then Some (1%nat, 128%N, 191%N)
  else if byte_in 224 224 c then Some (2%nat, 160%N, 191%N)
  else if byte_in 225 236 c then Some (2%nat, 128%N, 191%N)
  else if byte_in 237 237 c then Some (2%nat, 128%N, 159%N)
  else if byte_in 238 239 c then Some (2%nat, 128%N, 191%N)
  else if byte_in 240 240 c then Some (3%nat, 144%N, 191%N)
  else if byte_in 241 243 c then Some (3%nat, 128%N, 191%N)
  else if byte_in 244 244 c then Some (3%nat, 128%N, 143%N)
  else None.

(** [s] starts with [k] continuation bytes. *)
Fixpoint continuations (k : nat) (s : string) : bool :=
  match k with
  | O => true
  | S k' =>
      match s with
      | String c r => is_continuation c && continuations k' r
      | EmptyString => false
      end
  end.

(** The number of bytes of the character that starts [s]; 0 when [s] does
    not start with a well-formed sequence, and its first byte is then a
    surrogate of its own. *)
Definition utf8_sequence (s : string) : nat :=
  match s with
  | EmptyString => 0
  | String c r =>
      match utf8_lead c with
      | None => 0
      | Some (O, _, _) => 1
      | Some (S k, lo, hi) =>
          match r with
          | String c2 r2 =>
              if byte_in lo hi c2 && continuations k r2 then S (S k) else 0
          | EmptyString => 0
          end
      end
  end.

(** How many surrogates [s] starts with. *)
Fixpoint surrogate_run (s : string) : nat :=
  match s with
  | EmptyString => 0
  | String _ r =>
      match utf8_sequence s with
      | O => S (surrogate_run r)
      | S _ => 0
      end
  end.

(** The first run of surrogates of a text: the index of its first
    character, the index after its last one and the byte its first
    character stands for.  [skip] bytes of the character under way are
    still to pass; [i] characters came before. *)
Fixpoint first_surrogates (s : string) (skip i : nat)
  : option (nat * nat * ascii) :=
  match s with
  | EmptyString => None
  | String c r =>
      match skip with
      | S k => first_surrogates r k i
      | O =>
          match utf8_sequence s with
          | O => Some (i, (i + surrogate_run s)%nat, c)
          | S k => first_surrogates r k (S i)
          end
      end
  end.

(** The [UnicodeEncodeError] of the UTF-8 encoder for the characters from
    [start] to [stop], the first of which stands for the byte [c]. *)
Definition surrogates_not_allowed (start stop : nat) (c : ascii) : exn :=
  Exn UnicodeEncodeError
    (if (stop =? S start)%nat then
       "'utf-8' codec can't encode character '\udc"
         ++ String (hex_digit (N_of_ascii c / 16))
              (String (hex_digit (N_of_ascii c mod 16)) "")
         ++ "' in position " ++ str_of_int (Z.of_nat start)
         ++ ": surrogates not allowed"
     else
       "'utf-8' codec can't encode characters in position "
         ++ str_of_int (Z.of_nat start) ++ "-"
         ++ str_of_int (Z.of_nat stop - 1)
         ++ ": surrogates not allowed").

(** [f.write(chunk)]: what it raises, if anything. *)
Definition write_error (chunk : string) : option exn :=
  match first_surrogates chunk 0 0 with
  | Some (start, stop, c) => Some (surrogates_not_allowed start stop c)
  | None => None
  end.

(** The string values of a node tree that come from the file system, in the
    order [json.dump] comes to them.  Every other chunk (a brace, a
    separator, a key, a type tag, a size) is ASCII. *)
Fixpoint written_strings (structure : Node) : list string :=
  match structure with
  | Folder name path children =>
      name :: path :: flat_map written_strings children
  | File name path _ => [name; path]
  end.

(** The error of the first chunk that cannot be written. *)
Fixpoint first_write_error (strings : list string) : option exn :=
  match strings with
  | [] => None
  | s :: rest =>
      match write_error (encode_str s) with
      | Some e => Some e
      | None => first_write_error rest
      end
  end.

(** [io_error] is the [OSError] that opening [output_file] raises, if any.
    The third component is the document left in [output_file] when nothing
    was raised; after an error the file, if it was opened, holds no complete
    document. *)
Definition save_structure_to_json (structure : Node) (output_file : string)
    (io_error : option exn) : bool * output * option string :=
  match io_error with
  | Some e => (false, ["❌ 保存文件失败: " ++ exn_str e], None)
  | None =>
      match first_write_error (written_strings structure) with
      | Some e => (false, ["❌ 保存文件失败: " ++ exn_str e], None)
      | None =>
          (true, ["✅ 文件结构已保存到: " ++ output_file],
           Some (encode (to_dict structure) 0))
      end
  end.

(** *** [json.load]: reading the document back

    The decoder of the [json] module for documents without fractions or
    exponents: white space is skipped where the grammar allows it, a control
    character inside a string is refused, a repeated key keeps its first
    place and its last value. *)

Definition is_ws (c : ascii) : bool :=
  Ascii.eqb c " " || Ascii.eqb c "010" || Ascii.eqb c "013" || Ascii.eqb c "009".

Fixpoint skip_ws (s : string) : string :=
  match s with
  | String c r => if is_ws c then skip_ws r else s
  | EmptyString => ""
  end.

Definition hex_value (c : ascii) : option N :=
  let n := N_of_ascii c in
  if (48 <=? n)%N && (n <=? 57)%N then Some (n - 48)%N
  else if (97 <=? n)%N && (n <=? 102)%N then Some (n - 87)%N
  else if (65 <=? n)%N && (n <=? 70)%N then Some (n - 55)%N
  else None.

(** The UTF-8 bytes of a code point of the basic plane; surrogates are not
    handled. *)
Definition utf8_encode (cp : N) : option string :=
  if (cp <? 128)%N then Some (String (ascii_of_N cp) "")
  else if (cp <? 2048)%N then
    Some (String (ascii_of_N (192 + cp / 64))
            (String (ascii_of_N (128 + cp mod 64)) ""))
  else if (55296 <=? cp)%N && (cp <? 57344)%N then None
  else
    Some (String (ascii_of_N (224 + cp / 4096))
            (String (ascii_of_N (128 + (cp / 64) mod 64))
               (String (ascii_of_N (128 + cp mod 64)) ""))).

Definition unescape (c : ascii) : option ascii :=
  if Ascii.eqb c "034" then Some "034"%char
  else if Ascii.eqb c backslash then Some backslash
  else if Ascii.eqb c "/" then Some "/"%char
  else if Ascii.eqb c "n" then Some "010"%char
  else if Ascii.eqb c "r" then Some "013"%char
  else if Ascii.eqb c "t" then Some "009"%char
  else if Ascii.eqb c "b" then Some "008"%char
  else if Ascii.eqb c "f" then Some "012"%char
  else None.

Definition decode_u (h1 h2 h3 h4 : ascii) : option string :=
  match hex_value h1, hex_value h2, hex_value h3, hex_value h4 with
  | Some a, Some b, Some c, Some d =>
      utf8_encode (a * 4096 + b * 256 + c * 16 + d)
  | _, _, _, _ => None
  end.

(** After the opening quote: the string, and what follows the closing
    quote. *)
Fixpoint scan_string (s : string) : option (string * string) :=
  match s with
  | EmptyString => None
  | String c r =>
      if Ascii.eqb c "034" then Some ("", r)
      else if Ascii.eqb c backslash then
        match r with
        | String e r' =>
            match unescape e with
            | Some c' =>
                match scan_string r' with
                | Some (t, rest) => Some (String c' t, rest)
                | None => None
                end
            | None =>
                if Ascii.eqb e "u" then
                  match r' with
                  | String h1 (String h2 (String h3 (String h4 r''))) =>
                      match decode_u h1 h2 h3 h4, scan_string r'' with
                      | Some bytes, Some (t, rest) => Some (bytes ++ t, rest)
                      | _, _ => None
                      end
                  | _ => None
                  end
                else None
            end
        | EmptyString => None
        end
      else if (N_of_ascii c <? 32)%N then None
      else
        match scan_string r with
        | Some (t, rest) => Some (String c t, rest)
        | None => None
        end
  end.

Definition is_digit (c : ascii) : bool :=
  (48 <=? N_of_ascii c)%N && (N_of_ascii c <=? 57)%N.

Definition digit_value (c : ascii) : Z := Z.of_N (N_of_ascii c) - 48.

Fixpoint scan_digits (s : string) (acc : Z) : Z * string :=
  match s with
  | String c r =>
      if is_digit c then scan_digits r (10 * acc + digit_value c) else (acc, s)
  | EmptyString => (acc, "")
  end.

(** [0] or a digit from 1 to 9 followed by digits; a fraction or an
    exponent after it is refused. *)
Definition scan_nat (s : string) : option (Z * string) :=
  match s with
  | String c r =>
      if Ascii.eqb c "0" then Some (0, r)
      else if is_digit c then Some (scan_digits r (digit_value c))
      else None
  | EmptyString => None
  end.

Definition starts_fraction (s : string) : bool :=
  match s with
  | String c _ => Ascii.eqb c "." || Ascii.eqb c "e" || Ascii.eqb c "E"
  | EmptyString => false
  end.

Definition scan_int (s : string) : option (Z * string) :=
  let signed :=
    match s with
    | String c r =>
        if Ascii.eqb c "-" then
          match scan_nat r with
          | Some (n, rest) => Some (- n, rest)
          | None => None
          end
        else scan_nat s
    | EmptyString => None
    end in
  match signed with
  | Some (n, rest) => if starts_fraction rest then None else Some (n, rest)
  | None => None
  end.

(** [d[key] = value] *)
Fixpoint dict_set (items : list (string * json)) (key : string) (value : json)
  : list (string * json) :=
  match items with
  | [] => [(key, value)]
  | (k, v) :: rest =>
      if String.eqb k key then (k, value) :: rest
      else (k, v) :: dict_set rest key value
  end.

Definition dict_of_pairs (pairs : list (string * json)) : list (string * json) :=
  fold_left (fun d kv => dict_set d (fst kv) (snd kv)) pairs [].

(** [s] without its prefix [name]. *)
Fixpoint literal (name s : string) : option string :=
  match name with
  | EmptyString => Some s
  | String a name' =>
      match s with
      | String b s' => if Ascii.eqb a b then literal name' s' else None
      | EmptyString => None
      end
  end.

(** [parse_value] reads one value at the start of [s]; [parse_items] reads
    the elements of a list from the first one to the closing bracket;
    [parse_members] reads the members of an object from the first key to
    the closing brace.  [fuel] bounds the nesting and the number of
    elements; the length of the text is always enough. *)
Fixpoint parse_value (fuel : nat) (s : string) : option (json * string) :=
  match fuel with
  | O => None
  | S fuel' =>
      match s with
      | String c r =>
          if Ascii.eqb c "034" then
            match scan_string r with
            | Some (t, rest) => Some (JStr t, rest)
            | None => None
            end
          else if Ascii.eqb c "[" then
            match skip_ws r with
            | String c1 rest as r1 =>
                if Ascii.eqb c1 "]" then Some (JList [], rest)
                else
                  match parse_items fuel' r1 with
                  | Some (xs, rest') => Some (JList xs, rest')
                  | None => None
                  end
            | EmptyString => None
            end
          else if Ascii.eqb c "{" then
            match skip_ws r with
            | String c1 rest as r1 =>
                if Ascii.eqb c1 "}" then Some (JDict [], rest)
                else
                  match parse_members fuel' r1 with
                  | Some (kvs, rest') => Some (JDict (dict_of_pairs kvs), rest')
                  | None => None
                  end
            | EmptyString => None
            end
          else if Ascii.eqb c "n" then
            match literal "ull" r with
            | Some rest => Some (JNull, rest)
            | None => None
            end
          else if Ascii.eqb c "t" then
            match literal "rue" r with
            | Some rest => Some (JBool true, rest)
            | None => None
            end
          else if Ascii.eqb c "f" then
            match literal "alse" r with
            | Some rest => Some (JBool false, rest)
            | None => None
            end
          else
            match scan_int s with
            | Some (n, rest) => Some (JInt n, rest)
            | None => None
            end
      | EmptyString => None
      end
  end

with parse_items (fuel : nat) (s : string) : option (list json * string) :=
  match fuel with
  | O => None
  | S fuel' =>
      match parse_value fuel' s with
      | Some (x, r) =>
          match skip_ws r with
          | String c r' =>
              if Ascii.eqb c "," then
                match parse_items fuel' (skip_ws r') with
                | Some (xs, rest) => Some (x :: xs, rest)
                | None => None
                end
              else if Ascii.eqb c "]" then Some ([x], r')
              else None
          | EmptyString => None
          end
      | None => None
      end
  end

with parse_members (fuel : nat) (s : string)
  : option (list (string * json) * string) :=
  match fuel with
  | O => None
  | S fuel' =>
      match s with
      | String q r =>
          if Ascii.eqb q "034" then
            match scan_string r with
            | Some (k, r1) =>
                match skip_ws r1 with
                | String c r2 =>
                    if Ascii.eqb c ":" then
                      match parse_value fuel' (skip_ws r2) with
                      | Some (x, r3) =>
                          match skip_ws r3 with
                          | String c' r4 =>
                              if Ascii.eqb c' "," then
                                match parse_members fuel' (skip_ws r4) with
                                | Some (kvs, rest) => Some ((k, x) :: kvs, rest)
                                | None => None
                                end
                              else if Ascii.eqb c' "}" then Some ([(k, x)], r4)
                              else None
                          | EmptyString => None
                          end
                      | None => None
                      end
                    else None
                | EmptyString => None
                end
            | None => None
            end
          else None
      | EmptyString => None
      end
  end.

(** [json.loads]: one value, white space around it, nothing else. *)
Definition json_loads (s : string) : option json :=
  match parse_value (S (String.length s)) (skip_ws s) with
  | Some (v, rest) =>
      match skip_ws rest with
      | EmptyString => Some v
      | String _ _ => None
      end
  | None => None
  end.

(** A node read back from the dict it was written as. *)
Fixpoint of_dict (obj : json) : option Node :=
  match obj with
  | JDict [("name", JStr name); ("type", JStr "folder"); ("path", JStr path);
           ("children", JList items)] =>
      match
        (fix all (xs : list json) : option (list Node) :=
           match xs with
           | [] => Some []
           | x :: xs' =>
               match of_dict x, all xs' with
               | Some n, Some ns => Some (n :: ns)
               | _, _ => None
               end
           end) items
      with
      | Some children => Some (Folder name path children)
      | None => None
      end
  | JDict [("name", JStr name); ("type", JStr "file"); ("path", JStr path);
           ("size", JInt size)] =>
      Some (File name path size)
  | _ => None
  end.

(** ** [main] *)

(** The namespace [parse_args] returns. *)
Record Args : Type :=
  { args_path : string;
    args_tree : bool;
    args_size : bool;
    args_json : option string;
    args_stats : bool;
    args_ai : option string;
    args_depth : Z;
    args_all : bool;
    args_output : string }.

(** What [parser.parse_args()] does with the command line, before the
    [try]: it returns the namespace; or, for [-h], it prints the help and
    leaves with [SystemExit(0)]; or, for a flag or a value the parser
    refuses, it writes the usage and the error on standard error and leaves
    with [SystemExit(2)]. *)
Inductive command_line : Type :=
| Namespace (args : Args)
| HelpExit
| UsageError.

(** The defaults [setup_argument_parser] declares. *)
Definition default_args : Args :=
  {| args_path := ".";
     args_tree := false;
     args_size := false;
     args_json := None;
     args_stats := false;
     args_ai := None;
     args_depth := 3;
     args_all := false;
     args_output := "file_structure.json" |}.

(** [if value:] for an option that holds a string or [None]. *)
Definition given (value : option string) : bool :=
  match value with
  | Some s => negb (String.eqb s "")
  | None => false
  end.

(** [str.upper] on ASCII letters, which is what the operation names are. *)
Definition upper_char (c : ascii) : ascii :=
  let n := N_of_ascii c in
  if (97 <=? n)%N && (n <=? 122)%N then ascii_of_N (n - 32) else c.

Fixpoint upper (s : string) : string :=
  match s with
  | EmptyString => ""
  | String c r => String (upper_char c) (upper r)
  end.

(** A computation that prints and may raise: its outcome and the lines it
    printed until then. *)
Definition prog (A : Type) : Type := result A * output.

Definition ret {A : Type} (a : A) : prog A := (Ok a, []).

Definition print (line : string) : prog unit := (Ok tt, [line]).

Definition print_all (lines : output) : prog unit := (Ok tt, lines).

Definition then_ {A B : Type} (m : prog A) (k : A -> prog B) : prog B :=
  match m with
  | (Ok a, out) => let '(r, out') := k a in (r, (out ++ out')%list)
  | (Raise e, out) => (Raise e, out)
  end.

Notation "x <~ m ;; k" := (then_ m (fun x => k))
  (at level 61, m at next level, right associativity).

(** [except ValueError]: the class or its subclass. *)
Definition is_ValueError (e : exn) : bool :=
  match exn_class_of e with
  | ValueError | UnicodeEncodeError => true
  | _ => false
  end.

(** The [results] dict: operation and what was stored for it, [None] for
    [True] and the file name for the export. *)
Definition results : Type := list (string * option string).

(** The closing report, [if results:]. *)
Definition report (done : results) : output :=
  match done with
  | [] => []
  | _ :: _ =>
      (newline ++ "✅ 操作完成!")
        :: map (fun kv =>
                  match kv with
                  | (operation, Some file) =>
                      if String.eqb operation "json"
                      then "   📁 JSON文件: " ++ file
                      else "   ✅ " ++ upper operation ++ ": 完成"
                  | (operation, None) =>
                      if String.eqb operation "json"
                      then "   📁 JSON文件: True"
                      else "   ✅ " ++ upper operation ++ ": 完成"
                  end) done
  end.

Section Dispatcher.

(** The environment: the value of [DEEPSEEK_API_KEY], the working
    directory, the network, the error opening the export's file raises if
    any, the text [print_help] prints and [str] for an answer that is not a
    string. *)
Variable getenv : option string.
Variable cwd : string.
Variable requests_post :
  string -> list (string * string) -> chat_request -> Z -> result response.
Variable io_error : option exn.
Variable help_text : string.
Variable str_of_object : json -> string.

(** [print(answer)] *)
Definition answer_text (answer : json) : string :=
  match answer with
  | JStr s => s
  | _ => str_of_object answer
  end.

(** [args.all]: every operation, with the file name of [--output] and the
    stock question. *)
Definition expand_all (args : Args) : Args :=
  if args_all args then
    {| args_path := args_path args;
       args_tree := true;
       args_size := args_size args;
       args_json := Some (args_output args);
       args_stats := true;
       args_ai := Some "请分析这个项目的结构、类型和可能的用途";
       args_depth := args_depth args;
       args_all := true;
       args_output := args_output args |}
  else args.

(** The four operations, in their fixed order.  [target] is the entry
    [args.path] denotes until the export is written, [target_after] the
    entry it denotes from then on (the export may land inside the scanned
    directory). *)
Definition run_operations (agent : FileStructureAgent) (args : Args)
    (target target_after : entry) : prog results :=
  done1 <~
    (if args_tree args then
       _ <~ print (newline ++ "🌳 文件结构树:") ;;
       _ <~ print_all
              (display_structure_tree cwd (args_path args) (args_size args)
                 target) ;;
       ret [("tree", None)]
     else ret []) ;;
  done2 <~
    (if args_stats args then
       _ <~ print (newline ++ "📊 统计信息:") ;;
       summary <~ get_structure_summary cwd (args_path args) target ;;
       _ <~ print summary ;;
       ret (done1 ++ [("stats", None)])%list
     else ret done1) ;;
  done3 <~
    (match args_json args with
     | Some file =>
         if given (args_json args) then
           _ <~ print (newline ++ "💾 保存文件结构到: " ++ file) ;;
           structure <~ get_folder_structure cwd (args_path args) target ;;
           let '(saved, out, _) :=
             save_structure_to_json structure file io_error in
           _ <~ print_all out ;;
           ret (if saved then (done2 ++ [("json", Some file)])%list else done2)
         else ret done2
     | None => ret done2
     end) ;;
  let target' := if given (args_json args) then target_after else target in
  match args_ai args with
  | Some question =>
      if given (args_ai args) then
        _ <~ print (newline ++ "🤖 AI分析:") ;;
        _ <~ print ("问题: " ++ question) ;;
        _ <~ print (str_mul "-" 50) ;;
        answer <~ analyze_with_ai cwd requests_post agent (args_path args)
                    target' question (args_depth args) ;;
        _ <~ print (answer_text answer) ;;
        _ <~ print (str_mul "-" 50) ;;
        ret (done3 ++ [("ai", None)])%list
      else ret done3
  | None => ret done3
  end.

(** The body of the [try]. *)
Definition main_try (args : Args) (target target_after : entry) : prog Z :=
  agent <~ (__init__ getenv, []) ;;
  _ <~ print "🚀 DeepSeek 文件结构分析Agent" ;;
  _ <~ print ("📍 扫描路径: " ++ posixpath.abspath cwd (args_path args)) ;;
  _ <~ print (str_mul "-" 50) ;;
  if negb (os.exists_ target) then
    _ <~ print ("❌ 错误: 路径不存在 '" ++ args_path args ++ "'") ;;
    ret 1
  else
    _ <~ (if args_all args then print (newline ++ "📋 执行所有操作...")
          else ret tt) ;;
    let args' := expand_all args in
    done <~ run_operations agent args' target target_after ;;
    _ <~ (if negb (args_tree args' || args_stats args' || given (args_json args')
                   || given (args_ai args') || args_all args')
          then
            _ <~ print help_text ;;
            print (newline ++ "💡 提示: 使用 --all 执行所有操作")
          else ret tt) ;;
    _ <~ print_all (report done) ;;
    ret 0.

(** [main], run as [exit(main())]: the exit status of the program and
    everything printed on standard output.  [parsed] is what
    [parser.parse_args()] does; the [SystemExit] it may raise is outside the
    [try] and ends the program with its status. *)
Definition main (parsed : command_line) (target target_after : entry)
  : Z * output :=
  match parsed with
  | HelpExit => (0, [help_text])
  | UsageError => (2, [])
  | Namespace args =>
      match main_try args target target_after with
      | (Ok status, out) => (status, out)
      | (Raise e, out) =>
          if is_ValueError e then
            (1, (out ++ [("❌ " ++ exn_str e)%string;
                         (newline ++ "💡 解决方案:")%string;
                         "1. 创建 .env 文件并在其中添加:";
                         "   DEEPSEEK_API_KEY=你的deepseek_api密钥";
                         "2. 重新运行程序"])%list)
          else (1, (out ++ [("❌ 程序运行出错: " ++ exn_str e)%string])%list)
      end
  end.

End Dispatcher.

(** * Properties *)

(** ** Induction on directory trees and node trees *)

Section EntryInduction.

Variable P : entry -> Prop.
Hypothesis P_file : forall sz, P (RegularFile sz).
Hypothesis P_dir :
  forall entries, Forall (fun ne => P (snd ne)) entries -> P (Directory entries).
Hypothesis P_unlistable : forall err, P (UnlistableDirectory err).
Hypothesis P_special : forall sz, P (SpecialFile sz).
Hypothesis P_none : forall err, P (NoEntry err).

Fixpoint entry_ind (e : entry) : P e :=
  match e with
  | RegularFile sz => P_file sz
  | Directory entries =>
      P_dir entries
        ((fix all (es : list (string * entry)) : Forall (fun ne => P (snd ne)) es :=
            match es with
            | [] => Forall_nil _
            | ne :: es' => Forall_cons ne (entry_ind (snd ne)) (all es')
            end) entries)
  | UnlistableDirectory err => P_unlistable err
  | SpecialFile sz => P_special sz
  | NoEntry err => P_none err
  end.

End EntryInduction.

Section NodeInduction.

Variable P : Node -> Prop.
Hypothesis P_folder :
  forall name path children, Forall P children -> P (Folder name path children).
Hypothesis P_file : forall name path size, P (File name path size).

Fixpoint Node_ind (n : Node) : P n :=
  match n with
  | Folder name path children =>
      P_folder name path children
        ((fix all (cs : list Node) : Forall P cs :=
            match cs with
            | [] => Forall_nil _
            | c :: cs' => Forall_cons c (Node_ind c) (all cs')
            end) children)
  | File name path size => P_file name path size
  end.

End NodeInduction.

(** ** The recursive calls, unfolded *)

(** Looking an item up in the listing yields an entry that exists exactly
    when the walker's recursive call does not raise. *)
Lemma lookup_In entries item :
  os.exists_ (os.lookup entries item) = true ->
  In (item, os.lookup entries item) entries.
Proof.
  induction entries as [|[n c] es IH]; simpl; [discriminate|].
  destruct (String.eqb n item) eqn:E.
  - apply String.eqb_eq in E. subst. auto.
  - auto.
Qed.

Lemma scan_items_ext folder_path dir recurse recurse' items :
  (forall item, recurse item = recurse' item) ->
  forall children,
    scan_items folder_path dir recurse items children
    = scan_items folder_path dir recurse' items children.
Proof.
  intros Hext. induction items as [|item rest IH]; intros children; simpl.
  - reflexivity.
  - rewrite Hext. destruct (os.isdir _).
    + destruct (recurse' item) as [[sub|e] out]; [rewrite IH|]; reflexivity.
    + destruct (os.getsize _); [apply IH|reflexivity].
Qed.

(** The walker on a directory that can be listed: one pass over the sorted
    names, each subdirectory scanned by the walker itself. *)
Lemma get_folder_structure_Directory cwd folder_path entries :
  get_folder_structure cwd folder_path (Directory entries)
  = let name := posixpath.basename (posixpath.abspath cwd folder_path) in
    let path := posixpath.abspath cwd folder_path in
    let '(children, raised, out) :=
      scan_items folder_path (Directory entries)
        (fun item =>
           get_folder_structure cwd (posixpath.join folder_path item)
             (os.lookup entries item))
        (sorted (map fst entries)) [] in
    match raised with
    | None => (Ok (Folder name path children), out)
    | Some e =>
        (Ok (Folder name path children),
         (out ++ scan_handler folder_path e)%list)
    end.
Proof.
  cbn [get_folder_structure os.exists_ negb os.listdir].
  cbv zeta.
  erewrite scan_items_ext; [reflexivity|].
  intros item. induction entries as [|[n c] es IH]; [reflexivity|].
  cbn [os.lookup]. destruct (String.eqb n item); [reflexivity|apply IH].
Qed.

Lemma print_items_ext prefix show_size dir recurse recurse' folders total :
  (forall item new_prefix, recurse item new_prefix = recurse' item new_prefix) ->
  forall all_items i,
    print_items prefix show_size dir recurse folders total i all_items
    = print_items prefix show_size dir recurse' folders total i all_items.
Proof.
  intros Hext. induction all_items as [|item rest IH]; intros i; simpl.
  - reflexivity.
  - rewrite Hext, IH. reflexivity.
Qed.

(** The renderer on a directory that can be listed. *)
Lemma _print_tree_Directory path prefix show_size entries :
  _print_tree path prefix show_size (Directory entries)
  = let items := sorted (map fst entries) in
    let folders := filter (fun item => os.isdir (os.lookup entries item)) items in
    let files := filter (fun item => os.isfile (os.lookup entries item)) items in
    let all_items := (folders ++ files)%list in
    let '(out, raised) :=
      print_items prefix show_size (Directory entries)
        (fun item new_prefix =>
           _print_tree (posixpath.join path item) new_prefix show_size
             (os.lookup entries item))
        folders (Z.of_nat (length all_items)) 0 all_items in
    match raised with
    | None => out
    | Some e => (out ++ print_handler prefix e)%list
    end.
Proof.
  cbn [_print_tree os.listdir os.child].
  cbv zeta.
  erewrite print_items_ext; [reflexivity|].
  intros item new_prefix. induction entries as [|[n c] es IH]; [reflexivity|].
  cbn [os.lookup]. destruct (String.eqb n item); [reflexivity|apply IH].
Qed.

(** ** Paths: the name of a scanned entry is the listed name *)

Fixpoint has_sep (s : string) : bool :=
  match s with
  | EmptyString => false
  | String c r => posixpath.is_sep c || has_sep r
  end.

(** What [os.listdir] can return: a file name is not empty, holds no
    separator and is neither [.] nor [..]. *)
Definition valid_name (item : string) : bool :=
  negb (String.eqb item "") && negb (String.eqb item ".")
    && negb (String.eqb item "..") && negb (has_sep item).

(** Every listing below [e] holds valid names only. *)
Fixpoint valid_names (e : entry) : bool :=
  match e with
  | Directory entries =>
      (fix all (es : list (string * entry)) : bool :=
         match es with
         | [] => true
         | (n, c) :: es' => valid_name n && valid_names c && all es'
         end) entries
  | _ => true
  end.

(** [s] is [item] or ends in [/item]. *)
Definition ends_with_item (item s : string) : Prop :=
  s = item \/ exists p, s = p ++ "/" ++ item.

Lemma string_app_assoc (a b c : string) : (a ++ b) ++ c = a ++ (b ++ c).
Proof. induction a; simpl; congruence. Qed.

Lemma string_app_nil_r (a : string) : a ++ "" = a.
Proof. induction a; simpl; congruence. Qed.

Lemma split_nonempty s : posixpath.split s <> [].
Proof.
  destruct s as [|c r]; simpl; [discriminate|].
  destruct (posixpath.is_sep c); [discriminate|].
  destruct (posixpath.split r); discriminate.
Qed.

Lemma split_no_sep item : has_sep item = false -> posixpath.split item = [item].
Proof.
  induction item as [|c r IH]; simpl; [reflexivity|].
  intros H. apply orb_false_iff in H as [Hc Hr].
  rewrite Hc, (IH Hr). reflexivity.
Qed.

Lemma split_app_sep p item :
  has_sep item = false ->
  posixpath.split (p ++ "/" ++ item) = (posixpath.split p ++ [item])%list.
Proof.
  intros H. induction p as [|c r IH]; simpl.
  - rewrite (split_no_sep item H). reflexivity.
  - simpl in IH. rewrite IH. destruct (posixpath.is_sep c); [reflexivity|].
    destruct (posixpath.split r) eqn:E; [|reflexivity].
    exfalso. exact (split_nonempty r E).
Qed.

Lemma basename_ends_with_item item s :
  has_sep item = false -> ends_with_item item s -> posixpath.basename s = item.
Proof.
  intros H [->|[p ->]]; unfold posixpath.basename.
  - rewrite (split_no_sep item H). reflexivity.
  - rewrite (split_app_sep p item H). apply last_last.
Qed.

Lemma endswith_sep_app a :
  posixpath.endswith_sep a = true -> exists p, a = p ++ "/".
Proof.
  induction a as [|c r IH]; simpl; [discriminate|].
  destruct r as [|c' r'].
  - unfold posixpath.is_sep. intros H. apply Ascii.eqb_eq in H. subst.
    exists "". reflexivity.
  - intros H. destruct (IH H) as [p Hp]. exists (String c p).
    simpl. rewrite <- Hp. reflexivity.
Qed.

Lemma join_ends_with_item a item s :
  ends_with_item item s -> ends_with_item item (posixpath.join a s).
Proof.
  intros Hs. unfold posixpath.join.
  destruct (posixpath.startswith_sep s); [exact Hs|].
  destruct (String.eqb a "") eqn:Ea.
  - apply String.eqb_eq in Ea. subst. exact Hs.
  - simpl. destruct (posixpath.endswith_sep a) eqn:Es.
    + destruct (endswith_sep_app a Es) as [p ->].
      destruct Hs as [->|[q ->]]; right.
      * exists p. rewrite string_app_assoc. reflexivity.
      * exists ((p ++ "/") ++ q). rewrite !string_app_assoc. reflexivity.
    + destruct Hs as [->|[q ->]]; right.
      * exists a. reflexivity.
      * exists (a ++ "/" ++ q). rewrite !string_app_assoc. reflexivity.
Qed.

Lemma concat_snoc sep (l : list string) x :
  String.concat sep (l ++ [x])
  = match l with [] => x | _ => String.concat sep l ++ sep ++ x end.
Proof.
  induction l as [|a l IH]; [reflexivity|].
  destruct l as [|b l'].
  - reflexivity.
  - change (String.concat sep ((a :: b :: l') ++ [x]))
      with (a ++ sep ++ String.concat sep ((b :: l') ++ [x])).
    rewrite IH.
    change (String.concat sep (a :: b :: l'))
      with (a ++ sep ++ String.concat sep (b :: l')).
    rewrite !string_app_assoc. reflexivity.
Qed.

Lemma valid_name_inv item :
  valid_name item = true ->
  String.eqb item "" = false /\ String.eqb item "." = false
  /\ String.eqb item ".." = false /\ has_sep item = false.
Proof.
  unfold valid_name. intros H.
  repeat (apply andb_true_iff in H as [H ?]).
  repeat split; apply negb_true_iff; assumption.
Qed.

Lemma ends_with_item_nonempty item s :
  String.eqb item "" = false -> ends_with_item item s -> String.eqb s "" = false.
Proof.
  intros Hi [->|[p ->]]; [exact Hi|].
  destruct p; reflexivity.
Qed.

Lemma normpath_ends_with_item item s :
  valid_name item = true ->
  ends_with_item item s -> ends_with_item item (posixpath.normpath s).
Proof.
  intros Hv Hs. destruct (valid_name_inv item Hv) as (He & Hd & Hdd & Hsep).
  unfold posixpath.normpath.
  rewrite (ends_with_item_nonempty item s He Hs).
  set (k := if posixpath.startswith_sep s then _ else _).
  assert (Hsplit : exists l, posixpath.split s = (l ++ [item])%list).
  { destruct Hs as [->|[p ->]].
    - exists []. apply split_no_sep, Hsep.
    - exists (posixpath.split p). apply split_app_sep, Hsep. }
  destruct Hsplit as [l ->].
  rewrite fold_left_app. cbn [fold_left].
  set (comps := fold_left (posixpath.normpath_step k) l []).
  assert (Hstep : posixpath.normpath_step k comps item = (comps ++ [item])%list).
  { unfold posixpath.normpath_step. rewrite He, Hd, Hdd. reflexivity. }
  rewrite Hstep, concat_snoc.
  set (slashes := String.concat "" (repeat "/" k)).
  assert (Hform : ends_with_item item
            (slashes ++ match comps with
                        | [] => item
                        | _ :: _ => String.concat "/" comps ++ "/" ++ item
                        end)).
  { destruct comps as [|c0 cs].
    - assert (Hk : slashes = "" \/ slashes = "/" \/ slashes = "//").
      { subst slashes k. destruct (posixpath.startswith_sep s); [|auto].
        destruct s as [|c1 [|c2 r]]; [auto..|].
        destruct (posixpath.is_sep c2 && negb (posixpath.startswith_sep r)); auto. }
      destruct Hk as [->|[->| ->]].
      + left. reflexivity.
      + right. exists "". reflexivity.
      + right. exists "/". reflexivity.
    - right. exists (slashes ++ String.concat "/" (c0 :: cs)).
      rewrite string_app_assoc. reflexivity. }
  rewrite (ends_with_item_nonempty item _ He Hform). exact Hform.
Qed.

(** The folder node built for a listed item carries the item as its name. *)
Lemma basename_abspath_join cwd folder_path item :
  valid_name item = true ->
  posixpath.basename
    (posixpath.abspath cwd (posixpath.join folder_path item)) = item.
Proof.
  intros Hv. destruct (valid_name_inv item Hv) as (_ & _ & _ & Hsep).
  apply basename_ends_with_item; [exact Hsep|].
  unfold posixpath.abspath. apply normpath_ends_with_item; [exact Hv|].
  assert (H : ends_with_item item (posixpath.join folder_path item)).
  { apply join_ends_with_item. left. reflexivity. }
  destruct (posixpath.isabs _); [exact H|].
  apply join_ends_with_item. exact H.
Qed.

(** ** The walker *)

(** Every node the walker returns is a folder named after its path. *)
Lemma get_folder_structure_Ok cwd folder_path target node out :
  get_folder_structure cwd folder_path target = (Ok node, out) ->
  exists children,
    node = Folder (posixpath.basename (posixpath.abspath cwd folder_path))
             (posixpath.abspath cwd folder_path) children.
Proof.
  destruct target as [sz|entries|err|sz|err].
  - cbn. intros H. inversion H. eauto.
  - rewrite get_folder_structure_Directory. cbv zeta.
    destruct (scan_items _ _ _ _ _) as [[children raised] out'].
    destruct raised; intros H; inversion H; eauto.
  - cbn. intros H. inversion H. eauto.
  - cbn. intros H. inversion H. eauto.
  - cbn. intros H. inversion H.
Qed.

(** A path that exists is scanned without raising. *)
Lemma get_folder_structure_exists cwd folder_path target :
  os.exists_ target = true ->
  exists node out, get_folder_structure cwd folder_path target = (Ok node, out).
Proof.
  destruct target as [sz|entries|err|sz|err]; intros Hex.
  - cbn. eauto.
  - rewrite get_folder_structure_Directory. cbv zeta.
    destruct (scan_items _ _ _ _ _) as [[children raised] out'].
    destruct raised; eauto.
  - cbn. eauto.
  - cbn. eauto.
  - discriminate.
Qed.

Lemma isdir_exists target : os.isdir target = true -> os.exists_ target = true.
Proof. destruct target; simpl; congruence. Qed.

(** How one listed item ends up in [children]: a subdirectory as the node
    the walker returns for it, anything else as a file node with its size. *)
Definition scanned_as (cwd folder_path : string) (entries : list (string * entry))
    (item : string) (node : Node) : Prop :=
  let c := os.lookup entries item in
  if os.isdir c then
    exists out,
      get_folder_structure cwd (posixpath.join folder_path item) c = (Ok node, out)
  else
    exists size,
      os.getsize c = Ok size
      /\ node = File item (posixpath.join folder_path item) size.

(** What the subdirectory scans of a listing print, in order. *)
Definition items_output (cwd folder_path : string) (entries : list (string * entry))
    (items : list string) : output :=
  flat_map
    (fun item =>
       let c := os.lookup entries item in
       if os.isdir c
       then snd (get_folder_structure cwd (posixpath.join folder_path item) c)
       else [])
    items.

(** The loop visits every item when each of them can be examined. *)
Lemma scan_items_complete cwd folder_path entries items :
  Forall (fun item => os.exists_ (os.lookup entries item) = true) items ->
  forall children,
  exists nodes,
    scan_items folder_path (Directory entries)
      (fun item =>
         get_folder_structure cwd (posixpath.join folder_path item)
           (os.lookup entries item))
      items children
    = ((children ++ nodes)%list, None, items_output cwd folder_path entries items)
    /\ Forall2 (scanned_as cwd folder_path entries) items nodes.
Proof.
  induction 1 as [|item rest Hex _ IH]; intros children.
  - exists []. rewrite app_nil_r. split; [reflexivity|constructor].
  - cbn [scan_items os.child items_output flat_map].
    destruct (os.isdir (os.lookup entries item)) eqn:Hdir.
    + destruct (get_folder_structure_exists cwd
                  (posixpath.join folder_path item) _ Hex) as (sub & out & Hsub).
      rewrite Hsub. cbn [snd].
      destruct (IH (children ++ [sub])%list) as (nodes & Hrest & Hall).
      rewrite Hrest. exists (sub :: nodes). split.
      * rewrite <- app_assoc. reflexivity.
      * constructor; [|exact Hall].
        unfold scanned_as. rewrite Hdir. eauto.
    + destruct (os.lookup entries item) as [sz|es|err|sz|err] eqn:Hc;
        try discriminate; cbn [os.getsize].
      * destruct (IH (children ++ [File item (posixpath.join folder_path item) sz])%list)
          as (nodes & Hrest & Hall).
        rewrite Hrest. eexists (_ :: nodes). split.
        -- rewrite <- app_assoc. reflexivity.
        -- constructor; [|exact Hall].
           unfold scanned_as. rewrite Hc. cbn. eauto.
      * destruct (IH (children ++ [File item (posixpath.join folder_path item) sz])%list)
          as (nodes & Hrest & Hall).
        rewrite Hrest. eexists (_ :: nodes). split.
        -- rewrite <- app_assoc. reflexivity.
        -- constructor; [|exact Hall].
           unfold scanned_as. rewrite Hc. cbn. eauto.
Qed.

Lemma lookup_listed entries item :
  In item (map fst entries) -> In (item, os.lookup entries item) entries.
Proof.
  induction entries as [|[n c] es IH]; simpl; [tauto|].
  destruct (String.eqb n item) eqn:E.
  - apply String.eqb_eq in E. subst. auto.
  - intros [H|H]; [subst; rewrite String.eqb_refl in E; discriminate|auto].
Qed.

Lemma sorted_In items item : In item (sorted items) <-> In item items.
Proof.
  unfold sorted. split; intros H.
  - eapply Permutation_in; [|exact H].
    apply Permutation_sym, StringSort.Permuted_sort.
  - eapply Permutation_in; [|exact H]. apply StringSort.Permuted_sort.
Qed.

Lemma listed_items_exist entries :
  Forall (fun ne => os.exists_ (snd ne) = true) entries ->
  Forall (fun item => os.exists_ (os.lookup entries item) = true)
    (sorted (map fst entries)).
Proof.
  intros HF. apply Forall_forall. intros item Hin.
  apply sorted_In, lookup_listed in Hin.
  rewrite Forall_forall in HF. exact (HF _ Hin).
Qed.

(** A directory whose entries can all be examined is scanned completely. *)
Lemma get_folder_structure_complete cwd folder_path entries :
  Forall (fun ne => os.exists_ (snd ne) = true) entries ->
  exists children,
    get_folder_structure cwd folder_path (Directory entries)
    = (Ok (Folder (posixpath.basename (posixpath.abspath cwd folder_path))
             (posixpath.abspath cwd folder_path) children),
       items_output cwd folder_path entries (sorted (map fst entries)))
    /\ Forall2 (scanned_as cwd folder_path entries)
         (sorted (map fst entries)) children.
Proof.
  intros HF. rewrite get_folder_structure_Directory. cbv zeta.
  destruct (scan_items_complete cwd folder_path entries _
              (listed_items_exist entries HF) []) as (nodes & Hscan & Hall).
  rewrite Hscan. exists nodes. split; [reflexivity|exact Hall].
Qed.

(** The loop over a first part of the items that can all be examined. *)
Lemma scan_items_prefix cwd folder_path entries before :
  Forall (fun item => os.exists_ (os.lookup entries item) = true) before ->
  forall children,
  exists nodes,
    Forall2 (scanned_as cwd folder_path entries) before nodes
    /\ forall rest,
         scan_items folder_path (Directory entries)
           (fun item =>
              get_folder_structure cwd (posixpath.join folder_path item)
                (os.lookup entries item))
           (before ++ rest) children
         = let '(children', raised, out) :=
             scan_items folder_path (Directory entries)
               (fun item =>
                  get_folder_structure cwd (posixpath.join folder_path item)
                    (os.lookup entries item))
               rest (children ++ nodes) in
           (children', raised,
            (items_output cwd folder_path entries before ++ out)%list).
Proof.
  induction 1 as [|item before Hex _ IH]; intros children.
  - exists []. split; [constructor|]. intros rest. rewrite app_nil_r.
    cbn [app items_output flat_map].
    destruct (scan_items _ _ _ rest children) as [[c r] o]. reflexivity.
  - destruct (os.isdir (os.lookup entries item)) eqn:Hdir.
    + destruct (get_folder_structure_exists cwd
                  (posixpath.join folder_path item) _ Hex) as (sub & out & Hsub).
      destruct (IH (children ++ [sub])%list) as (nodes & Hall & Hrest).
      exists (sub :: nodes). split.
      * constructor; [|exact Hall]. unfold scanned_as. rewrite Hdir. eauto.
      * intros rest. cbn [app scan_items os.child items_output flat_map].
        rewrite Hdir, Hsub, Hrest. cbn [snd].
        change (children ++ sub :: nodes)%list
          with (children ++ [sub] ++ nodes)%list.
        rewrite app_assoc.
        destruct (scan_items _ _ _ rest _) as [[c r] o].
        rewrite <- app_assoc. reflexivity.
    + assert (Hsize : exists size, os.getsize (os.lookup entries item) = Ok size).
      { destruct (os.lookup entries item); try discriminate; cbn; eauto. }
      destruct Hsize as [size Hsize].
      destruct (IH (children ++ [File item (posixpath.join folder_path item) size])%list)
        as (nodes & Hall & Hrest).
      exists (File item (posixpath.join folder_path item) size :: nodes). split.
      * constructor; [|exact Hall]. unfold scanned_as. rewrite Hdir. eauto.
      * intros rest. cbn [app scan_items os.child items_output flat_map].
        rewrite Hdir, Hsize, Hrest.
        change (children ++ File item (posixpath.join folder_path item) size :: nodes)%list
          with (children ++ [File item (posixpath.join folder_path item) size]
                  ++ nodes)%list.
        rewrite app_assoc.
        destruct (scan_items _ _ _ rest _) as [[c r] o]. reflexivity.
Qed.

(** *** A scan that leaves nothing out

    What the specification calls a full scan, said without the walker: no
    loop, no handler, nothing printed. *)














(** C8.  Scanning a path that does not exist raises the not-found error at
    once: nothing has been printed and no entry has been visited. *)
Theorem missing_path_raises_not_found
    (cwd folder_path : string) (target : entry) :
  os.exists_ target = false ->
  get_folder_structure cwd folder_path target
  = (Raise (Exn FileNotFoundError ("路径不存在: " ++ folder_path)), []).
Proof.
  destruct target; try discriminate. intros _. reflexivity.
Qed.

Lemma missing_path_raises_not_found_witness :
  get_folder_structure "/home/u" "nowhere" (NoEntry (os.ENOENT "nowhere"))
  = (Raise (Exn FileNotFoundError "路径不存在: nowhere"), []).
Proof.
  apply (missing_path_raises_not_found "/home/u" "nowhere"
           (NoEntry (os.ENOENT "nowhere"))).
  reflexivity.
Defined.

(** C10.  Scanning a path that exists but is not a directory does not
    raise: listing it fails, the generic handler prints the error, and the
    result is a node of type folder with the path's base name, its absolute
    path and no children. *)
Theorem non_directory_path_gives_empty_folder
    (cwd folder_path : string) (target : entry) :
  os.exists_ target = true ->
  os.isdir target = false ->
  exists node,
    get_folder_structure cwd folder_path target
    = (Ok node, ["❌ 扫描出错: " ++ exn_str (os.ENOTDIR folder_path)])
    /\ node_type node = "folder"
    /\ node_name node = posixpath.basename (posixpath.abspath cwd folder_path)
    /\ node_path node = posixpath.abspath cwd folder_path
    /\ node_children node = [].
Proof.
  destruct target; try discriminate; intros _ _;
    eexists; (split; [reflexivity|]); repeat split.
Qed.

Lemma non_directory_path_witness :
  exists node,
    get_folder_structure "/home/u" "notes.txt" (RegularFile 12)
    = (Ok node, ["❌ 扫描出错: [Errno 20] Not a directory: 'notes.txt'"])
    /\ node_type node = "folder"
    /\ node_name node = "notes.txt"
    /\ node_path node = "/home/u/notes.txt"
    /\ node_children node = [].
Proof.
  apply (non_directory_path_gives_empty_folder "/home/u" "notes.txt"
           (RegularFile 12)); reflexivity.
Defined.

(** ** Order of the children *)

(** [n] occurs in the tree below (or at) the second node. *)
Inductive subnode (n : Node) : Node -> Prop :=
| subnode_here : subnode n n
| subnode_below name path children c :
    In c children -> subnode n c -> subnode n (Folder name path children).





Lemma valid_names_lookup entries item :
  valid_names (Directory entries) = true ->
  In item (map fst entries) ->
  valid_name item = true /\ valid_names (os.lookup entries item) = true.
Proof.
  induction entries as [|[n c] es IH]; [intros _ []|].
  intros Hv Hin. cbn in Hv.
  apply andb_true_iff in Hv as [Hv Hes].
  apply andb_true_iff in Hv as [Hn Hc].
  cbn [os.lookup]. destruct (String.eqb n item) eqn:E.
  - apply String.eqb_eq in E. subst. auto.
  - apply IH; [exact Hes|].
    destruct Hin as [Hin|Hin]; [|exact Hin].
    cbn in Hin. subst. rewrite String.eqb_refl in E. discriminate.
Qed.


Lemma sorted_Sorted items :
  Sorted (fun x y => String.leb x y = true) (sorted items).
Proof. exact (StringSort.Sorted_sort items). Qed.






Definition sorted_example : entry :=
  Directory [("sub", Directory [("b.txt", RegularFile 20)]);
             ("a.txt", RegularFile 10)].


(** ** The summary *)

(** All the nodes strictly below a node, parents before children. *)
Fixpoint descendants (n : Node) : list Node :=
  match n with
  | Folder _ _ children =>
      (fix below (cs : list Node) : list Node :=
         match cs with
         | [] => []
         | c :: cs' => ((c :: descendants c) ++ below cs')%list
         end) children
  | File _ _ _ => []
  end.

Definition is_folder (n : Node) : bool :=
  match n with Folder _ _ _ => true | File _ _ _ => false end.

Definition is_file (n : Node) : bool := negb (is_folder n).

Definition file_size (n : Node) : Z :=
  match n with File _ _ size => size | Folder _ _ _ => 0 end.

Definition total_of (l : list Z) : Z := fold_right Z.add 0 l.

Definition count (f : Node -> bool) (l : list Node) : Z :=
  Z.of_nat (length (filter f l)).

Lemma total_of_app l1 l2 : total_of (l1 ++ l2)%list = total_of l1 + total_of l2.
Proof. induction l1; simpl; lia. Qed.

Lemma count_app f l1 l2 :
  count f (l1 ++ l2)%list = count f l1 + count f l2.
Proof. unfold count. rewrite filter_app, length_app. lia. Qed.

Lemma triple_eq (a a' b b' c c' : Z) :
  a = a' -> b = b' -> c = c' -> (a, b, c) = (a', b', c').
Proof. congruence. Qed.

Lemma count_nil f : count f [] = 0.
Proof. reflexivity. Qed.

Lemma count_cons f x l :
  count f (x :: l) = (if f x then 1 else 0) + count f l.
Proof.
  unfold count. cbn [filter]. destruct (f x); cbn [length]; lia.
Qed.

Ltac count_simpl :=
  cbn [descendants filter map file_size];
  rewrite ?count_cons, ?count_nil;
  cbn [is_file is_folder negb filter map file_size total_of fold_right].

Lemma descendants_Folder name path children :
  descendants (Folder name path children)
  = flat_map (fun c => c :: descendants c) children.
Proof.
  cbn [descendants]. induction children as [|c cs IH]; [reflexivity|].
  cbn [flat_map]. rewrite <- IH. reflexivity.
Qed.

(** The inner loop of [count_items], started from any counters. *)
Definition count_children (cs : list Node) (acc : Z * Z * Z) : Z * Z * Z :=
  (fix for_children (cs : list Node) (acc : Z * Z * Z) : Z * Z * Z :=
     match cs with
     | [] => acc
     | child :: cs' =>
         let '(folders, files, total_size) := acc in
         match child with
         | Folder _ _ _ =>
             let '(sub_folders, sub_files, sub_size) := count_items child in
             for_children cs'
               (folders + sub_folders, files + sub_files, total_size + sub_size)
         | File _ _ size =>
             for_children cs' (folders, files + 1, total_size + size)
         end
     end) cs acc.

Lemma count_items_Folder name path children :
  count_items (Folder name path children) = count_children children (0 + 1, 0, 0).
Proof. reflexivity. Qed.

Lemma count_items_descendants n :
  is_folder n = true ->
  count_items n
  = (1 + count is_folder (descendants n),
     count is_file (descendants n),
     total_of (map file_size (filter is_file (descendants n)))).
Proof.
  induction n as [name path children IH|name path size] using Node_ind;
    [intros _|discriminate].
  rewrite count_items_Folder, descendants_Folder.
  assert (Hloop : forall folders files total,
    count_children children (folders, files, total)
    = (folders + count is_folder (flat_map (fun c => c :: descendants c) children),
       files + count is_file (flat_map (fun c => c :: descendants c) children),
       total + total_of (map file_size
                      (filter is_file
                         (flat_map (fun c => c :: descendants c) children))))).
  { induction children as [|c cs IHcs]; intros folders files total.
    - cbn [flat_map]. apply triple_eq; count_simpl; lia.
    - inversion IH as [|? ? Hc Hcs]; subst.
      cbn [flat_map]. rewrite !filter_app, !count_app, map_app, total_of_app.
      change (c :: descendants c) with ([c] ++ descendants c)%list.
      rewrite !filter_app, !count_app, map_app, total_of_app.
      destruct c as [cname cpath cchildren|cname cpath csize].
      + change (count_children (Folder cname cpath cchildren :: cs)
                  (folders, files, total))
          with (let '(sub_folders, sub_files, sub_size) :=
                  count_items (Folder cname cpath cchildren) in
                count_children cs
                  (folders + sub_folders, files + sub_files, total + sub_size)).
        rewrite (Hc eq_refl). rewrite (IHcs Hcs).
        apply triple_eq; count_simpl; lia.
      + change (count_children (File cname cpath csize :: cs)
                  (folders, files, total))
          with (count_children cs (folders, files + 1, total + csize)).
        rewrite (IHcs Hcs).
        apply triple_eq; count_simpl; lia. }
  rewrite Hloop. apply triple_eq; lia.
Qed.

Definition scenario_a : string * entry := ("a.txt", RegularFile 10).
Definition scenario_sub : string * entry :=
  ("sub", Directory [("b.txt", RegularFile 20)]).

(** C3.  For [root/{a.txt (10 bytes), sub/{b.txt (20 bytes)}}], in whichever
    order the directory is listed, the scan is the folder [root] with the
    two children [a.txt] (a file of size 10) and [sub] (a folder with the
    one child [b.txt], a file of size 20), and the summary counts 2 folders,
    2 files and 30 bytes.  For every folder node the counts are: the root
    and each folder below it; each file below it; the sum of the sizes of
    the files below it. *)
Theorem summary_counts_folders_files_and_bytes (cwd : string) :
  (forall entries,
     entries = [scenario_a; scenario_sub] \/ entries = [scenario_sub; scenario_a] ->
     exists root,
       get_folder_structure cwd "root" (Directory entries) = (Ok root, [])
       /\ root = Folder "root" (posixpath.abspath cwd "root")
                   [File "a.txt" "root/a.txt" 10;
                    Folder "sub" (posixpath.abspath cwd "root/sub")
                      [File "b.txt" "root/sub/b.txt" 20]]
       /\ count_items root = (2, 2, 30))
  /\ (forall name path children,
        count_items (Folder name path children)
        = (1 + count is_folder (descendants (Folder name path children)),
           count is_file (descendants (Folder name path children)),
           total_of (map file_size
                  (filter is_file (descendants (Folder name path children)))))).
Proof.
  split.
  - intros entries Horder.
    assert (Hroot : posixpath.basename (posixpath.abspath cwd "root") = "root").
    { apply (basename_abspath_join cwd "" "root"). reflexivity. }
    assert (Hsub : posixpath.basename (posixpath.abspath cwd "root/sub") = "sub").
    { apply (basename_abspath_join cwd "root" "sub"). reflexivity. }
    eexists. split; [|split; [reflexivity|reflexivity]].
    destruct Horder as [-> | ->];
      rewrite get_folder_structure_Directory; cbv zeta;
      change (sorted (map fst _)) with ["a.txt"; "sub"];
      cbn [scan_items os.child os.lookup String.eqb Ascii.eqb Bool.eqb
             scenario_a scenario_sub fst snd os.isdir os.getsize];
      change (posixpath.join "root" "sub") with "root/sub";
      change (posixpath.join "root" "a.txt") with "root/a.txt";
      rewrite get_folder_structure_Directory; cbv zeta;
      change (sorted (map fst _)) with ["b.txt"];
      cbn [scan_items os.child os.lookup String.eqb Ascii.eqb Bool.eqb
             fst snd os.isdir os.getsize app];
      change (posixpath.join "root/sub" "b.txt") with "root/sub/b.txt";
      rewrite Hroot, Hsub; reflexivity.
  - intros name path children. apply count_items_descendants. reflexivity.
Qed.

(** ** The digest *)

Definition marker_line : string := "  ..." ++ newline.

(** C1, as stated: one marker per immediate child folder. *)
Definition one_marker_per_child_folder (root : Node) : Prop :=
  _structure_to_text root 0 0
  = ("📁 " ++ node_name root ++ "/" ++ newline)
      ++ String.concat ""
           (repeat marker_line (length (filter is_folder (node_children root)))).

Definition digest_example : Node :=
  Folder "root" "/home/u/root" [File "a.txt" "root/a.txt" 10].

(** The digest of a folder holding one file has a marker, and no child
    folder to account for it. *)
Lemma digest_marks_files_too : ~ one_marker_per_child_folder digest_example.
Proof. unfold one_marker_per_child_folder. vm_compute. discriminate. Qed.

(** The loop over the children in [_structure_to_text]. *)
Definition digest_children (children : list Node) (level max_depth : Z) : string :=
  (fix for_children (cs : list Node) : string :=
     match cs with
     | [] => ""
     | child :: cs' =>
         _structure_to_text child level max_depth ++ for_children cs'
     end) children.

Lemma _structure_to_text_Folder name path children level max_depth :
  _structure_to_text (Folder name path children) level max_depth
  = if max_depth <? level then str_mul "  " level ++ "..." ++ newline
    else (str_mul "  " level ++ "📁 " ++ name ++ "/" ++ newline)
           ++ digest_children children (level + 1) max_depth.
Proof. reflexivity. Qed.

Lemma _structure_to_text_beyond structure level max_depth :
  max_depth < level ->
  _structure_to_text structure level max_depth
  = str_mul "  " level ++ "..." ++ newline.
Proof.
  intros H. apply Z.ltb_lt in H.
  destruct structure; cbn [_structure_to_text]; rewrite H; reflexivity.
Qed.

Lemma concat_repeat_S (s : string) n :
  String.concat "" (repeat s (S n)) = s ++ String.concat "" (repeat s n).
Proof.
  destruct n; cbn [repeat String.concat];
    [symmetry; apply string_app_nil_r|reflexivity].
Qed.

Lemma digest_children_beyond children level max_depth :
  max_depth < level ->
  digest_children children level max_depth
  = String.concat ""
      (repeat (str_mul "  " level ++ "..." ++ newline) (length children)).
Proof.
  intros H. induction children as [|c cs IH]; [reflexivity|].
  cbn [length]. rewrite concat_repeat_S, <- IH.
  change (digest_children (c :: cs) level max_depth)
    with (_structure_to_text c level max_depth
            ++ digest_children cs level max_depth).
  rewrite _structure_to_text_beyond by exact H. reflexivity.
Qed.

(** C1, amended.  With [max_depth = 0] the digest of a folder is its own
    line followed by exactly one marker line per immediate child, file or
    folder alike, and nothing of what lies below the children. *)
Theorem digest_depth_zero_marks_every_child
    (name path : string) (children : list Node) :
  _structure_to_text (Folder name path children) 0 0
  = ("📁 " ++ name ++ "/" ++ newline)
      ++ String.concat "" (repeat marker_line (length children)).
Proof.
  rewrite _structure_to_text_Folder.
  change (0 <? 0) with false. cbv iota.
  rewrite digest_children_beyond by lia. reflexivity.
Qed.

(** ** The size formatter *)

(** The first [int] whose conversion to [float] overflows. *)
Definition float_overflow : Z := 2 ^ 1024 - 2 ^ 970.

(** How many times the loop divides: once per power of 1024 reached, and
    never more than up to GB. *)
Definition unit_index (n : Z) : nat :=
  if n <? 1024 then 0%nat
  else if n <? 1024 ^ 2 then 1%nat
  else if n <? 1024 ^ 3 then 2%nat
  else 3%nat.

(** [n] as a [float], divided [i] times by 1024. *)
Definition scaled (n : Z) (i : nat) : Q :=
  Nat.iter i (fun x => (x / 1024)%Q) (float_of_int n).

Lemma Qle_bool_div_1024 (k : Z) (x : Q) :
  Qle_bool (inject_Z k) (x / 1024) = Qle_bool (inject_Z (k * 1024)) x.
Proof.
  destruct x as [p q]. unfold Qle_bool, Qdiv, Qmult, Qinv, inject_Z.
  cbn [Qnum Qden]. rewrite Pos2Z.inj_mul. f_equal; ring.
Qed.

Lemma float_of_int_small (n : Z) :
  0 <= n < 2 ^ 53 -> float_of_int n = inject_Z n.
Proof.
  intros H. unfold float_of_int.
  destruct (Z.abs n <? 2 ^ 53) eqn:E; [reflexivity|].
  apply Z.ltb_ge in E. lia.
Qed.

Lemma Qle_bool_inject (a b : Z) : Qle_bool (inject_Z a) (inject_Z b) = (a <=? b).
Proof. unfold Qle_bool, inject_Z. cbn [Qnum Qden]. f_equal; ring. Qed.

(** Rounding to 53 bits does not take a large [int] below [2^52]. *)
Lemma float_of_int_large (n k : Z) :
  0 < n -> k <= n -> k <= 2 ^ 52 ->
  Qle_bool (inject_Z k) (float_of_int n) = true.
Proof.
  intros Hn Hk Hk52. unfold float_of_int.
  destruct (Z.abs n <? 2 ^ 53) eqn:E.
  - rewrite Qle_bool_inject. apply Z.leb_le. exact Hk.
  - apply Z.ltb_ge in E. rewrite Z.abs_eq in * by lia.
    set (e := Z.log2 n - 52).
    assert (He : 0 <= e).
    { subst e. assert (53 <= Z.log2 n); [|lia].
      apply Z.log2_le_pow2; lia. }
    assert (Hpow : 0 < 2 ^ e) by (apply Z.pow_pos_nonneg; lia).
    assert (Hq : 2 ^ 52 <= n / 2 ^ e).
    { apply Z.div_le_lower_bound; [exact Hpow|].
      rewrite Z.mul_comm, <- Z.pow_add_r by lia.
      replace (52 + e) with (Z.log2 n) by (subst e; lia).
      apply Z.log2_spec. lia. }
    rewrite Z.sgn_pos by lia.
    rewrite Qle_bool_inject. apply Z.leb_le.
    set (q := n / 2 ^ e) in *.
    destruct (_ || _); nia.
Qed.

Lemma float_of_int_ge (n k : Z) :
  0 < n -> k <= 2 ^ 52 ->
  Qle_bool (inject_Z k) (float_of_int n) = (k <=? n).
Proof.
  intros Hn Hk. destruct (k <=? n) eqn:E.
  - apply Z.leb_le in E. apply float_of_int_large; assumption.
  - apply Z.leb_gt in E. rewrite float_of_int_small by lia.
    rewrite Qle_bool_inject. apply Z.leb_gt. exact E.
Qed.

Lemma format_size_loop_result (n : Z) :
  0 < n ->
  format_size_loop (length size_names) (Int n) 0
  = (match unit_index n with
     | O => Int n
     | S _ => Float (scaled n (unit_index n))
     end, unit_index n).
Proof.
  intros Hn.
  assert (H1 : ge_1024 (Int n) = (1024 <=? n)) by reflexivity.
  assert (H2 : ge_1024 (div_1024 (Int n)) = (1024 ^ 2 <=? n)).
  { unfold div_1024, ge_1024, to_float. change 1024%Q with (inject_Z 1024).
    rewrite Qle_bool_div_1024. apply float_of_int_ge; lia. }
  assert (H3 : ge_1024 (div_1024 (div_1024 (Int n))) = (1024 ^ 3 <=? n)).
  { unfold div_1024, ge_1024, to_float. change 1024%Q with (inject_Z 1024).
    rewrite !Qle_bool_div_1024. apply float_of_int_ge; lia. }
  unfold unit_index.
  cbn [length size_names format_size_loop Nat.sub Nat.ltb Nat.leb Nat.add].
  rewrite H1, H2, H3. clear H1 H2 H3.
  destruct (n <? 1024) eqn:E1.
  { apply Z.ltb_lt in E1.
    destruct (1024 <=? n) eqn:E; [apply Z.leb_le in E; lia|reflexivity]. }
  apply Z.ltb_ge in E1.
  destruct (1024 <=? n) eqn:E; [clear E|apply Z.leb_gt in E; lia].
  destruct (n <? 1024 ^ 2) eqn:E2.
  { apply Z.ltb_lt in E2.
    destruct (1024 ^ 2 <=? n) eqn:E; [apply Z.leb_le in E; lia|reflexivity]. }
  apply Z.ltb_ge in E2.
  destruct (1024 ^ 2 <=? n) eqn:E; [clear E|apply Z.leb_gt in E; lia].
  destruct (n <? 1024 ^ 3) eqn:E3.
  { apply Z.ltb_lt in E3.
    destruct (1024 ^ 3 <=? n) eqn:E; [apply Z.leb_le in E; lia|reflexivity]. }
  apply Z.ltb_ge in E3.
  destruct (1024 ^ 3 <=? n) eqn:E; [|apply Z.leb_gt in E; lia].
  rewrite andb_false_r. reflexivity.
Qed.

Lemma scaled_nonneg (n : Z) (i : nat) :
  0 < n -> Qle_bool 0 (scaled n i) = true.
Proof.
  intros Hn. unfold scaled. induction i as [|i IH]; [|rewrite Nat.iter_succ].
  - change 0%Q with (inject_Z 0). apply float_of_int_large; lia.
  - change 0%Q with (inject_Z 0). rewrite Qle_bool_div_1024. exact IH.
Qed.

Lemma Qabs_nonneg (x : Q) : Qle_bool 0 x = true -> Qabs x = x.
Proof.
  destruct x as [p q]. unfold Qle_bool, Qabs. cbn [Qnum Qden].
  intros H. apply Z.leb_le in H. f_equal. apply Z.abs_eq. lia.
Qed.

Lemma round_half_even_nonneg (x : Q) :
  Qle_bool 0 x = true -> 0 <= round_half_even (x * 10).
Proof.
  intros H. apply Qle_bool_iff in H.
  assert (Hf : 0 <= Qfloor (x * 10)).
  { change 0 with (Qfloor 0). apply Qfloor_resp_le.
    apply Qmult_le_0_compat; [exact H|discriminate]. }
  unfold round_half_even.
  destruct (Qcompare _ _); [destruct (Z.even _)| |]; lia.
Qed.

Lemma str_of_digit_length (d : Z) :
  0 <= d <= 9 -> String.length (str_of_int d) = 1%nat.
Proof.
  intros H.
  assert (Hd : d = 0 \/ d = 1 \/ d = 2 \/ d = 3 \/ d = 4 \/ d = 5 \/ d = 6
               \/ d = 7 \/ d = 8 \/ d = 9) by lia.
  repeat (destruct Hd as [->|Hd]; [reflexivity|]). subst. reflexivity.
Qed.

Lemma _format_size_positive (n : Z) :
  0 < n ->
  _format_size n
  = format_1f (scaled n (unit_index n)) ++ " " ++ nth (unit_index n) size_names "".
Proof.
  intros Hn. unfold _format_size.
  destruct (n =? 0) eqn:E; [apply Z.eqb_eq in E; lia|].
  rewrite (format_size_loop_result n Hn).
  destruct (unit_index n) eqn:Ei; reflexivity.
Qed.

(** C4.  The four sample values; and for every positive byte count (below
    the overflow of [float]) the value is divided by 1024 once per power of
    1024 it reaches, at most three times, so that the unit stays GB from
    [1024^3] on and the number printed is 1024 or more from [1024^4] on; the
    text is the value rounded to one decimal, a space and the unit. *)
Theorem format_size_divides_up_to_GB (n : Z) :
  (_format_size 0 = "0 B" /\ _format_size 1024 = "1.0 KB"
   /\ _format_size 1536 = "1.5 KB" /\ _format_size 1073741824 = "1.0 GB")
  /\ (0 < n -> n < float_overflow ->
      let i := unit_index n in
      let x := scaled n i in
      let t := round_half_even (x * 10) in
      (i <= 3)%nat
      /\ 1024 ^ Z.of_nat i <= n
      /\ ((i < 3)%nat -> n < 1024 ^ (Z.of_nat i + 1))
      /\ (1024 ^ 4 <= n -> nth i size_names "" = "GB" /\ (1024 <= x)%Q)
      /\ In (nth i size_names "") ["B"; "KB"; "MB"; "GB"]
      /\ _format_size n
         = str_of_int (t / 10) ++ "." ++ str_of_int (t mod 10)
             ++ " " ++ nth i size_names ""
      /\ 0 <= t / 10
      /\ String.length (str_of_int (t mod 10)) = 1%nat).
Proof.
  split; [repeat split; vm_compute; reflexivity|].
  intros Hn _. cbv zeta.
  assert (Hi : (unit_index n <= 3)%nat
               /\ 1024 ^ Z.of_nat (unit_index n) <= n
               /\ ((unit_index n < 3)%nat -> n < 1024 ^ (Z.of_nat (unit_index n) + 1))
               /\ (1024 ^ 4 <= n -> unit_index n = 3%nat)).
  { unfold unit_index.
    destruct (n <? 1024) eqn:E1; [apply Z.ltb_lt in E1; cbn; lia|].
    apply Z.ltb_ge in E1.
    destruct (n <? 1024 ^ 2) eqn:E2; [apply Z.ltb_lt in E2; cbn; lia|].
    apply Z.ltb_ge in E2.
    destruct (n <? 1024 ^ 3) eqn:E3; [apply Z.ltb_lt in E3; cbn; lia|].
    apply Z.ltb_ge in E3. cbn. lia. }
  destruct Hi as (Hi3 & Hlow & Hhigh & Hgb).
  pose proof (scaled_nonneg n (unit_index n) Hn) as Hx.
  pose proof (round_half_even_nonneg _ Hx) as Ht.
  split; [exact Hi3|]. split; [exact Hlow|]. split; [exact Hhigh|].
  split.
  { intros Hbig. rewrite (Hgb Hbig). split; [reflexivity|].
    apply Qle_bool_iff. unfold scaled, Nat.iter. cbn [nat_rect].
    change 1024%Q with (inject_Z 1024).
    rewrite !Qle_bool_div_1024.
    apply float_of_int_large; lia. }
  split.
  { destruct (unit_index n) as [|[|[|[|k]]]]; cbn; auto; lia. }
  split.
  { rewrite (_format_size_positive n Hn). unfold format_1f.
    rewrite Hx, (Qabs_nonneg _ Hx). cbn [append].
    rewrite !string_app_assoc. reflexivity. }
  split.
  { apply Z.div_pos; lia. }
  apply str_of_digit_length.
  pose proof (Z.mod_pos_bound (round_half_even (scaled n (unit_index n) * 10)) 10).
  lia.
Qed.

Lemma format_size_divides_up_to_GB_witness :
  let n := 5 * 2 ^ 40 in
  let i := unit_index n in
  let x := scaled n i in
  let t := round_half_even (x * 10) in
  (i <= 3)%nat
  /\ 1024 ^ Z.of_nat i <= n
  /\ ((i < 3)%nat -> n < 1024 ^ (Z.of_nat i + 1))
  /\ (1024 ^ 4 <= n -> nth i size_names "" = "GB" /\ (1024 <= x)%Q)
  /\ In (nth i size_names "") ["B"; "KB"; "MB"; "GB"]
  /\ _format_size n
     = str_of_int (t / 10) ++ "." ++ str_of_int (t mod 10)
         ++ " " ++ nth i size_names ""
  /\ 0 <= t / 10
  /\ String.length (str_of_int (t mod 10)) = 1%nat.
Proof.
  apply (proj2 (format_size_divides_up_to_GB (5 * 2 ^ 40))).
  - reflexivity.
  - reflexivity.
Defined.

(** ** The renderer *)

(** *** Sorting is determined by the names *)

Lemma string_leb_trans (a b c : string) :
  String.leb a b = true -> String.leb b c = true -> String.leb a c = true.
Proof.
  unfold String.leb. revert b c.
  induction a as [|x a IH]; intros [|y b] [|z c]; cbn; try congruence.
  unfold Ascii.compare.
  destruct (N.compare_spec (N_of_ascii x) (N_of_ascii y)) as [Hxy|Hxy|Hxy];
    destruct (N.compare_spec (N_of_ascii y) (N_of_ascii z)) as [Hyz|Hyz|Hyz];
    destruct (N.compare_spec (N_of_ascii x) (N_of_ascii z)) as [Hxz|Hxz|Hxz];
    try congruence; try lia; try apply IH.
Qed.

Definition string_le (a b : string) : Prop := String.leb a b = true.

Lemma sorted_StronglySorted items : StronglySorted string_le (sorted items).
Proof.
  apply Sorted_StronglySorted; [|apply sorted_Sorted].
  intros a b c. apply string_leb_trans.
Qed.

Lemma StronglySorted_unique (l1 l2 : list string) :
  StronglySorted string_le l1 -> StronglySorted string_le l2 ->
  Permutation l1 l2 -> l1 = l2.
Proof.
  revert l2. induction l1 as [|a l1 IH]; intros l2 H1 H2 Hp.
  - apply Permutation_nil in Hp. congruence.
  - destruct l2 as [|b l2];
      [apply Permutation_sym, Permutation_nil in Hp; discriminate|].
    inversion H1 as [|? ? Hs1 Ha]; subst.
    inversion H2 as [|? ? Hs2 Hb]; subst.
    assert (Hab : a = b).
    { assert (Hina : In a (b :: l2))
        by (eapply Permutation_in; [exact Hp|left; reflexivity]).
      assert (Hinb : In b (a :: l1))
        by (eapply Permutation_in;
            [apply Permutation_sym; exact Hp|left; reflexivity]).
      destruct Hina as [->|Hina]; [reflexivity|].
      destruct Hinb as [->|Hinb]; [reflexivity|].
      rewrite Forall_forall in Ha, Hb.
      apply String.leb_antisym; [apply Ha, Hinb|apply Hb, Hina]. }
    subst b. f_equal. apply IH; [assumption..|].
    eapply Permutation_cons_inv. exact Hp.
Qed.

Lemma filter_Permutation {A} (f : A -> bool) (l l' : list A) :
  Permutation l l' -> Permutation (filter f l) (filter f l').
Proof.
  induction 1 as [|x l l' _ IH|x y l|l l' l'' _ IH1 _ IH2]; cbn.
  - constructor.
  - destruct (f x); [constructor|]; exact IH.
  - destruct (f x), (f y); try reflexivity. constructor.
  - etransitivity; eassumption.
Qed.

Lemma filter_StronglySorted {A} (R : A -> A -> Prop) (f : A -> bool) l :
  StronglySorted R l -> StronglySorted R (filter f l).
Proof.
  induction 1 as [|a l _ IH Ha]; cbn; [constructor|].
  destruct (f a); [|exact IH]. constructor; [exact IH|].
  rewrite Forall_forall in *. intros x Hx.
  apply filter_In in Hx as [Hx _]. auto.
Qed.

(** Sorting once and then selecting gives what selecting and then sorting
    gives. *)
Lemma filter_sorted (f : string -> bool) (items : list string) :
  filter f (sorted items) = sorted (filter f items).
Proof.
  apply StronglySorted_unique.
  - apply filter_StronglySorted, sorted_StronglySorted.
  - apply sorted_StronglySorted.
  - etransitivity.
    + apply filter_Permutation, Permutation_sym, StringSort.Permuted_sort.
    + apply StringSort.Permuted_sort.
Qed.

(** *** The rendering the specification describes *)

Section RenderLevel.

Variables (prefix : string) (show_size : bool) (entries : list (string * entry)).

(** [below item new_prefix]: the lines printed for what is inside the
    folder [item]. *)
Variable below : string -> string -> output.




(** The folders, sorted, then the files, sorted. *)
Definition folders_of : list string :=
  sorted (filter (fun item => os.isdir (os.lookup entries item)) (map fst entries)).

Definition files_of : list string :=
  sorted (filter (fun item => os.isfile (os.lookup entries item)) (map fst entries)).


End RenderLevel.

Lemma existsb_eqb_In (item : string) (l : list string) :
  existsb (String.eqb item) l = true <-> In item l.
Proof.
  rewrite existsb_exists. split.
  - intros (x & Hx & E). apply String.eqb_eq in E. subst. exact Hx.
  - intros H. exists item. split; [exact H|apply String.eqb_refl].
Qed.





(** The scenario tree, rendered with sizes. *)
Example print_tree_scenario :
  _print_tree "root" "" true (Directory [scenario_a; scenario_sub])
  = ["├── 📁 sub/"; "│   └── 📄 b.txt (20.0 B)"; "└── 📄 a.txt (10.0 B)"].
Proof. vm_compute. reflexivity. Qed.

(** ** The remote analysis *)

(** The content of the first choice's message, when the body has that
    shape: an object whose [choices] is a list starting with an object whose
    [message] is an object with a [content]. *)
Definition first_choice_content (body : json) : option json :=
  match body with
  | JDict items =>
      match dict_get items "choices" with
      | Some (JList (JDict first :: _)) =>
          match dict_get first "message" with
          | Some (JDict message) => dict_get message "content"
          | _ => None
          end
      | _ => None
      end
  | _ => None
  end.

(** The chain of subscripts the agent applies to the body. *)
Definition subscript_chain (body : json) : result json :=
  choices <- getitem_str body "choices" ;;
  first <- getitem_0 choices ;;
  message <- getitem_str first "message" ;;
  answer <- getitem_str message "content" ;;
  Ok answer.

Lemma subscript_chain_shape body :
  match first_choice_content body with
  | Some content => subscript_chain body = Ok content
  | None =>
      exists e, subscript_chain body = Raise e /\ is_RequestException e = false
  end.
Proof.
  unfold subscript_chain, first_choice_content.
  destruct body as [| | | | |items];
    try (eexists; split; reflexivity).
  cbn [getitem_str bind].
  destruct (dict_get items "choices") as [choices|];
    [|eexists; split; reflexivity].
  cbn [bind].
  destruct choices as [| | |s|l|d]; try (eexists; split; reflexivity).
  - destruct s; eexists; split; reflexivity.
  - destruct l as [|first rest]; [eexists; split; reflexivity|].
    cbn [getitem_0 bind].
    destruct first as [| | | | |first]; try (eexists; split; reflexivity).
    cbn [getitem_str bind].
    destruct (dict_get first "message") as [message|];
      [|eexists; split; reflexivity].
    cbn [bind].
    destruct message as [| | | | |message]; try (eexists; split; reflexivity).
    cbn [getitem_str bind].
    destruct (dict_get message "content"); [reflexivity|].
    eexists; split; reflexivity.
Qed.

Section RemoteAnalysisProperties.

Variable cwd : string.
Variable requests_post :
  string -> list (string * string) -> chat_request -> Z -> result response.
Variable self : FileStructureAgent.

(** The answer when the request raises [e]. *)
Definition error_answer (e : exn) : json :=
  if is_RequestException e then JStr ("❌ API调用失败: " ++ exn_str e)
  else JStr ("❌ 处理响应时出错: " ++ exn_str e).

Lemma analyze_with_ai_exists folder_path target question max_depth :
  os.exists_ target = true ->
  exists structure out,
    get_folder_structure cwd folder_path target = (Ok structure, out)
    /\ analyze_with_ai cwd requests_post self folder_path target question max_depth
       = (match request_answer requests_post self
                  (build_prompt folder_path
                     (_structure_to_text structure 0 max_depth) question) with
          | Ok answer => Ok answer
          | Raise e => Ok (error_answer e)
          end,
          ("🤖 正在使用AI分析文件结构..." :: out)).
Proof.
  intros Hex.
  destruct (get_folder_structure_exists cwd folder_path target Hex)
    as (structure & out & Hscan).
  exists structure, out. split; [exact Hscan|].
  unfold analyze_with_ai, error_answer. rewrite Hscan.
  destruct (request_answer _ _ _) as [answer|e]; [reflexivity|].
  destruct (is_RequestException e); reflexivity.
Qed.

(** The reply to the request the agent sends for [prompt]: what
    [requests.post] returns or raises for the agent's URL, headers and body
    and the timeout of 60. *)
Definition reply_to (prompt : string) : result response :=
  requests_post (api_url self)
    [("Content-Type", "application/json");
     ("Authorization", "Bearer " ++ api_key self)]
    {| model := "deepseek-chat";
       messages :=
         [("system",
           "你是一个专业的文件结构分析助手。请根据用户提供的文件结构信息，分析项目类型、结构特点，并回答用户的问题。");
          ("user", prompt)];
       stream := false;
       temperature := 7 # 10 |} 60.

(** What the [try] block gives, by outcome of the request. *)
Lemma request_answer_outcome prompt :
  match reply_to prompt with
  | Raise e => request_answer requests_post self prompt = Raise e
  | Ok r =>
      match raise_for_status r with
      | Raise e => request_answer requests_post self prompt = Raise e
      | Ok _ =>
          match json_body r with
          | Raise e => request_answer requests_post self prompt = Raise e
          | Ok body => request_answer requests_post self prompt = subscript_chain body
          end
      end
  end.
Proof.
  unfold request_answer, reply_to.
  destruct (requests_post _ _ _ _) as [r|e]; [|reflexivity].
  cbn [bind]. destruct (raise_for_status r) as [[]|e]; [|reflexivity].
  cbn [bind]. destruct (json_body r) as [body|e]; reflexivity.
Qed.

End RemoteAnalysisProperties.

(** An HTTP error status: 4xx or 5xx. *)
Definition is_error_status (status : Z) : bool :=
  (400 <=? status) && (status <? 600).

(** The text of the [HTTPError] that [raise_for_status] raises. *)
Definition http_error_text (r : response) : string :=
  str_of_int (status_code r)
    ++ (if status_code r <? 500 then " Client Error: " else " Server Error: ")
    ++ reason r ++ " for url: " ++ url r.

Lemma raise_for_status_error r :
  is_error_status (status_code r) = true ->
  raise_for_status r = Raise (Exn HTTPError (http_error_text r)).
Proof.
  unfold is_error_status, raise_for_status, http_error_text. intros H.
  apply andb_true_iff in H as [H4 H6].
  rewrite H4. cbn [andb].
  destruct (status_code r <? 500) eqn:H5; [reflexivity|].
  assert (H5' : (500 <=? status_code r) = true).
  { apply Z.leb_le. apply Z.ltb_ge in H5. exact H5. }
  rewrite H5', H6. reflexivity.
Qed.

Lemma raise_for_status_ok r :
  is_error_status (status_code r) = false -> raise_for_status r = Ok tt.
Proof.
  unfold is_error_status, raise_for_status. intros H.
  destruct (400 <=? status_code r) eqn:H4; cbn [andb] in *.
  - rewrite H, andb_false_r.
    destruct (status_code r <? 500) eqn:H5; [|reflexivity].
    apply Z.ltb_lt in H5. apply Z.ltb_ge in H. lia.
  - destruct (500 <=? status_code r) eqn:H5; [|reflexivity].
    apply Z.leb_le in H5. apply Z.leb_gt in H4. lia.
Qed.

Definition offline :
  string -> list (string * string) -> chat_request -> Z -> result response :=
  fun _ _ _ _ => Raise (Exn ConnectionError "Connection refused").

Definition some_agent : FileStructureAgent :=
  {| api_key := "sk-test";
     api_url := "https://api.deepseek.com/v1/chat/completions" |}.

(** A reply with the content of a first choice, under any status. *)
Definition reply_with (status : Z) (phrase content : string) :
  string -> list (string * string) -> chat_request -> Z -> result response :=
  fun u _ _ _ =>
    Ok {| status_code := status; reason := phrase; url := u;
          json_body :=
            Ok (JDict [("id", JStr "1");
                       ("choices",
                        JList [JDict [("index", JInt 0);
                                      ("message",
                                       JDict [("role", JStr "assistant");
                                              ("content", JStr content)])]])]) |}.

Definition answering (content : string) :
  string -> list (string * string) -> chat_request -> Z -> result response :=
  reply_with 200 "OK" content.

(** A successful status of HTTP: 2xx. *)
Definition is_success_status (status : Z) : bool :=
  (200 <=? status) && (status <? 300).

(** C7, as stated, fails on a status that is no success and that
    [raise_for_status] lets pass, such as 304: with a body of the expected
    shape the content is returned as the answer, not an error string. *)
Lemma unsuccessful_status_passes_as_answer :
  is_success_status 304 = false
  /\ analyze_with_ai "/home/u" (reply_with 304 "Not Modified" "a small project")
       some_agent "root" sorted_example "what is it?" 3
     = (Ok (JStr "a small project"), ["🤖 正在使用AI分析文件结构..."]).
Proof. split; vm_compute; reflexivity. Qed.

(** C7, amended.  On a path that exists [analyze_with_ai] does not raise,
    and its answer is decided by the reply to the one request it sends.  It
    is an error string when the request raises (network failure, timeout),
    when the status is an HTTP error status (400 to 599: the text of the
    [HTTPError]), when the body cannot be decoded, and when the body has no
    [choices[0].message.content]; otherwise it is that content. *)
Theorem analyze_reports_failures_as_answers
    (cwd : string)
    (requests_post :
       string -> list (string * string) -> chat_request -> Z -> result response)
    (self : FileStructureAgent) (folder_path : string) (target : entry)
    (question : string) (max_depth : Z) :
  os.exists_ target = true ->
  exists structure out answer,
    get_folder_structure cwd folder_path target = (Ok structure, out)
    /\ analyze_with_ai cwd requests_post self folder_path target question max_depth
       = (Ok answer, "🤖 正在使用AI分析文件结构..." :: out)
    /\ match reply_to requests_post self
               (build_prompt folder_path
                  (_structure_to_text structure 0 max_depth) question) with
       | Raise e => answer = error_answer e
       | Ok r =>
           if is_error_status (status_code r) then
             answer = JStr ("❌ API调用失败: " ++ http_error_text r)
           else
             match json_body r with
             | Raise e => answer = error_answer e
             | Ok body =>
                 match first_choice_content body with
                 | Some content => answer = content
                 | None =>
                     exists e,
                       subscript_chain body = Raise e
                       /\ answer = JStr ("❌ 处理响应时出错: " ++ exn_str e)
                 end
             end
       end.
Proof.
  intros Hex.
  destruct (analyze_with_ai_exists cwd requests_post self folder_path target
              question max_depth Hex) as (structure & out & Hscan & Hrun).
  set (prompt := build_prompt folder_path
                   (_structure_to_text structure 0 max_depth) question) in *.
  pose proof (request_answer_outcome requests_post self prompt) as Hout.
  exists structure, out,
    (match request_answer requests_post self prompt with
     | Ok answer => answer
     | Raise e => error_answer e
     end).
  split; [exact Hscan|]. split.
  - rewrite Hrun. destruct (request_answer requests_post self prompt);
      reflexivity.
  - fold prompt. revert Hout.
    destruct (reply_to requests_post self prompt) as [r|e];
      [|cbv iota; intros ->; reflexivity].
    destruct (is_error_status (status_code r)) eqn:Hstatus.
    + rewrite (raise_for_status_error r Hstatus). cbv iota.
      intros ->. reflexivity.
    + rewrite (raise_for_status_ok r Hstatus). cbv iota.
      destruct (json_body r) as [body|e]; [|intros ->; reflexivity].
      intros ->. pose proof (subscript_chain_shape body) as Hshape.
      destruct (first_choice_content body) as [content|].
      * rewrite Hshape. reflexivity.
      * destruct Hshape as (e & He & Hcls). exists e.
        split; [exact He|]. rewrite He. unfold error_answer.
        rewrite Hcls. reflexivity.
Qed.

(** The service answers 503 to every request, without a body that can be
    decoded. *)
Definition unavailable :
  string -> list (string * string) -> chat_request -> Z -> result response :=
  fun u _ _ _ =>
    Ok {| status_code := 503; reason := "Service Unavailable"; url := u;
          json_body :=
            Raise (Exn InvalidJSONError
                     "Expecting value: line 1 column 1 (char 0)") |}.

Lemma analyze_reports_failures_as_answers_witness :
  analyze_with_ai "/home/u" unavailable some_agent "root" sorted_example
    "what is it?" 3
  = (Ok (JStr "❌ API调用失败: 503 Server Error: Service Unavailable for url: https://api.deepseek.com/v1/chat/completions"),
     ["🤖 正在使用AI分析文件结构..."]).
Proof.
  destruct (analyze_reports_failures_as_answers "/home/u" unavailable
              some_agent "root" sorted_example "what is it?" 3 eq_refl)
    as (structure & out & answer & Hscan & Hrun & Hcase).
  vm_compute in Hscan. inversion Hscan; subst structure out.
  rewrite Hrun. unfold reply_to, unavailable in Hcase.
  cbv beta iota in Hcase. rewrite Hcase. reflexivity.
Defined.

(** ** Writing the tree and reading it back *)

Section JsonInduction.

Variable P : json -> Prop.
Hypothesis P_null : P JNull.
Hypothesis P_bool : forall b, P (JBool b).
Hypothesis P_int : forall n, P (JInt n).
Hypothesis P_str : forall s, P (JStr s).
Hypothesis P_list : forall items, Forall P items -> P (JList items).
Hypothesis P_dict :
  forall items, Forall (fun kv => P (snd kv)) items -> P (JDict items).

Fixpoint json_ind (obj : json) : P obj :=
  match obj with
  | JNull => P_null
  | JBool b => P_bool b
  | JInt n => P_int n
  | JStr s => P_str s
  | JList items =>
      P_list items
        ((fix all (xs : list json) : Forall P xs :=
            match xs with
            | [] => Forall_nil _
            | x :: xs' => Forall_cons x (json_ind x) (all xs')
            end) items)
  | JDict items =>
      P_dict items
        ((fix all (kvs : list (string * json))
            : Forall (fun kv => P (snd kv)) kvs :=
            match kvs with
            | [] => Forall_nil _
            | kv :: kvs' => Forall_cons kv (json_ind (snd kv)) (all kvs')
            end) items)
  end.

End JsonInduction.

(** *** Strings *)

Lemma string_length_app (a b : string) :
  String.length (a ++ b) = (String.length a + String.length b)%nat.
Proof. induction a; simpl; congruence. Qed.

(** Every escaped character is read back as itself. *)
Lemma scan_string_escape_char (c : ascii) (tail : string) :
  scan_string (escape_char c ++ tail)
  = match scan_string tail with
    | Some (t, rest) => Some (String c t, rest)
    | None => None
    end.
Proof.
  destruct c as [[] [] [] [] [] [] [] []]; cbn;
    destruct (scan_string tail) as [[t rest]|]; reflexivity.
Qed.

Lemma scan_string_escape (s rest : string) :
  scan_string (escape s ++ dquote ++ rest) = Some (s, rest).
Proof.
  induction s as [|c s IH]; [reflexivity|].
  cbn [escape]. rewrite string_app_assoc, scan_string_escape_char, IH.
  reflexivity.
Qed.

Lemma scan_string_encode_str (s rest : string) :
  exists tail,
    encode_str s ++ rest = String "034" tail
    /\ scan_string tail = Some (s, rest).
Proof.
  exists (escape s ++ dquote ++ rest). split.
  - unfold encode_str. cbn [dquote append].
    rewrite string_app_assoc. reflexivity.
  - apply scan_string_escape.
Qed.

(** *** Integers *)

(** What may follow a number: nothing, or a character that is neither a
    digit nor the start of a fraction or an exponent. *)
Definition ends_number (rest : string) : bool :=
  match rest with
  | EmptyString => true
  | String c _ => negb (is_digit c) && negb (starts_fraction rest)
  end.

Lemma scan_digits_uint (d : Decimal.uint) (acc : positive) (rest : string) :
  ends_number rest = true ->
  scan_digits (NilEmpty.string_of_uint d ++ rest) (Z.pos acc)
  = (Z.pos (Pos.of_uint_acc d acc), rest).
Proof.
  intros Hrest. revert acc.
  induction d as [|d IH|d IH|d IH|d IH|d IH|d IH|d IH|d IH|d IH|d IH];
    intros acc;
    [|cbn [NilEmpty.string_of_uint append scan_digits Pos.of_uint_acc];
      change (is_digit _) with true; cbv iota;
      match goal with
      | |- context [digit_value ?c] =>
          let v := eval vm_compute in (digit_value c) in
          change (digit_value c) with v
      end;
      match goal with
      | |- scan_digits _ ?a = (Z.pos (Pos.of_uint_acc _ ?b), _) =>
          replace a with (Z.pos b) by lia
      end;
      apply IH..].
  cbn [NilEmpty.string_of_uint append].
  destruct rest as [|c r]; [reflexivity|].
  cbn [ends_number] in Hrest. apply andb_true_iff in Hrest as [Hd _].
  apply negb_true_iff in Hd. cbn [scan_digits]. rewrite Hd. reflexivity.
Qed.

Lemma nzhead_not_D0 (d x : Decimal.uint) : Decimal.nzhead d <> Decimal.D0 x.
Proof. induction d; cbn; try discriminate. exact IHd. Qed.

(** The decimal writing of a positive number does not start with 0. *)
Lemma to_uint_head (p : positive) (x : Decimal.uint) :
  Pos.to_uint p <> Decimal.D0 x.
Proof.
  intros H.
  pose proof (DecimalPos.Unsigned.to_of (Pos.to_uint p)) as Hnorm.
  rewrite DecimalPos.Unsigned.of_to in Hnorm. cbn [N.to_uint] in Hnorm.
  rewrite H in Hnorm. unfold Decimal.unorm in Hnorm. cbn [Decimal.nzhead] in Hnorm.
  destruct (Decimal.nzhead x) eqn:E;
    try (symmetry in Hnorm; rewrite <- E in Hnorm;
         exact (nzhead_not_D0 _ _ Hnorm)).
  inversion Hnorm; subst x.
  exact (DecimalPos.Unsigned.to_uint_nonzero p H).
Qed.

Lemma scan_nat_pos (p : positive) (rest : string) :
  ends_number rest = true ->
  scan_nat (NilZero.string_of_uint (Pos.to_uint p) ++ rest)
  = Some (Z.pos p, rest).
Proof.
  intros Hrest.
  pose proof (DecimalPos.Unsigned.of_to p) as Hof.
  pose proof (to_uint_head p) as Hhead.
  destruct (Pos.to_uint p) as [|d|d|d|d|d|d|d|d|d|d];
    [discriminate Hof|exfalso; exact (Hhead d eq_refl)|..];
    cbn [Pos.of_uint] in Hof; inversion Hof as [Hp];
    cbn [NilZero.string_of_uint NilEmpty.string_of_uint append scan_nat];
    change (Ascii.eqb _ "0") with false; change (is_digit _) with true;
    cbv iota;
    match goal with
    | |- Some (scan_digits _ ?a) = _ =>
        let v := eval vm_compute in a in change a with v
    end;
    rewrite scan_digits_uint by exact Hrest; reflexivity.
Qed.

Lemma ends_number_fraction rest :
  ends_number rest = true -> starts_fraction rest = false.
Proof.
  destruct rest as [|c r]; [reflexivity|].
  cbn [ends_number]. intros H. apply andb_true_iff in H as [_ H].
  apply negb_true_iff in H. exact H.
Qed.

Lemma scan_int_str_of_int (n : Z) (rest : string) :
  ends_number rest = true ->
  scan_int (str_of_int n ++ rest) = Some (n, rest).
Proof.
  intros Hrest. pose proof (ends_number_fraction rest Hrest) as Hfrac.
  unfold str_of_int. destruct n as [|p|p]; cbn [Z.to_int NilZero.string_of_int].
  - cbn. rewrite Hfrac. reflexivity.
  - pose proof (scan_nat_pos p rest Hrest) as Hnat.
    unfold scan_int.
    destruct (NilZero.string_of_uint (Pos.to_uint p) ++ rest) as [|c r] eqn:E;
      [discriminate Hnat|].
    destruct (Ascii.eqb c "-") eqn:Ec.
    + apply Ascii.eqb_eq in Ec. subst c. discriminate Hnat.
    + rewrite Hnat, Hfrac. reflexivity.
  - cbn [append]. unfold scan_int. cbn [Ascii.eqb Bool.eqb].
    rewrite (scan_nat_pos p rest Hrest), Hfrac. reflexivity.
Qed.

(** The first character of a number is a digit or the minus sign. *)
Lemma str_of_int_head (n : Z) :
  exists c r,
    str_of_int n = String c r /\ (is_digit c = true \/ c = "-"%char).
Proof.
  unfold str_of_int. destruct n as [|p|p]; cbn [Z.to_int NilZero.string_of_int].
  - exists "0"%char, "". auto.
  - pose proof (DecimalPos.Unsigned.to_uint_nonnil p) as Hnil.
    destruct (Pos.to_uint p); [contradiction|..];
      cbn [NilZero.string_of_uint NilEmpty.string_of_uint];
      eexists _, _; (split; [reflexivity|left; reflexivity]).
  - eexists _, _. split; [reflexivity|right; reflexivity].
Qed.

(** *** White space and the first character of a value *)

Lemma number_char (c : ascii) :
  is_digit c = true \/ c = "-"%char ->
  is_ws c = false /\ Ascii.eqb c "]" = false /\ Ascii.eqb c "034" = false
  /\ Ascii.eqb c "[" = false /\ Ascii.eqb c "{" = false
  /\ Ascii.eqb c "n" = false /\ Ascii.eqb c "t" = false
  /\ Ascii.eqb c "f" = false.
Proof.
  destruct c as [[] [] [] [] [] [] [] []]; vm_compute;
    intros [H|H]; try discriminate; repeat split; reflexivity.
Qed.

Lemma encode_head (obj : json) (level : nat) :
  exists c r,
    encode obj level = String c r
    /\ is_ws c = false /\ Ascii.eqb c "]" = false.
Proof.
  destruct obj as [|[]|n|s|[|x xs]|[|[k x] kvs]];
    try (eexists _, _; split; [reflexivity|split; reflexivity]).
  destruct (str_of_int_head n) as (c & r & E & Hc).
  exists c, r. cbn [encode]. split; [exact E|].
  destruct (number_char c Hc) as (H1 & H2 & _). auto.
Qed.

Lemma skip_ws_start (c : ascii) (r : string) :
  is_ws c = false -> skip_ws (String c r) = String c r.
Proof. intros H. cbn [skip_ws]. rewrite H. reflexivity. Qed.

Lemma skip_ws_encode (obj : json) (level : nat) (rest : string) :
  skip_ws (encode obj level ++ rest) = encode obj level ++ rest.
Proof.
  destruct (encode_head obj level) as (c & r & E & Hws & _).
  rewrite E. cbn [append]. apply skip_ws_start, Hws.
Qed.

Lemma skip_ws_spaces (k : nat) (s : string) :
  skip_ws (String.concat "" (repeat "  " k) ++ s) = skip_ws s.
Proof.
  induction k as [|k IH]; [reflexivity|].
  rewrite concat_repeat_S, string_app_assoc. cbn [append skip_ws]. exact IH.
Qed.

Lemma skip_ws_newline_indent (level : nat) (s : string) :
  skip_ws (newline_indent level ++ s) = skip_ws s.
Proof.
  unfold newline_indent. rewrite string_app_assoc.
  cbn [newline append skip_ws]. apply skip_ws_spaces.
Qed.

Lemma newline_indent_length (level : nat) :
  (1 <= String.length (newline_indent level))%nat.
Proof. unfold newline_indent. cbn. lia. Qed.

(** *** The loops of the encoder *)

Definition more_items (level : nat) (xs : list json) : string :=
  (fix more (xs : list json) : string :=
     match xs with
     | [] => newline_indent level ++ "]"
     | y :: ys =>
         "," ++ newline_indent (S level) ++ encode y (S level) ++ more ys
     end) xs.

Definition more_members (level : nat) (kvs : list (string * json)) : string :=
  (fix more (kvs : list (string * json)) : string :=
     match kvs with
     | [] => newline_indent level ++ "}"
     | (k', y) :: kvs' =>
         "," ++ newline_indent (S level) ++ encode_str k' ++ ": "
           ++ encode y (S level) ++ more kvs'
     end) kvs.

Lemma encode_JList_cons x xs level :
  encode (JList (x :: xs)) level
  = "[" ++ newline_indent (S level) ++ encode x (S level) ++ more_items level xs.
Proof. reflexivity. Qed.

Lemma encode_JDict_cons k x kvs level :
  encode (JDict ((k, x) :: kvs)) level
  = "{" ++ newline_indent (S level) ++ encode_str k ++ ": "
      ++ encode x (S level) ++ more_members level kvs.
Proof. reflexivity. Qed.

Lemma more_items_cons level y ys :
  more_items level (y :: ys)
  = "," ++ newline_indent (S level) ++ encode y (S level) ++ more_items level ys.
Proof. reflexivity. Qed.

Lemma more_members_cons level k y kvs :
  more_members level ((k, y) :: kvs)
  = "," ++ newline_indent (S level) ++ encode_str k ++ ": "
      ++ encode y (S level) ++ more_members level kvs.
Proof. reflexivity. Qed.

Lemma ends_number_more_items level xs rest :
  ends_number (more_items level xs ++ rest) = true.
Proof. destruct xs; reflexivity. Qed.

Lemma ends_number_more_members level kvs rest :
  ends_number (more_members level kvs ++ rest) = true.
Proof. destruct kvs as [|[k y] kvs]; reflexivity. Qed.

(** *** Reading back what the encoder wrote *)

(** [obj] is read back from its text, whatever follows it. *)
Definition parses (obj : json) : Prop :=
  forall level rest fuel,
    ends_number rest = true ->
    (String.length (encode obj level) < fuel)%nat ->
    parse_value fuel (encode obj level ++ rest) = Some (obj, rest).

Lemma parse_items_encode level :
  forall xs x fuel rest,
    Forall parses (x :: xs) ->
    (String.length (encode x (S level)) + String.length (more_items level xs) + 2
     <= fuel)%nat ->
    parse_items fuel (encode x (S level) ++ more_items level xs ++ rest)
    = Some (x :: xs, rest).
Proof.
  induction xs as [|y ys IH]; intros x fuel rest Hall Hfuel;
    inversion Hall as [|? ? Hx Hxs]; subst;
    (destruct fuel as [|fuel]; [lia|]); cbn [parse_items].
  - rewrite (Hx (S level)) by (try apply ends_number_more_items; lia).
    unfold more_items. rewrite string_app_assoc, skip_ws_newline_indent.
    reflexivity.
  - rewrite (Hx (S level)) by (try apply ends_number_more_items; lia).
    rewrite more_items_cons in *. rewrite !string_app_assoc.
    cbn [append skip_ws is_ws Ascii.eqb Bool.eqb orb].
    rewrite skip_ws_newline_indent, skip_ws_encode.
    rewrite IH; [reflexivity|exact Hxs|].
    rewrite !string_length_app in Hfuel. cbn [String.length] in Hfuel.
    pose proof (newline_indent_length (S level)). lia.
Qed.

Lemma encode_str_length (s : string) : (2 <= String.length (encode_str s))%nat.
Proof. unfold encode_str. rewrite !string_length_app. cbn. lia. Qed.

Lemma skip_ws_encode_str (s rest : string) :
  skip_ws (encode_str s ++ rest) = encode_str s ++ rest.
Proof. reflexivity. Qed.

Lemma parse_members_encode level :
  forall kvs k x fuel rest,
    Forall (fun kv => parses (snd kv)) ((k, x) :: kvs) ->
    (String.length (encode x (S level))
     + String.length (more_members level kvs) + 2 <= fuel)%nat ->
    parse_members fuel
      (encode_str k ++ ": " ++ encode x (S level)
         ++ more_members level kvs ++ rest)
    = Some ((k, x) :: kvs, rest).
Proof.
  induction kvs as [|[k' y] kvs IH]; intros k x fuel rest Hall Hfuel;
    inversion Hall as [|? ? Hx Hxs]; subst; cbn [snd] in Hx;
    (destruct fuel as [|fuel]; [lia|]).
  - destruct (scan_string_encode_str k
                (": " ++ encode x (S level) ++ more_members level [] ++ rest))
      as (tail0 & Etail0 & Hscan0).
    rewrite Etail0. cbn [parse_members Ascii.eqb Bool.eqb]. rewrite Hscan0.
    cbn [append skip_ws is_ws Ascii.eqb Bool.eqb orb].
    rewrite skip_ws_encode.
    rewrite (Hx (S level)) by (try apply ends_number_more_members; lia).
    unfold more_members. rewrite string_app_assoc, skip_ws_newline_indent.
    reflexivity.
  - destruct (scan_string_encode_str k
                (": " ++ encode x (S level)
                   ++ more_members level ((k', y) :: kvs) ++ rest))
      as (tail1 & Etail1 & Hscan1).
    rewrite Etail1. cbn [parse_members Ascii.eqb Bool.eqb]. rewrite Hscan1.
    cbn [append skip_ws is_ws Ascii.eqb Bool.eqb orb].
    rewrite skip_ws_encode.
    rewrite (Hx (S level)) by (try apply ends_number_more_members; lia).
    rewrite more_members_cons in *. rewrite !string_app_assoc.
    cbn [append skip_ws is_ws Ascii.eqb Bool.eqb orb].
    rewrite skip_ws_newline_indent.
    rewrite skip_ws_encode_str.
    assert (Hfuel' :
      (String.length (encode y (S level))
       + String.length (more_members level kvs) + 2 <= fuel)%nat).
    { rewrite !string_length_app in Hfuel. cbn [String.length] in Hfuel.
      pose proof (newline_indent_length (S level)).
      pose proof (encode_str_length k'). lia. }
    pose proof (IH k' y fuel rest Hxs Hfuel') as Hrec.
    cbn [append] in Hrec. rewrite Hrec. reflexivity.
Qed.

Lemma dict_set_fresh (items : list (string * json)) (key : string) (value : json) :
  ~ In key (map fst items) ->
  dict_set items key value = (items ++ [(key, value)])%list.
Proof.
  induction items as [|[k v] items IH]; cbn; intros Hfresh; [reflexivity|].
  destruct (String.eqb k key) eqn:E.
  - apply String.eqb_eq in E. tauto.
  - rewrite IH by tauto. reflexivity.
Qed.

Lemma dict_of_pairs_NoDup (pairs : list (string * json)) :
  NoDup (map fst pairs) -> dict_of_pairs pairs = pairs.
Proof.
  unfold dict_of_pairs.
  assert (H : forall acc,
             NoDup (map fst (acc ++ pairs)%list) ->
             fold_left (fun d kv => dict_set d (fst kv) (snd kv)) pairs acc
             = (acc ++ pairs)%list).
  { induction pairs as [|[k v] pairs IH]; intros acc Hnd; cbn [fold_left].
    - rewrite app_nil_r. reflexivity.
    - cbn [fst snd]. rewrite dict_set_fresh.
      + rewrite IH; rewrite <- app_assoc; [reflexivity|exact Hnd].
      + rewrite map_app in Hnd. cbn [map fst] in Hnd.
        apply NoDup_remove_2 in Hnd. intros Hin. apply Hnd.
        apply in_or_app. left. exact Hin. }
  intros Hnd. exact (H [] Hnd).
Qed.

(** Objects whose keys are distinct, at every depth: the dicts of Python. *)
Unset Elimination Schemes.
Inductive distinct_keys : json -> Prop :=
| distinct_keys_null : distinct_keys JNull
| distinct_keys_bool b : distinct_keys (JBool b)
| distinct_keys_int n : distinct_keys (JInt n)
| distinct_keys_str s : distinct_keys (JStr s)
| distinct_keys_list items :
    Forall distinct_keys items -> distinct_keys (JList items)
| distinct_keys_dict items :
    NoDup (map fst items) ->
    Forall (fun kv => distinct_keys (snd kv)) items ->
    distinct_keys (JDict items).
Set Elimination Schemes.

Lemma Forall_impl_In {A} (P Q : A -> Prop) (l : list A) :
  Forall (fun a => P a -> Q a) l -> Forall P l -> Forall Q l.
Proof.
  induction 1 as [|a l Ha _ IH]; intros HP; [constructor|].
  inversion HP; subst. constructor; auto.
Qed.

Lemma parse_value_encode (obj : json) : distinct_keys obj -> parses obj.
Proof.
  induction obj as [|b|n|s|items IH|items IH] using json_ind;
    intros Hwf level rest fuel Hrest Hfuel;
    (destruct fuel as [|fuel]; [lia|]).
  - reflexivity.
  - destruct b; reflexivity.
  - cbn [encode] in *.
    destruct (str_of_int_head n) as (c & r & E & Hc).
    destruct (number_char c Hc) as (_ & _ & H1 & H2 & H3 & H4 & H5 & H6).
    pose proof (scan_int_str_of_int n rest Hrest) as Hscan.
    rewrite E in *. cbn [append] in *. cbn [parse_value].
    rewrite H1, H2, H3, H4, H5, H6, Hscan. reflexivity.
  - cbn [encode].
    destruct (scan_string_encode_str s rest) as (tail & Etail & Hscan).
    rewrite Etail. cbn [parse_value Ascii.eqb Bool.eqb]. rewrite Hscan.
    reflexivity.
  - inversion Hwf as [| | | |? Hitems|]; subst.
    pose proof (Forall_impl_In _ _ _ IH Hitems) as Hall.
    destruct items as [|x xs]; [reflexivity|].
    rewrite encode_JList_cons in *. rewrite !string_app_assoc.
    cbn [append parse_value Ascii.eqb Bool.eqb].
    rewrite skip_ws_newline_indent, skip_ws_encode.
    destruct (encode_head x (S level)) as (c & r & E & _ & Hc).
    set (body := encode x (S level) ++ more_items level xs ++ rest).
    assert (Hbody : body = String c (r ++ more_items level xs ++ rest))
      by (subst body; rewrite E; reflexivity).
    rewrite Hbody. cbv iota. rewrite Hc. rewrite <- Hbody. subst body.
    rewrite (parse_items_encode level xs x fuel rest Hall); [reflexivity|].
    rewrite !string_length_app in Hfuel. cbn [String.length] in Hfuel.
    pose proof (newline_indent_length (S level)). lia.
  - inversion Hwf as [| | | | |? Hnd Hitems]; subst.
    pose proof (Forall_impl_In _ _ _ IH Hitems) as Hall.
    destruct items as [|[k x] kvs]; [reflexivity|].
    rewrite encode_JDict_cons in *. rewrite !string_app_assoc.
    destruct (scan_string_encode_str k
                (": " ++ encode x (S level) ++ more_members level kvs ++ rest))
      as (tail & Etail & _).
    set (body := encode_str k ++ ": " ++ encode x (S level)
                   ++ more_members level kvs ++ rest) in *.
    cbn [append parse_value Ascii.eqb Bool.eqb].
    rewrite skip_ws_newline_indent.
    rewrite Etail. rewrite skip_ws_start by reflexivity.
    cbv iota. cbn [Ascii.eqb Bool.eqb]. rewrite <- Etail. subst body.
    rewrite (parse_members_encode level kvs k x fuel rest Hall).
    + rewrite (dict_of_pairs_NoDup _ Hnd). reflexivity.
    + rewrite !string_length_app in Hfuel. cbn [String.length] in Hfuel.
      pose proof (newline_indent_length (S level)). lia.
Qed.

(** Reading a written document gives the object that was written. *)
Lemma json_loads_encode (obj : json) :
  distinct_keys obj -> json_loads (encode obj 0) = Some obj.
Proof.
  intros Hwf. unfold json_loads.
  rewrite <- (string_app_nil_r (encode obj 0)) at 2.
  rewrite skip_ws_encode.
  rewrite (parse_value_encode obj Hwf 0%nat "" _ eq_refl); [reflexivity|lia].
Qed.

Lemma to_dict_distinct_keys (structure : Node) : distinct_keys (to_dict structure).
Proof.
  induction structure as [name path children IH|name path size] using Node_ind;
    cbn [to_dict]; constructor.
  - cbn. repeat constructor; cbn; intuition discriminate.
  - do 3 (constructor; [constructor|]).
    constructor; [|constructor]. cbn [snd]. constructor.
    rewrite Forall_map. exact IH.
  - cbn. repeat constructor; cbn; intuition discriminate.
  - repeat constructor.
Qed.

Lemma of_dict_to_dict (structure : Node) : of_dict (to_dict structure) = Some structure.
Proof.
  induction structure as [name path children IH|name path size] using Node_ind;
    [|reflexivity].
  cbn [to_dict of_dict String.eqb Ascii.eqb Bool.eqb].
  assert (H : (fix all (xs : list json) : option (list Node) :=
                 match xs with
                 | [] => Some []
                 | x :: xs' =>
                     match of_dict x, all xs' with
                     | Some n, Some ns => Some (n :: ns)
                     | _, _ => None
                     end
                 end) (map to_dict children) = Some children).
  { induction IH as [|c cs Hc _ IHcs]; [reflexivity|].
    cbn [map]. rewrite Hc, IHcs. reflexivity. }
  cbn. cbn in H. rewrite H. reflexivity.
Qed.

(** *** Text the encoder accepts *)

(** [s] is UTF-8: as a [str] it holds no surrogate. *)
Definition is_text (s : string) : bool :=
  match first_surrogates s 0 0 with
  | None => true
  | Some _ => false
  end.

(** Every name and every path of a node tree is UTF-8. *)
Definition text_tree (structure : Node) : bool :=
  forallb is_text (written_strings structure).

Lemma escape_char_high (c : ascii) :
  byte_in 0 127 c = false -> escape_char c = String c "".
Proof.
  destruct c as [[] [] [] [] [] [] [] []]; vm_compute;
    solve [reflexivity|discriminate].
Qed.

Lemma escape_char_low (c : ascii) :
  byte_in 0 127 c = true ->
  forall rest i,
    first_surrogates (escape_char c ++ rest) 0 i
    = first_surrogates rest 0 (i + String.length (escape_char c)).
Proof.
  assert (Hone : forall a rest i,
             byte_in 0 127 a = true ->
             first_surrogates (String a rest) 0 i
             = first_surrogates rest 0 (S i)).
  { intros a rest i Ha. cbn [first_surrogates utf8_sequence].
    unfold utf8_lead. rewrite Ha. reflexivity. }
  destruct c as [[] [] [] [] [] [] [] []]; intros Hc rest i;
    try discriminate Hc;
    cbv [escape_char Ascii.eqb Bool.eqb backslash dquote N_of_ascii N_of_digits
           N.ltb N.compare N.add N.mul N.div N.modulo N.div_eucl
           Pos.compare Pos.compare_cont Pos.add Pos.succ Pos.mul hex_digit
           andb orb negb];
    cbn [append String.length];
    repeat (rewrite Hone by reflexivity);
    f_equal; lia.
Qed.

Lemma is_continuation_high (c : ascii) :
  is_continuation c = true -> byte_in 0 127 c = false.
Proof.
  unfold is_continuation, byte_in. intros H.
  apply andb_true_iff in H as [H _]. apply N.leb_le in H.
  apply andb_false_iff. right. apply N.leb_gt. lia.
Qed.

Lemma utf8_lead_cases (c : ascii) :
  match utf8_lead c with
  | None => True
  | Some (O, _, _) => byte_in 0 127 c = true
  | Some (S _, lo, hi) =>
      byte_in 0 127 c = false
      /\ forall c2, byte_in lo hi c2 = true -> is_continuation c2 = true
  end.
Proof.
  assert (Hrange : forall lo hi c2,
             (128 <= lo)%N -> (hi <= 191)%N ->
             byte_in lo hi c2 = true -> is_continuation c2 = true).
  { intros lo hi c2 Hlo Hhi H. unfold byte_in in H. unfold is_continuation.
    apply andb_true_iff in H as [H1 H2].
    apply N.leb_le in H1, H2. apply andb_true_iff.
    split; [apply N.leb_le|apply N.ltb_lt]; lia. }
  unfold utf8_lead.
  destruct (byte_in 0 127 c) eqn:Hlow; [reflexivity|].
  repeat match goal with
         | |- context [if ?b then _ else _] => destruct b
         end;
    try exact I;
    (split; [reflexivity|]; intros c2; apply Hrange; lia).
Qed.

Lemma continuations_escape (k : nat) :
  forall r tail,
    continuations k r = true -> continuations k (escape r ++ tail) = true.
Proof.
  induction k as [|k IH]; intros r tail H; [reflexivity|].
  destruct r as [|c r]; [discriminate|].
  cbn [continuations] in H. apply andb_true_iff in H as [Hc Hr].
  cbn [escape]. rewrite (escape_char_high c (is_continuation_high c Hc)).
  cbn [append continuations]. rewrite Hc. exact (IH r tail Hr).
Qed.

(** Escaping a text leaves it a text: what is scanned after it is the
    rest. *)
Lemma first_surrogates_escape (s : string) :
  forall skip i j tail,
    continuations skip s = true ->
    first_surrogates s skip i = None ->
    exists j',
      first_surrogates (escape s ++ tail) skip j = first_surrogates tail 0 j'.
Proof.
  induction s as [|c r IH]; intros skip i j tail Hskip Hs.
  - destruct skip; [|discriminate]. exists j. reflexivity.
  - destruct skip as [|k].
    + cbn [first_surrogates] in Hs.
      pose proof (utf8_lead_cases c) as Hlead.
      cbn [utf8_sequence] in Hs.
      destruct (utf8_lead c) as [[[[|k] lo] hi]|] eqn:Hc; [| |discriminate].
      * cbn [escape]. rewrite string_app_assoc, (escape_char_low c Hlead).
        apply (IH 0%nat (S i)); [reflexivity|exact Hs].
      * destruct Hlead as [Hhigh Hcont].
        destruct r as [|c2 r2]; [discriminate|].
        destruct (byte_in lo hi c2 && continuations k r2) eqn:Hseq;
          [|discriminate].
        apply andb_true_iff in Hseq as [Hc2 Hr2].
        pose proof (Hcont c2 Hc2) as Hc2'.
        cbn [escape]. rewrite (escape_char_high c Hhigh).
        rewrite (escape_char_high c2 (is_continuation_high c2 Hc2')).
        cbn [append first_surrogates utf8_sequence].
        rewrite Hc, Hc2, (continuations_escape k r2 tail Hr2).
        cbn [andb].
        assert (Hstep : exists j',
                   first_surrogates (escape (String c2 r2) ++ tail) (S k) (S j)
                   = first_surrogates tail 0 j').
        { apply (IH (S k) (S i)); [|exact Hs].
          cbn [continuations]. rewrite Hc2', Hr2. reflexivity. }
        destruct Hstep as [j' Hj'].
        cbn [escape] in Hj'.
        rewrite (escape_char_high c2 (is_continuation_high c2 Hc2')) in Hj'.
        cbn [append first_surrogates] in Hj'. exists j'. exact Hj'.
    + cbn [continuations] in Hskip.
      apply andb_true_iff in Hskip as [Hc Hr].
      cbn [escape first_surrogates] in *.
      rewrite (escape_char_high c (is_continuation_high c Hc)).
      cbn [append first_surrogates]. exact (IH k i j tail Hr Hs).
Qed.

Lemma write_error_text (s : string) :
  is_text s = true -> write_error (encode_str s) = None.
Proof.
  unfold is_text, write_error, encode_str. intros H.
  destruct (first_surrogates s 0 0) eqn:Hs; [discriminate|].
  destruct (first_surrogates_escape s 0 0 1 dquote eq_refl Hs) as [j' Hj'].
  change (dquote ++ escape s ++ dquote)
    with (String "034" (escape s ++ dquote)).
  cbn [first_surrogates utf8_sequence].
  change (utf8_lead "034") with (Some (0%nat, 0%N, 0%N)). cbv iota.
  rewrite Hj'. reflexivity.
Qed.

Lemma first_write_error_text (strings : list string) :
  forallb is_text strings = true -> first_write_error strings = None.
Proof.
  induction strings as [|s rest IH]; [reflexivity|].
  cbn [forallb first_write_error]. intros H.
  apply andb_true_iff in H as [Hs Hrest].
  rewrite (write_error_text s Hs). exact (IH Hrest).
Qed.

(** [t] does not start with a byte above ASCII. *)
Definition low_head (t : string) : bool :=
  match t with
  | EmptyString => true
  | String c _ => byte_in 0 127 c
  end.

Lemma escape_char_low_head (c : ascii) (rest : string) :
  byte_in 0 127 c = true ->
  exists a r, (escape_char c ++ rest = String a r) /\ byte_in 0 127 a = true.
Proof.
  destruct c as [[] [] [] [] [] [] [] []]; intros Hc; try discriminate Hc;
    vm_compute; eexists _, _; split; reflexivity.
Qed.

Lemma low_not_continuation (a : ascii) :
  byte_in 0 127 a = true -> is_continuation a = false.
Proof.
  intros Ha. destruct (is_continuation a) eqn:E; [|reflexivity].
  apply is_continuation_high in E. congruence.
Qed.

Lemma continuations_escape_false (k : nat) :
  forall r tail,
    low_head tail = true ->
    continuations k r = false ->
    continuations k (escape r ++ tail) = false.
Proof.
  induction k as [|k IH]; intros r tail Htail H; [discriminate|].
  destruct r as [|c r].
  - cbn [escape append]. destruct tail as [|a t]; [reflexivity|].
    cbn [continuations]. rewrite (low_not_continuation a Htail). reflexivity.
  - cbn [escape continuations] in *. rewrite string_app_assoc.
    destruct (byte_in 0 127 c) eqn:Hc.
    + destruct (escape_char_low_head c (escape r ++ tail) Hc)
        as (a & r' & -> & Ha).
      rewrite (low_not_continuation a Ha). reflexivity.
    + rewrite (escape_char_high c Hc). cbn [append].
      destruct (is_continuation c); [|reflexivity].
      cbn [andb] in *. exact (IH r tail Htail H).
Qed.

(** A byte that starts no character in a text starts none in the escaped
    text either. *)
Lemma utf8_sequence_escape_none (c : ascii) (r tail : string) :
  low_head tail = true ->
  utf8_sequence (String c r) = 0%nat ->
  byte_in 0 127 c = false
  /\ utf8_sequence (String c (escape r ++ tail)) = 0%nat.
Proof.
  intros Htail H. cbn [utf8_sequence] in *.
  pose proof (utf8_lead_cases c) as Hlead.
  destruct (utf8_lead c) as [[[[|k] lo] hi]|] eqn:Hc.
  - discriminate.
  - destruct Hlead as [Hhigh Hcont]. split; [exact Hhigh|].
    assert (Hlow : forall a, byte_in 0 127 a = true -> byte_in lo hi a = false).
    { intros a Ha. destruct (byte_in lo hi a) eqn:E; [|reflexivity].
      apply Hcont, is_continuation_high in E. congruence. }
    destruct r as [|c2 r2].
    + cbn [escape append]. destruct tail as [|a t]; [reflexivity|].
      rewrite (Hlow a Htail). reflexivity.
    + cbn [escape]. rewrite string_app_assoc.
      destruct (byte_in 0 127 c2) eqn:Hc2.
      * destruct (escape_char_low_head c2 (escape r2 ++ tail) Hc2)
          as (a & r' & -> & Ha).
        rewrite (Hlow a Ha). reflexivity.
      * rewrite (escape_char_high c2 Hc2). cbn [append].
        destruct (byte_in lo hi c2); [|reflexivity].
        cbn [andb] in *.
        destruct (continuations k r2) eqn:Hk; [discriminate|].
        rewrite (continuations_escape_false k r2 tail Htail Hk). reflexivity.
  - split; [|reflexivity].
    unfold utf8_lead in Hc. destruct (byte_in 0 127 c); [discriminate|].
    reflexivity.
Qed.

(** Escaping what is not a text does not make it one. *)
Lemma first_surrogates_escape_some (s : string) :
  forall skip i j tail,
    low_head tail = true ->
    continuations skip s = true ->
    first_surrogates s skip i <> None ->
    first_surrogates (escape s ++ tail) skip j <> None.
Proof.
  induction s as [|c r IH]; intros skip i j tail Htail Hskip Hs.
  - destruct skip; [|discriminate]. exfalso. apply Hs. reflexivity.
  - destruct skip as [|k].
    + cbn [first_surrogates] in Hs.
      destruct (utf8_sequence (String c r)) as [|k] eqn:Hseq.
      * destruct (utf8_sequence_escape_none c r tail Htail Hseq)
          as [Hhigh Hnone].
        cbn [escape]. rewrite (escape_char_high c Hhigh).
        cbn [append first_surrogates]. rewrite Hnone. discriminate.
      * pose proof (utf8_lead_cases c) as Hlead.
        cbn [utf8_sequence] in Hseq.
        destruct (utf8_lead c) as [[[[|k'] lo] hi]|] eqn:Hc; [| |discriminate].
        -- inversion Hseq; subst k.
           cbn [escape]. rewrite string_app_assoc, (escape_char_low c Hlead).
           apply (IH 0%nat (S i)); [exact Htail|reflexivity|exact Hs].
        -- destruct Hlead as [Hhigh Hcont].
           destruct r as [|c2 r2]; [discriminate|].
           destruct (byte_in lo hi c2 && continuations k' r2) eqn:Hok;
             [|discriminate].
           inversion Hseq; subst k.
           apply andb_true_iff in Hok as [Hc2 Hr2].
           pose proof (Hcont c2 Hc2) as Hc2'.
           assert (Hstep :
                     first_surrogates (escape (String c2 r2) ++ tail)
                       (S k') (S j) <> None).
           { apply (IH (S k') (S i)); [exact Htail| |exact Hs].
             cbn [continuations]. rewrite Hc2', Hr2. reflexivity. }
           cbn [escape] in *. rewrite (escape_char_high c Hhigh).
           rewrite (escape_char_high c2 (is_continuation_high c2 Hc2')) in *.
           cbn [append first_surrogates utf8_sequence] in *.
           rewrite Hc, Hc2, (continuations_escape k' r2 tail Hr2).
           cbn [andb]. exact Hstep.
    + cbn [continuations] in Hskip.
      apply andb_true_iff in Hskip as [Hc Hr].
      cbn [escape first_surrogates] in *.
      rewrite (escape_char_high c (is_continuation_high c Hc)).
      cbn [append first_surrogates]. exact (IH k i j tail Htail Hr Hs).
Qed.

Lemma write_error_not_text (s : string) :
  is_text s = false -> exists e, write_error (encode_str s) = Some e.
Proof.
  unfold is_text, write_error, encode_str. intros H.
  assert (Hs : first_surrogates s 0 0 <> None).
  { destruct (first_surrogates s 0 0); [discriminate|discriminate H]. }
  pose proof (first_surrogates_escape_some s 0 0 1 dquote eq_refl eq_refl Hs)
    as Hsome.
  change (dquote ++ escape s ++ dquote)
    with (String "034" (escape s ++ dquote)).
  cbn [first_surrogates utf8_sequence].
  change (utf8_lead "034") with (Some (0%nat, 0%N, 0%N)). cbv iota.
  destruct (first_surrogates (escape s ++ dquote) 0 1) as [[[start stop] c]|];
    [eauto|contradiction].
Qed.

Lemma first_write_error_not_text (strings : list string) :
  forallb is_text strings = false ->
  exists e, first_write_error strings = Some e.
Proof.
  induction strings as [|s rest IH]; [discriminate|].
  cbn [forallb first_write_error]. intros H.
  destruct (is_text s) eqn:Hs.
  - rewrite (write_error_text s Hs). exact (IH H).
  - destruct (write_error_not_text s Hs) as [e ->]. eauto.
Qed.

(** The export is written exactly when the file can be opened and every
    name and path of the tree is text. *)
Lemma save_structure_to_json_written structure output_file io_error :
  fst (fst (save_structure_to_json structure output_file io_error))
  = match io_error with
    | None => text_tree structure
    | Some _ => false
    end.
Proof.
  unfold save_structure_to_json, text_tree.
  destruct io_error; [reflexivity|].
  destruct (forallb is_text (written_strings structure)) eqn:Htext.
  - rewrite (first_write_error_text _ Htext). reflexivity.
  - destruct (first_write_error_not_text _ Htext) as [e ->]. reflexivity.
Qed.

(** C5, as stated, fails for a tree the scan returns that holds a name
    which is not UTF-8: the scan succeeds, the encoder of the file refuses
    the name, [save_structure_to_json] prints the error and returns
    [False], and no document is left to read back. *)
Lemma unwritable_name_is_not_saved :
  exists structure,
    get_folder_structure "/home/u" "root"
      (Directory [(String "255" ".txt", RegularFile 3)])
    = (Ok structure, [])
    /\ save_structure_to_json structure "out.json" None
       = (false,
          ["❌ 保存文件失败: 'utf-8' codec can't encode character '\udcff' in position 1: surrogates not allowed"],
          None).
Proof. eexists. split; vm_compute; reflexivity. Qed.

(** C5, amended.  When every name and every path of a node tree is UTF-8
    text and the file can be opened, the document [save_structure_to_json]
    writes for the tree, in particular for one the scan returned, is read
    back by the JSON decoder as the dict of that tree: the same names, type
    tags, paths and sizes, the children of every folder in the same order.
    When a name or a path is not text, nothing can be read back:
    [save_structure_to_json] prints the encoder's error and returns
    [False]. *)
Theorem persistence_round_trip (structure : Node) (output_file : string) :
  (text_tree structure = true ->
   exists document,
     save_structure_to_json structure output_file None
     = (true, ["✅ 文件结构已保存到: " ++ output_file], Some document)
     /\ json_loads document = Some (to_dict structure)
     /\ of_dict (to_dict structure) = Some structure
     /\ (forall structure',
           json_loads document = Some (to_dict structure') ->
           structure' = structure))
  /\ (text_tree structure = false ->
      exists e,
        save_structure_to_json structure output_file None
        = (false, ["❌ 保存文件失败: " ++ exn_str e], None)).
Proof.
  split.
  - intros Htext.
    exists (encode (to_dict structure) 0). split.
    + unfold save_structure_to_json.
      rewrite (first_write_error_text _ Htext). reflexivity.
    + pose proof (json_loads_encode _ (to_dict_distinct_keys structure))
        as Hload.
      split; [exact Hload|]. split; [apply of_dict_to_dict|].
      intros structure' H. rewrite Hload in H. inversion H as [Heq].
      pose proof (of_dict_to_dict structure) as H1.
      pose proof (of_dict_to_dict structure') as H2.
      rewrite Heq in H1. congruence.
  - intros Htext. unfold save_structure_to_json.
    destruct (first_write_error_not_text _ Htext) as [e ->].
    exists e. reflexivity.
Qed.

Lemma persistence_round_trip_witness :
  exists document,
    save_structure_to_json
      (Folder "root" "/home/u/root" [File "文件.txt" "root/文件.txt" 10])
      "out.json" None
    = (true, ["✅ 文件结构已保存到: out.json"], Some document)
    /\ json_loads document
       = Some (to_dict
                 (Folder "root" "/home/u/root"
                    [File "文件.txt" "root/文件.txt" 10])).
Proof.
  destruct (proj1 (persistence_round_trip
                     (Folder "root" "/home/u/root"
                        [File "文件.txt" "root/文件.txt" 10])
                     "out.json") eq_refl) as (document & Hsave & Hload & _).
  exists document. split; [exact Hsave|exact Hload].
Defined.

(** * Further properties *)

(** ** The order in which directories are listed *)

(** Two directory trees that hold the same entries under the same names,
    each directory listed in any order. *)
Inductive reordered : entry -> entry -> Prop :=
| reordered_same e : reordered e e
| reordered_dir entries entries' :
    Permutation (map fst entries) (map fst entries') ->
    (forall item,
        reordered (os.lookup entries item) (os.lookup entries' item)) ->
    reordered (Directory entries) (Directory entries').

Lemma sorted_Permutation (l l' : list string) :
  Permutation l l' -> sorted l = sorted l'.
Proof.
  intros Hp. apply StronglySorted_unique; try apply sorted_StronglySorted.
  etransitivity; [apply Permutation_sym, StringSort.Permuted_sort|].
  etransitivity; [exact Hp|apply StringSort.Permuted_sort].
Qed.

Lemma reordered_isdir e e' : reordered e e' -> os.isdir e = os.isdir e'.
Proof. destruct 1; reflexivity. Qed.

Lemma reordered_isfile e e' : reordered e e' -> os.isfile e = os.isfile e'.
Proof. destruct 1; reflexivity. Qed.

Lemma reordered_getsize e e' : reordered e e' -> os.getsize e = os.getsize e'.
Proof. destruct 1; reflexivity. Qed.

(** The walker's loop sees a directory through its names only. *)
Lemma scan_items_child folder_path entries entries' recurse recurse' items :
  (forall item,
      os.isdir (os.lookup entries item) = os.isdir (os.lookup entries' item)
      /\ os.getsize (os.lookup entries item)
         = os.getsize (os.lookup entries' item)) ->
  (forall item, recurse item = recurse' item) ->
  forall children,
    scan_items folder_path (Directory entries) recurse items children
    = scan_items folder_path (Directory entries') recurse' items children.
Proof.
  intros Hchild Hrec. induction items as [|item rest IH]; intros children;
    [reflexivity|].
  cbn [scan_items os.child]. destruct (Hchild item) as [-> ->].
  rewrite Hrec. destruct (os.isdir _).
  - destruct (recurse' item) as [[sub|e] out]; [rewrite IH|]; reflexivity.
  - destruct (os.getsize _); [apply IH|reflexivity].
Qed.

Lemma print_items_child prefix show_size entries entries' recurse recurse'
    folders total :
  (forall item,
      os.getsize (os.lookup entries item)
      = os.getsize (os.lookup entries' item)) ->
  (forall item new_prefix, recurse item new_prefix = recurse' item new_prefix) ->
  forall all_items i,
    print_items prefix show_size (Directory entries) recurse folders total
      i all_items
    = print_items prefix show_size (Directory entries') recurse' folders total
        i all_items.
Proof.
  intros Hchild Hrec. induction all_items as [|item rest IH]; intros i;
    [reflexivity|].
  cbn [print_items os.child]. rewrite Hchild, Hrec, IH. reflexivity.
Qed.

Definition listing_a : list (string * entry) :=
  [("sub", Directory [("c.txt", RegularFile 3); ("b.txt", RegularFile 20)]);
   ("a.txt", RegularFile 10)].

Definition listing_b : list (string * entry) :=
  [("a.txt", RegularFile 10);
   ("sub", Directory [("b.txt", RegularFile 20); ("c.txt", RegularFile 3)])].

Lemma lookup_cases (P : entry -> Prop) entries item :
  Forall (fun ne => P (snd ne)) entries ->
  P (NoEntry (os.ENOENT item)) ->
  P (os.lookup entries item).
Proof.
  intros HF Hnone. induction HF as [|[n c] es Hc _ IH]; [exact Hnone|].
  cbn [os.lookup]. destruct (String.eqb n item); [exact Hc|exact IH].
Qed.

Lemma listings_reordered :
  reordered (Directory listing_a) (Directory listing_b).
Proof.
  apply reordered_dir.
  - apply perm_swap.
  - intros item. unfold listing_a, listing_b. cbn [os.lookup].
    destruct (String.eqb "sub" item) eqn:Es, (String.eqb "a.txt" item) eqn:Ea;
      try apply reordered_same.
    + apply String.eqb_eq in Es, Ea. congruence.
    + apply reordered_dir; [apply perm_swap|].
      intros item'. cbn [os.lookup].
      destruct (String.eqb "c.txt" item') eqn:Ec,
               (String.eqb "b.txt" item') eqn:Eb; try apply reordered_same.
      apply String.eqb_eq in Ec, Eb. congruence.
Qed.

(** X1.  The tree the walker returns and the lines it prints do not depend
    on the order in which any directory is listed. *)
Theorem scan_independent_of_listing_order
    (cwd : string) (target target' : entry) :
  reordered target target' ->
  forall folder_path,
    get_folder_structure cwd folder_path target
    = get_folder_structure cwd folder_path target'.
Proof.
  induction 1 as [e|entries entries' Hperm Hlook IH]; intros folder_path;
    [reflexivity|].
  rewrite !get_folder_structure_Directory. cbv zeta.
  rewrite (sorted_Permutation _ _ Hperm).
  rewrite (scan_items_child folder_path entries entries' _
             (fun item =>
                get_folder_structure cwd (posixpath.join folder_path item)
                  (os.lookup entries' item))).
  - reflexivity.
  - intros item. split;
      [apply reordered_isdir, Hlook|apply reordered_getsize, Hlook].
  - intros item. apply IH.
Qed.

Lemma scan_independent_of_listing_order_witness :
  get_folder_structure "/home/u" "root" (Directory listing_a)
  = get_folder_structure "/home/u" "root" (Directory listing_b).
Proof.
  apply (scan_independent_of_listing_order "/home/u"
           (Directory listing_a) (Directory listing_b) listings_reordered).
Defined.

(** X2.  What the renderer prints does not depend on the order in which any
    directory is listed. *)
Theorem print_tree_independent_of_listing_order
    (show_size : bool) (target target' : entry) :
  reordered target target' ->
  forall path prefix,
    _print_tree path prefix show_size target
    = _print_tree path prefix show_size target'.
Proof.
  induction 1 as [e|entries entries' Hperm Hlook IH]; intros path prefix;
    [reflexivity|].
  rewrite !_print_tree_Directory. cbv zeta.
  rewrite (sorted_Permutation _ _ Hperm).
  assert (Hdir : forall l,
             filter (fun item => os.isdir (os.lookup entries item)) l
             = filter (fun item => os.isdir (os.lookup entries' item)) l).
  { intros l. apply filter_ext. intros item. apply reordered_isdir, Hlook. }
  assert (Hfile : forall l,
             filter (fun item => os.isfile (os.lookup entries item)) l
             = filter (fun item => os.isfile (os.lookup entries' item)) l).
  { intros l. apply filter_ext. intros item. apply reordered_isfile, Hlook. }
  rewrite Hdir, Hfile.
  rewrite (print_items_child prefix show_size entries entries' _
             (fun item new_prefix =>
                _print_tree (posixpath.join path item) new_prefix show_size
                  (os.lookup entries' item))).
  - reflexivity.
  - intros item. apply reordered_getsize, Hlook.
  - intros item new_prefix. apply IH.
Qed.

Lemma print_tree_independent_of_listing_order_witness :
  _print_tree "root" "" true (Directory listing_a)
  = _print_tree "root" "" true (Directory listing_b).
Proof.
  apply (print_tree_independent_of_listing_order true
           (Directory listing_a) (Directory listing_b) listings_reordered).
Defined.

Lemma lookup_Permutation entries entries' :
  Permutation entries entries' ->
  NoDup (map fst entries) ->
  forall item, os.lookup entries item = os.lookup entries' item.
Proof.
  induction 1 as [|[n c] l l' Hp IH|[n c] [n' c'] l|l l' l'' Hp1 IH1 Hp2 IH2];
    intros Hnd item.
  - reflexivity.
  - cbn [os.lookup]. inversion Hnd; subst.
    destruct (String.eqb n item); [reflexivity|auto].
  - cbn [os.lookup]. cbn [map fst] in Hnd.
    destruct (String.eqb n' item) eqn:E', (String.eqb n item) eqn:E;
      try reflexivity.
    apply String.eqb_eq in E, E'. subst. inversion Hnd as [|? ? Hin _]; subst.
    exfalso. apply Hin. left. reflexivity.
  - rewrite IH1 by exact Hnd. apply IH2.
    eapply Permutation_NoDup; [|exact Hnd].
    apply Permutation_map. exact Hp1.
Qed.

(** A directory with distinct names, listed in another order. *)
Lemma Permutation_reordered entries entries' :
  Permutation entries entries' ->
  NoDup (map fst entries) ->
  reordered (Directory entries) (Directory entries').
Proof.
  intros Hp Hnd. apply reordered_dir.
  - apply Permutation_map. exact Hp.
  - intros item. rewrite (lookup_Permutation _ _ Hp Hnd). apply reordered_same.
Qed.

(** ** An entry that cannot be examined *)

Definition dangling_example : list (string * entry) :=
  [("a.txt", RegularFile 10);
   ("link", NoEntry (os.ENOENT "root/link"));
   ("z.txt", RegularFile 5)].

(** X3.  When an entry can be neither entered nor measured, for a reason
    other than a permission error (a dangling symbolic link), the walker
    stops there: the folder node holds the children of the entries sorted
    before it and nothing of those sorted after it, the error is the last
    line printed, and the call returns. *)
Theorem scan_stops_at_entry_it_cannot_examine
    (cwd folder_path : string) (entries : list (string * entry))
    (before after : list string) (item : string) (err : exn) :
  sorted (map fst entries) = (before ++ item :: after)%list ->
  Forall (fun i => os.exists_ (os.lookup entries i) = true) before ->
  os.lookup entries item = NoEntry err ->
  is_PermissionError err = false ->
  exists children,
    get_folder_structure cwd folder_path (Directory entries)
    = (Ok (Folder (posixpath.basename (posixpath.abspath cwd folder_path))
             (posixpath.abspath cwd folder_path) children),
       (items_output cwd folder_path entries before
          ++ [("❌ 扫描出错: " ++ exn_str err)%string])%list)
    /\ Forall2 (scanned_as cwd folder_path entries) before children
    /\ length children = length before.
Proof.
  intros Hsorted Hbefore Hitem Hperm.
  rewrite get_folder_structure_Directory. cbv zeta. rewrite Hsorted.
  destruct (scan_items_prefix cwd folder_path entries before Hbefore [])
    as (nodes & Hall & Hrest).
  rewrite Hrest. cbn [scan_items os.child app]. rewrite Hitem.
  cbn [os.isdir os.getsize]. exists nodes.
  split; [|split; [exact Hall|]].
  - rewrite app_nil_r. unfold scan_handler. rewrite Hperm. reflexivity.
  - symmetry. eapply Forall2_length. exact Hall.
Qed.

Lemma scan_stops_at_entry_it_cannot_examine_witness :
  exists children,
    get_folder_structure "/home/u" "root" (Directory dangling_example)
    = (Ok (Folder "root" "/home/u/root" children),
       ["❌ 扫描出错: [Errno 2] No such file or directory: 'root/link'"])
    /\ Forall2 (scanned_as "/home/u" "root" dangling_example) ["a.txt"] children
    /\ length children = 1%nat.
Proof.
  apply (scan_stops_at_entry_it_cannot_examine "/home/u" "root"
           dangling_example ["a.txt"] ["z.txt"] "link"
           (os.ENOENT "root/link")).
  - reflexivity.
  - repeat constructor.
  - reflexivity.
  - reflexivity.
Defined.

(** ** Absolute and relative paths in the tree *)

Lemma join_isabs folder_path item :
  valid_name item = true ->
  posixpath.isabs (posixpath.join folder_path item) = posixpath.isabs folder_path.
Proof.
  intros Hv. destruct (valid_name_inv item Hv) as (He & _ & _ & Hsep).
  assert (Hstart : posixpath.startswith_sep item = false).
  { destruct item as [|c r]; [reflexivity|].
    cbn in Hsep. apply orb_false_iff in Hsep as [Hc _]. exact Hc. }
  unfold posixpath.join, posixpath.isabs. rewrite Hstart.
  destruct folder_path as [|a r].
  - cbn. exact Hstart.
  - cbn [String.eqb orb]. destruct (posixpath.endswith_sep (String a r));
      reflexivity.
Qed.

Lemma normpath_isabs path :
  posixpath.isabs path = true -> posixpath.isabs (posixpath.normpath path) = true.
Proof.
  intros Habs. unfold posixpath.normpath.
  destruct path as [|c r]; [discriminate|].
  cbn [String.eqb]. unfold posixpath.isabs in Habs. rewrite Habs.
  set (k := match String c r with
            | String _ (String c2 r0) =>
                if posixpath.is_sep c2 && negb (posixpath.startswith_sep r0)
                then 2%nat else 1%nat
            | _ => 1%nat
            end).
  assert (Hk : k = 1%nat \/ k = 2%nat).
  { subst k. destruct r as [|c2 r0]; [auto|].
    destruct (posixpath.is_sep c2 && negb (posixpath.startswith_sep r0)); auto. }
  destruct Hk as [-> | ->]; reflexivity.
Qed.

Lemma abspath_isabs cwd path :
  posixpath.isabs cwd = true ->
  posixpath.isabs (posixpath.abspath cwd path) = true.
Proof.
  intros Hcwd. unfold posixpath.abspath. apply normpath_isabs.
  destruct (posixpath.isabs path) eqn:E; [exact E|].
  unfold posixpath.join, posixpath.isabs in *. rewrite E.
  destruct cwd as [|a r]; [discriminate|].
  cbn [String.eqb orb]. destruct (posixpath.endswith_sep (String a r));
    exact Hcwd.
Qed.

(** Folder nodes carry absolute paths; file nodes carry the joined path,
    which is absolute exactly when the scanned path was given so. *)
Definition path_kind (folder_path : string) (n : Node) : Prop :=
  match n with
  | Folder _ path _ => posixpath.isabs path = true
  | File _ path _ => posixpath.isabs path = posixpath.isabs folder_path
  end.

(** The loop appends nodes that satisfy [Q] when the subdirectory scans and
    the file nodes it builds do. *)
Lemma scan_items_Forall cwd folder_path entries (Q : Node -> Prop) items :
  (forall item sub out,
      In item items ->
      os.isdir (os.lookup entries item) = true ->
      get_folder_structure cwd (posixpath.join folder_path item)
        (os.lookup entries item) = (Ok sub, out) ->
      Q sub) ->
  (forall item size,
      In item items -> Q (File item (posixpath.join folder_path item) size)) ->
  forall children children' raised out,
    Forall Q children ->
    scan_items folder_path (Directory entries)
      (fun item =>
         get_folder_structure cwd (posixpath.join folder_path item)
           (os.lookup entries item))
      items children = (children', raised, out) ->
    Forall Q children'.
Proof.
  induction items as [|item items IH];
    intros Hsub Hfile children children' raised out Hch.
  - cbn. intros H. inversion H; subst. exact Hch.
  - assert (Hsub' : forall item' sub out,
               In item' items ->
               os.isdir (os.lookup entries item') = true ->
               get_folder_structure cwd (posixpath.join folder_path item')
                 (os.lookup entries item') = (Ok sub, out) ->
               Q sub).
    { intros item' sub out' Hin. apply Hsub. right. exact Hin. }
    assert (Hfile' : forall item' size,
               In item' items ->
               Q (File item' (posixpath.join folder_path item') size)).
    { intros item' size Hin. apply Hfile. right. exact Hin. }
    cbn [scan_items os.child].
    destruct (os.isdir (os.lookup entries item)) eqn:Hdir.
    + destruct (get_folder_structure cwd _ _) as [[sub|e] out1] eqn:Hrec.
      * destruct (scan_items _ _ _ items _) as [[cs r] o] eqn:Hrest.
        intros H. inversion H; subst.
        apply (IH Hsub' Hfile' _ _ _ _) with (2 := Hrest).
        apply Forall_app. split; [exact Hch|]. constructor; [|constructor].
        eapply Hsub; eauto. left. reflexivity.
      * intros H. inversion H; subst. exact Hch.
    + destruct (os.getsize _) as [size|e].
      * intros Hrest.
        apply (IH Hsub' Hfile' _ _ _ _) with (2 := Hrest).
        apply Forall_app. split; [exact Hch|]. constructor; [|constructor].
        apply Hfile. left. reflexivity.
      * intros H. inversion H; subst. exact Hch.
Qed.

(** X4.  With an absolute working directory, every folder node of a scan
    carries an absolute path, while a file node's path is absolute only if
    the scanned path was given as an absolute one: scanning a relative path
    gives absolute folder paths and relative file paths. *)
Theorem scan_paths_absolute_for_folders_only
    (cwd folder_path : string) (target : entry) (node : Node) (out : output) :
  posixpath.isabs cwd = true ->
  valid_names target = true ->
  get_folder_structure cwd folder_path target = (Ok node, out) ->
  forall n, subnode n node -> path_kind folder_path n.
Proof.
  intros Hcwd. revert folder_path node out.
  assert (Hleaf : forall folder_path n,
             subnode n
               (Folder (posixpath.basename (posixpath.abspath cwd folder_path))
                  (posixpath.abspath cwd folder_path) []) ->
             path_kind folder_path n).
  { intros folder_path n Hn.
    inversion Hn as [|? ? ? c Hin Hc]; subst;
      [apply abspath_isabs, Hcwd|destruct Hin]. }
  induction target as [sz|entries IH|err|sz|err] using entry_ind;
    intros folder_path node out Hvalid Hscan n Hn;
    [cbn in Hscan; inversion Hscan; subst; apply Hleaf, Hn
    |
    |cbn in Hscan; inversion Hscan; subst; apply Hleaf, Hn
    |cbn in Hscan; inversion Hscan; subst; apply Hleaf, Hn
    |cbn in Hscan; inversion Hscan].
  rewrite get_folder_structure_Directory in Hscan. cbv zeta in Hscan.
  destruct (scan_items _ _ _ _ _) as [[children raised] out'] eqn:Hloop.
  assert (Hnode : node = Folder
            (posixpath.basename (posixpath.abspath cwd folder_path))
            (posixpath.abspath cwd folder_path) children).
  { destruct raised; inversion Hscan; reflexivity. }
  subst node.
  apply scan_items_Forall
    with (Q := fun c => forall n, subnode n c -> path_kind folder_path n)
    in Hloop.
  - inversion Hn as [|? ? ? c Hin Hc]; subst.
    + apply abspath_isabs, Hcwd.
    + rewrite Forall_forall in Hloop. exact (Hloop c Hin n Hc).
  - intros item sub out1 Hin Hdir Hrec m Hm.
    apply (proj1 (sorted_In _ _)) in Hin.
    destruct (valid_names_lookup entries item Hvalid Hin) as [Hitem Hv].
    pose proof (lookup_In entries item (isdir_exists _ Hdir)) as Hin'.
    rewrite Forall_forall in IH. specialize (IH _ Hin'). cbn [snd] in IH.
    specialize (IH _ _ _ Hv Hrec m Hm).
    destruct m as [mname mpath mchildren|mname mpath msize]; cbn in *;
      [exact IH|].
    rewrite IH. apply join_isabs, Hitem.
  - intros item size Hin m Hm. inversion Hm; subst. cbn.
    apply (proj1 (sorted_In _ _)) in Hin.
    destruct (valid_names_lookup entries item Hvalid Hin) as [Hitem _].
    apply join_isabs, Hitem.
  - constructor.
Qed.

Lemma scan_paths_absolute_for_folders_only_witness :
  path_kind "root" (File "b.txt" "root/sub/b.txt" 20).
Proof.
  apply (scan_paths_absolute_for_folders_only "/home/u" "root" sorted_example
           (Folder "root" "/home/u/root"
              [File "a.txt" "root/a.txt" 10;
               Folder "sub" "/home/u/root/sub" [File "b.txt" "root/sub/b.txt" 20]])
           []).
  - reflexivity.
  - reflexivity.
  - vm_compute. reflexivity.
  - eapply subnode_below; [right; left; reflexivity|].
    eapply subnode_below; [left; reflexivity|apply subnode_here].
Defined.

(** ** The summary of a tree that can be read throughout *)

Fixpoint distinct (names : list string) : bool :=
  match names with
  | [] => true
  | n :: rest => negb (existsb (String.eqb n) rest) && distinct rest
  end.

(** Every directory below [e] can be listed, lists distinct names, and
    every entry can be examined. *)
Fixpoint readable (e : entry) : bool :=
  match e with
  | Directory entries =>
      distinct (map fst entries)
      && (fix all (es : list (string * entry)) : bool :=
            match es with
            | [] => true
            | (_, c) :: es' => readable c && all es'
            end) entries
  | RegularFile _ | SpecialFile _ => true
  | UnlistableDirectory _ | NoEntry _ => false
  end.

(** What is in a directory tree: the directories, the root among them; the
    entries that are not directories; the bytes of the latter. *)
Fixpoint census (e : entry) : Z * Z * Z :=
  match e with
  | Directory entries =>
      (fix below (es : list (string * entry)) (acc : Z * Z * Z) : Z * Z * Z :=
         match es with
         | [] => acc
         | (_, c) :: es' =>
             let '(d, f, b) := acc in
             let '(d', f', b') := census c in
             below es' (d + d', f + f', b + b')
         end) entries (1, 0, 0)
  | RegularFile sz | SpecialFile sz => (0, 1, sz)
  | UnlistableDirectory _ => (1, 0, 0)
  | NoEntry _ => (0, 0, 0)
  end.

Definition add3 (x y : Z * Z * Z) : Z * Z * Z :=
  let '(a, b, c) := x in let '(a', b', c') := y in (a + a', b + b', c + c').

Definition sum3 (l : list (Z * Z * Z)) : Z * Z * Z :=
  fold_right add3 (0, 0, 0) l.

Lemma add3_assoc x y z : add3 (add3 x y) z = add3 x (add3 y z).
Proof.
  destruct x as [[a b] c], y as [[a' b'] c'], z as [[a'' b''] c''].
  cbn. apply triple_eq; lia.
Qed.

Lemma add3_comm x y : add3 x y = add3 y x.
Proof.
  destruct x as [[a b] c], y as [[a' b'] c']. cbn. apply triple_eq; lia.
Qed.

Lemma add3_0_r x : add3 x (0, 0, 0) = x.
Proof. destruct x as [[a b] c]. cbn. apply triple_eq; lia. Qed.

Lemma sum3_Permutation l l' : Permutation l l' -> sum3 l = sum3 l'.
Proof.
  unfold sum3.
  induction 1 as [|x l l' _ IH|x y l|l l' l'' _ IH1 _ IH2]; cbn [fold_right].
  - reflexivity.
  - rewrite IH. reflexivity.
  - rewrite <- !add3_assoc, (add3_comm y x). reflexivity.
  - congruence.
Qed.

Lemma census_Directory entries :
  census (Directory entries)
  = add3 (1, 0, 0) (sum3 (map (fun ne => census (snd ne)) entries)).
Proof.
  cbn [census].
  assert (H : forall acc,
    (fix below (es : list (string * entry)) (acc : Z * Z * Z) : Z * Z * Z :=
       match es with
       | [] => acc
       | (_, c) :: es' =>
           let '(d, f, b) := acc in
           let '(d', f', b') := census c in
           below es' (d + d', f + f', b + b')
       end) entries acc
    = add3 acc (sum3 (map (fun ne => census (snd ne)) entries))).
  { induction entries as [|[n c] es IH]; intros acc.
    - cbn. symmetry. apply add3_0_r.
    - destruct acc as [[d f] b]. cbn [map sum3 fold_right snd].
      destruct (census c) as [[d' f'] b'] eqn:Ec.
      rewrite IH. rewrite <- add3_assoc. reflexivity. }
  apply H.
Qed.

(** What one child adds to the counters of [count_items]. *)
Definition counted (child : Node) : Z * Z * Z :=
  match child with
  | Folder _ _ _ => count_items child
  | File _ _ size => (0, 1, size)
  end.

Lemma count_children_sum3 children acc :
  count_children children acc = add3 acc (sum3 (map counted children)).
Proof.
  revert acc. induction children as [|c cs IH]; intros acc.
  - cbn. symmetry. apply add3_0_r.
  - destruct acc as [[d f] b]. cbn [map sum3 fold_right].
    rewrite <- add3_assoc.
    destruct c as [cname cpath cchildren|cname cpath csize].
    + change (count_children (Folder cname cpath cchildren :: cs) (d, f, b))
        with (let '(sub_folders, sub_files, sub_size) :=
                count_items (Folder cname cpath cchildren) in
              count_children cs (d + sub_folders, f + sub_files, b + sub_size)).
      cbn [counted].
      destruct (count_items (Folder cname cpath cchildren)) as [[d' f'] b'].
      rewrite IH. reflexivity.
    + change (count_children (File cname cpath csize :: cs) (d, f, b))
        with (count_children cs (d, f + 1, b + csize)).
      rewrite IH. cbn [counted add3].
      replace (d + 0) with d by lia. reflexivity.
Qed.

Lemma distinct_NoDup names : distinct names = true -> NoDup names.
Proof.
  induction names as [|n rest IH]; cbn; intros H; constructor.
  - apply andb_true_iff in H as [H _]. apply negb_true_iff in H.
    intros Hin. apply existsb_eqb_In in Hin. congruence.
  - apply andb_true_iff in H as [_ H]. auto.
Qed.

Lemma readable_Directory entries :
  readable (Directory entries) = true ->
  NoDup (map fst entries)
  /\ Forall (fun ne => readable (snd ne) = true) entries.
Proof.
  cbn [readable]. intros H. apply andb_true_iff in H as [Hd Hall].
  split; [apply distinct_NoDup, Hd|].
  induction entries as [|[n c] es IH]; constructor.
  - apply andb_true_iff in Hall as [Hc _]. exact Hc.
  - apply IH.
    + cbn in Hd. apply andb_true_iff in Hd as [_ Hd]. exact Hd.
    + apply andb_true_iff in Hall as [_ Hall]. exact Hall.
Qed.

Lemma readable_exists e : readable e = true -> os.exists_ e = true.
Proof. destruct e; cbn; congruence. Qed.

(** With distinct names, going through the names and looking each one up
    is going through the entries. *)
Lemma map_lookup_distinct {A} (f : entry -> A) entries :
  NoDup (map fst entries) ->
  map (fun item => f (os.lookup entries item)) (map fst entries)
  = map (fun ne => f (snd ne)) entries.
Proof.
  induction entries as [|[n c] es IH]; intros Hnd; [reflexivity|].
  inversion Hnd as [|? ? Hnotin Hnd']; subst.
  cbn [map fst snd os.lookup]. rewrite String.eqb_refl. f_equal.
  rewrite <- (IH Hnd'). apply map_ext_in. intros item Hin.
  destruct (String.eqb n item) eqn:E; [|reflexivity].
  apply String.eqb_eq in E. subst. contradiction.
Qed.

Lemma Forall2_map_eq {A B C} (R : A -> B -> Prop) (f : A -> C) (g : B -> C) l l' :
  Forall2 R l l' -> (forall a b, In a l -> R a b -> g b = f a) ->
  map g l' = map f l.
Proof.
  induction 1 as [|a b l l' Hab _ IH]; intros H; [reflexivity|].
  cbn [map]. f_equal.
  - apply H; [left; reflexivity|exact Hab].
  - apply IH. intros a' b' Hin. apply H. right. exact Hin.
Qed.

Lemma items_output_nil cwd folder_path entries items :
  (forall item,
      In item items -> os.isdir (os.lookup entries item) = true ->
      snd (get_folder_structure cwd (posixpath.join folder_path item)
             (os.lookup entries item)) = []) ->
  items_output cwd folder_path entries items = [].
Proof.
  intros H. unfold items_output. induction items as [|item rest IH];
    [reflexivity|].
  cbn [flat_map]. rewrite IH by (intros i Hi; apply H; right; exact Hi).
  rewrite app_nil_r.
  destruct (os.isdir (os.lookup entries item)) eqn:Hdir; [|reflexivity].
  apply H; [left; reflexivity|exact Hdir].
Qed.

Lemma readable_scan cwd (target : entry) :
  readable target = true ->
  os.isdir target = true ->
  forall folder_path,
  exists node,
    get_folder_structure cwd folder_path target = (Ok node, [])
    /\ count_items node = census target.
Proof.
  induction target as [sz|entries IH|err|sz|err] using entry_ind;
    intros Hread Hdir folder_path; try discriminate.
  destruct (readable_Directory entries Hread) as [Hnd Hall].
  assert (Hex : Forall (fun ne => os.exists_ (snd ne) = true) entries).
  { eapply Forall_impl; [|exact Hall]. intros ne. apply readable_exists. }
  destruct (get_folder_structure_complete cwd folder_path entries Hex)
    as (children & Hscan & Hchildren).
  assert (Hsub : forall item,
             In item (sorted (map fst entries)) ->
             os.isdir (os.lookup entries item) = true ->
             exists sub,
               get_folder_structure cwd (posixpath.join folder_path item)
                 (os.lookup entries item) = (Ok sub, [])
               /\ count_items sub = census (os.lookup entries item)).
  { intros item Hin Hd.
    apply (proj1 (sorted_In _ _)), lookup_listed in Hin.
    rewrite Forall_forall in IH, Hall.
    exact (IH _ Hin (Hall _ Hin) Hd (posixpath.join folder_path item)). }
  exists (Folder (posixpath.basename (posixpath.abspath cwd folder_path))
            (posixpath.abspath cwd folder_path) children).
  split.
  - rewrite Hscan. f_equal. apply items_output_nil.
    intros item Hin Hd. destruct (Hsub item Hin Hd) as (sub & -> & _).
    reflexivity.
  - rewrite count_items_Folder, count_children_sum3, census_Directory.
    change (0 + 1, 0, 0) with (1, 0, 0). f_equal.
    rewrite <- (map_lookup_distinct census entries Hnd).
    rewrite (sum3_Permutation _ _
               (Permutation_map (fun item => census (os.lookup entries item))
                  (StringSort.Permuted_sort (map fst entries)))).
    f_equal.
    apply (Forall2_map_eq (scanned_as cwd folder_path entries)); [exact Hchildren|].
    intros item node Hin Has. unfold scanned_as in Has.
    destruct (os.isdir (os.lookup entries item)) eqn:Hd.
    + destruct Has as [out Hnode].
      destruct (Hsub item Hin Hd) as (sub & Hsub' & Hcount).
      rewrite Hsub' in Hnode. inversion Hnode; subst.
      destruct (get_folder_structure_Ok _ _ _ _ _ Hsub') as [cs ->].
      cbn [counted]. exact Hcount.
    + destruct Has as (size & Hsize & ->). cbn [counted].
      apply (proj1 (sorted_In _ _)), lookup_listed in Hin.
      rewrite Forall_forall in Hall. specialize (Hall _ Hin). cbn [snd] in Hall.
      destruct (os.lookup entries item); try discriminate;
        cbn in Hsize; inversion Hsize; reflexivity.
Qed.

(** X5.  For a directory that can be read throughout, [get_structure_summary]
    prints nothing, does not raise, and reports exactly what the directory
    tree holds: its directories, the root included; its entries that are
    not directories; and the bytes of those entries. *)
Theorem summary_of_readable_tree_counts_its_entries
    (cwd folder_path : string) (target : entry) :
  readable target = true ->
  os.isdir target = true ->
  get_structure_summary cwd folder_path target
  = (Ok (summary_text folder_path (census target)), []).
Proof.
  intros Hread Hdir.
  destruct (readable_scan cwd target Hread Hdir folder_path)
    as (node & Hscan & Hcount).
  unfold get_structure_summary. rewrite Hscan, Hcount. reflexivity.
Qed.

Lemma summary_of_readable_tree_witness :
  get_structure_summary "/home/u" "root" sorted_example
  = (Ok (summary_text "root" (2, 2, 30)), []).
Proof.
  apply (summary_of_readable_tree_counts_its_entries "/home/u" "root"
           sorted_example); reflexivity.
Defined.

(** ** The texts the renderer prints *)

(** The text [line] starts with [prefix]. *)
Definition starts_with (prefix line : string) : Prop :=
  exists rest, line = prefix ++ rest.

Lemma starts_with_app prefix more line :
  starts_with (prefix ++ more) line -> starts_with prefix line.
Proof.
  intros [rest ->]. exists (more ++ rest). apply string_app_assoc.
Qed.

Lemma print_handler_starts_with prefix e line :
  In line (print_handler prefix e) -> starts_with prefix line.
Proof.
  unfold print_handler.
  destruct (is_PermissionError e); intros [<-|[]]; eexists; reflexivity.
Qed.

Lemma print_items_starts_with prefix show_size dir recurse folders total :
  (forall item new_prefix line,
      In line (recurse item new_prefix) -> starts_with new_prefix line) ->
  forall all_items i out raised line,
    print_items prefix show_size dir recurse folders total i all_items
    = (out, raised) ->
    In line out -> starts_with prefix line.
Proof.
  intros Hrec. induction all_items as [|item rest IH];
    intros i out raised line.
  - cbn. intros H. inversion H. intros [].
  - cbn [print_items].
    destruct (print_items prefix show_size dir recurse folders total (i + 1) rest)
      as [out' raised'] eqn:Hrest.
    destruct (existsb (String.eqb item) folders).
    + intros H. inversion H; subst. intros [<-|Hin].
      * eexists. reflexivity.
      * apply in_app_or in Hin as [Hin|Hin].
        -- apply Hrec in Hin. eapply starts_with_app. exact Hin.
        -- eapply IH; eauto.
    + destruct (if show_size then _ else _) as [size_info|e].
      * intros H. inversion H; subst. intros [<-|Hin].
        -- eexists. reflexivity.
        -- eapply IH; eauto.
      * intros H. inversion H. intros [].
Qed.

(** X6.  Every text the renderer prints for a path, one for each call of
    [print], starts with the prefix it was called with, whatever the path
    holds: the error texts and the texts of every subdirectory too.  (This
    is about the text of a call: a name that holds a newline makes the call
    print more than one line, and only the first is under the prefix.) *)
Theorem print_tree_texts_start_with_prefix
    (show_size : bool) (target : entry) (path prefix text : string) :
  In text (_print_tree path prefix show_size target) ->
  starts_with prefix text.
Proof.
  revert path prefix text.
  induction target as [sz|entries IH|err|sz|err] using entry_ind;
    intros path prefix text; try apply print_handler_starts_with.
  rewrite _print_tree_Directory. cbv zeta.
  destruct (print_items _ _ _ _ _ _ _ _) as [out raised] eqn:Hloop.
  intros Hin.
  assert (Hout : forall l, In l out -> starts_with prefix l).
  { intros l Hl. eapply print_items_starts_with; [|exact Hloop|exact Hl].
    intros item new_prefix l'. cbv beta.
    apply (lookup_cases
             (fun e => In l' (_print_tree (posixpath.join path item) new_prefix
                                show_size e) ->
                       starts_with new_prefix l')).
    - eapply Forall_impl; [|exact IH]. intros ne Hne. apply Hne.
    - apply print_handler_starts_with. }
  destruct raised as [e|]; [|apply Hout, Hin].
  apply in_app_or in Hin as [Hin|Hin];
    [apply Hout, Hin|eapply print_handler_starts_with; exact Hin].
Qed.

Lemma print_tree_texts_start_with_prefix_witness :
  starts_with "│   " "│   └── 📄 b.txt (20.0 B)".
Proof.
  apply (print_tree_texts_start_with_prefix true
           (Directory [("b.txt", RegularFile 20)]) "root/sub" "│   "
           "│   └── 📄 b.txt (20.0 B)").
  left. reflexivity.
Defined.

(** An entry the renderer has a line for. *)
Definition shown (e : entry) : bool := os.isdir e || os.isfile e.

Definition shown_entries (entries : list (string * entry))
  : list (string * entry) :=
  filter (fun ne => shown (snd ne)) entries.

Lemma lookup_shown entries item :
  NoDup (map fst entries) ->
  shown (os.lookup entries item) = true ->
  os.lookup (shown_entries entries) item = os.lookup entries item.
Proof.
  induction entries as [|[n c] es IH]; intros Hnd Hshown; [reflexivity|].
  inversion Hnd as [|? ? _ Hnd']; subst.
  cbn [shown_entries filter snd os.lookup] in *.
  destruct (String.eqb n item) eqn:E.
  - rewrite Hshown. cbn [os.lookup]. rewrite E. reflexivity.
  - destruct (shown c); [cbn [os.lookup]; rewrite E|]; apply IH; assumption.
Qed.

(** With distinct names, selecting names by what they denote is selecting
    entries. *)
Lemma filter_names_distinct (p : entry -> bool) entries :
  NoDup (map fst entries) ->
  filter (fun item => p (os.lookup entries item)) (map fst entries)
  = map fst (filter (fun ne => p (snd ne)) entries).
Proof.
  induction entries as [|[n c] es IH]; intros Hnd; [reflexivity|].
  inversion Hnd as [|? ? Hnotin Hnd']; subst.
  cbn [map fst snd filter os.lookup]. rewrite String.eqb_refl.
  assert (Htail : filter (fun item => p (os.lookup ((n, c) :: es) item))
                    (map fst es)
                  = map fst (filter (fun ne => p (snd ne)) es)).
  { rewrite <- (IH Hnd'). apply filter_ext_in. intros item Hin.
    cbn [os.lookup]. destruct (String.eqb n item) eqn:E; [|reflexivity].
    apply String.eqb_eq in E. subst. contradiction. }
  cbn [os.lookup] in Htail. rewrite Htail.
  destruct (p c); reflexivity.
Qed.

Lemma NoDup_map_filter {A B} (f : A -> B) (p : A -> bool) l :
  NoDup (map f l) -> NoDup (map f (filter p l)).
Proof.
  induction l as [|a l IH]; intros Hnd; [constructor|].
  inversion Hnd as [|? ? Hnotin Hnd']; subst. cbn [filter].
  destruct (p a); [|auto]. cbn [map]. constructor; [|auto].
  intros Hin. apply Hnotin. apply in_map_iff in Hin as (x & Hx & Hin).
  apply filter_In in Hin as [Hin _]. apply in_map_iff. eauto.
Qed.

Lemma filter_filter_implied {A} (p q : A -> bool) l :
  (forall a, p a = true -> q a = true) ->
  filter p (filter q l) = filter p l.
Proof.
  intros H. induction l as [|a l IH]; [reflexivity|].
  cbn [filter]. destruct (q a) eqn:Eq.
  - cbn [filter]. rewrite IH. reflexivity.
  - destruct (p a) eqn:Ep; [|exact IH].
    apply H in Ep. congruence.
Qed.

Lemma bucket_shown (p : entry -> bool) entries :
  (forall e, p e = true -> shown e = true) ->
  NoDup (map fst entries) ->
  filter (fun item => p (os.lookup (shown_entries entries) item))
    (map fst (shown_entries entries))
  = filter (fun item => p (os.lookup entries item)) (map fst entries).
Proof.
  intros Hp Hnd.
  rewrite !filter_names_distinct;
    [|exact Hnd|apply NoDup_map_filter; exact Hnd].
  unfold shown_entries. rewrite filter_filter_implied; [reflexivity|].
  intros [n c]. apply Hp.
Qed.

Lemma print_items_shown prefix show_size entries entries' recurse recurse'
    folders total :
  forall all_items i,
    (forall item,
        In item all_items ->
        os.getsize (os.lookup entries item)
        = os.getsize (os.lookup entries' item)
        /\ forall new_prefix, recurse item new_prefix = recurse' item new_prefix) ->
    print_items prefix show_size (Directory entries) recurse folders total
      i all_items
    = print_items prefix show_size (Directory entries') recurse' folders total
        i all_items.
Proof.
  induction all_items as [|item rest IH]; intros i H; [reflexivity|].
  cbn [print_items os.child].
  destruct (H item (or_introl eq_refl)) as [-> Hrec].
  rewrite Hrec, IH; [reflexivity|].
  intros item' Hin. apply H. right. exact Hin.
Qed.

(** X7.  In a directory the renderer has lines only for the entries that
    are directories or regular files: it prints what it would print if the
    other entries (a socket, a dangling link), which the walker turns into
    file nodes or stops at, were not there. *)
Theorem print_tree_skips_entries_that_are_neither
    (path prefix : string) (show_size : bool) (entries : list (string * entry)) :
  NoDup (map fst entries) ->
  _print_tree path prefix show_size (Directory entries)
  = _print_tree path prefix show_size (Directory (shown_entries entries)).
Proof.
  intros Hnd. rewrite !_print_tree_Directory. cbv zeta.
  rewrite !filter_sorted.
  rewrite (bucket_shown os.isdir entries)
    by (try exact Hnd; intros e He; unfold shown; rewrite He; reflexivity).
  rewrite (bucket_shown os.isfile entries)
    by (try exact Hnd; intros e He; unfold shown; rewrite He;
        apply orb_true_r).
  fold (folders_of entries). fold (files_of entries).
  rewrite (print_items_shown prefix show_size entries (shown_entries entries) _
             (fun item new_prefix =>
                _print_tree (posixpath.join path item) new_prefix show_size
                  (os.lookup (shown_entries entries) item)));
    [reflexivity|].
  intros item Hin.
  assert (Hshown : shown (os.lookup entries item) = true).
  { unfold shown. apply in_app_or in Hin as [Hin|Hin].
    - apply sorted_In, filter_In in Hin as [_ ->]. reflexivity.
    - apply sorted_In, filter_In in Hin as [_ ->]. apply orb_true_r. }
  rewrite (lookup_shown entries item Hnd Hshown). split; reflexivity.
Qed.

Definition socket_example : list (string * entry) :=
  [("agent.sock", SpecialFile 0); ("a.txt", RegularFile 10);
   ("link", NoEntry (os.ENOENT "root/link"))].

Lemma print_tree_skips_entries_that_are_neither_witness :
  _print_tree "root" "" false (Directory socket_example)
  = _print_tree "root" "" false (Directory [("a.txt", RegularFile 10)]).
Proof.
  apply (print_tree_skips_entries_that_are_neither "root" "" false
           socket_example).
  repeat constructor; cbn; intuition discriminate.
Defined.

(** ** Sizes below one kilobyte *)

Lemma round_half_even_integer (n : Z) :
  round_half_even (inject_Z n * 10) = n * 10.
Proof.
  unfold round_half_even.
  assert (Hfloor : Qfloor (inject_Z n * 10) = n * 10).
  { unfold Qfloor, inject_Z, Qmult. cbn [Qnum Qden Pos.mul]. apply Z.div_1_r. }
  rewrite Hfloor.
  assert (Hlt : Qcompare (inject_Z n * 10 - inject_Z (n * 10)) (1 # 2) = Lt).
  { apply (proj1 (Qlt_alt _ _)).
    unfold Qlt, Qminus, Qplus, Qopp, Qmult, inject_Z.
    cbn [Qnum Qden Pos.mul]. lia. }
  rewrite Hlt. reflexivity.
Qed.

(** X8.  A size from 1 to 1023 bytes is printed as that number with [.0]
    and the unit [B]: the loop does not divide and nothing is rounded. *)
Theorem format_size_below_one_kilobyte (n : Z) :
  0 < n < 1024 ->
  _format_size n = str_of_int n ++ ".0 B".
Proof.
  intros Hn. rewrite _format_size_positive by lia.
  assert (Hi : unit_index n = 0%nat).
  { unfold unit_index. destruct (n <? 1024) eqn:E; [reflexivity|].
    apply Z.ltb_ge in E. lia. }
  rewrite Hi. unfold scaled. cbn [Nat.iter nat_rect nth size_names].
  rewrite float_of_int_small by lia.
  unfold format_1f.
  assert (Hpos : Qle_bool 0 (inject_Z n) = true).
  { change 0%Q with (inject_Z 0). rewrite Qle_bool_inject. apply Z.leb_le. lia. }
  rewrite Hpos, (Qabs_nonneg _ Hpos), round_half_even_integer.
  rewrite Z.div_mul by lia. rewrite Z.mod_mul by lia.
  cbn [append]. rewrite !string_app_assoc. reflexivity.
Qed.

Lemma format_size_below_one_kilobyte_witness : _format_size 512 = "512.0 B".
Proof. apply (format_size_below_one_kilobyte 512). lia. Defined.

(** ** The digest of a shallow tree *)

(** How many levels lie below a node. *)
Fixpoint depth_below (n : Node) : Z :=
  match n with
  | Folder _ _ children =>
      (fix deepest (cs : list Node) : Z :=
         match cs with
         | [] => 0
         | c :: cs' => Z.max (1 + depth_below c) (deepest cs')
         end) children
  | File _ _ _ => 0
  end.

Definition deepest_child (children : list Node) : Z :=
  (fix deepest (cs : list Node) : Z :=
     match cs with
     | [] => 0
     | c :: cs' => Z.max (1 + depth_below c) (deepest cs')
     end) children.

(** X9.  Once the depth limit reaches the depth of the tree, raising it
    further changes nothing in the digest: nothing is cut. *)
Theorem digest_unchanged_beyond_tree_depth
    (structure : Node) (level max_depth max_depth' : Z) :
  level + depth_below structure <= max_depth ->
  level + depth_below structure <= max_depth' ->
  _structure_to_text structure level max_depth
  = _structure_to_text structure level max_depth'.
Proof.
  revert level.
  induction structure as [name path children IH|name path size] using Node_ind;
    intros level H1 H2.
  - rewrite !_structure_to_text_Folder.
    change (depth_below (Folder name path children))
      with (deepest_child children) in *.
    assert (Hdeep : 0 <= deepest_child children).
    { clear. induction children as [|c cs IHcs]; [cbn; lia|].
      change (deepest_child (c :: cs))
        with (Z.max (1 + depth_below c) (deepest_child cs)). lia. }
    destruct (max_depth <? level) eqn:E1; [apply Z.ltb_lt in E1; lia|].
    destruct (max_depth' <? level) eqn:E2; [apply Z.ltb_lt in E2; lia|].
    f_equal. clear E1 E2 Hdeep.
    induction IH as [|c cs Hc _ IHcs]; [reflexivity|].
    change (deepest_child (c :: cs))
      with (Z.max (1 + depth_below c) (deepest_child cs)) in *.
    change (digest_children (c :: cs) (level + 1) max_depth)
      with (_structure_to_text c (level + 1) max_depth
              ++ digest_children cs (level + 1) max_depth).
    change (digest_children (c :: cs) (level + 1) max_depth')
      with (_structure_to_text c (level + 1) max_depth'
              ++ digest_children cs (level + 1) max_depth').
    rewrite (Hc (level + 1)) by lia. rewrite IHcs by lia. reflexivity.
  - cbn [depth_below] in *. cbn [_structure_to_text].
    destruct (max_depth <? level) eqn:E1; [apply Z.ltb_lt in E1; lia|].
    destruct (max_depth' <? level) eqn:E2; [apply Z.ltb_lt in E2; lia|].
    reflexivity.
Qed.

Lemma digest_unchanged_beyond_tree_depth_witness :
  _structure_to_text
    (Folder "root" "/home/u/root"
       [Folder "sub" "/home/u/root/sub" [File "b.txt" "root/sub/b.txt" 20]]) 0 2
  = _structure_to_text
      (Folder "root" "/home/u/root"
         [Folder "sub" "/home/u/root/sub" [File "b.txt" "root/sub/b.txt" 20]]) 0 3.
Proof.
  apply (digest_unchanged_beyond_tree_depth
           (Folder "root" "/home/u/root"
              [Folder "sub" "/home/u/root/sub" [File "b.txt" "root/sub/b.txt" 20]])
           0 2 3); vm_compute; discriminate.
Defined.

(** ** The analysis of a path that does not exist *)

(** X10.  On a path that does not exist [analyze_with_ai] prints its banner
    and raises the scan's not-found error; the result is the same whatever
    the network would answer, so no request decides it. *)
Theorem analyze_raises_when_path_is_missing
    (cwd : string)
    (requests_post :
       string -> list (string * string) -> chat_request -> Z -> result response)
    (self : FileStructureAgent) (folder_path : string) (target : entry)
    (question : string) (max_depth : Z) :
  os.exists_ target = false ->
  analyze_with_ai cwd requests_post self folder_path target question max_depth
  = (Raise (Exn FileNotFoundError ("路径不存在: " ++ folder_path)),
     ["🤖 正在使用AI分析文件结构..."]).
Proof.
  intros Hex. unfold analyze_with_ai.
  destruct target; try discriminate. reflexivity.
Qed.

Lemma analyze_raises_when_path_is_missing_witness :
  analyze_with_ai "/home/u" (answering "fine") some_agent "nowhere"
    (NoEntry (os.ENOENT "nowhere")) "?" 3
  = (Raise (Exn FileNotFoundError "路径不存在: nowhere"),
     ["🤖 正在使用AI分析文件结构..."]).
Proof.
  apply (analyze_raises_when_path_is_missing "/home/u"
           (answering "fine") some_agent "nowhere"
           (NoEntry (os.ENOENT "nowhere")) "?" 3).
  reflexivity.
Defined.

(** ** The tree view and the summary agree *)

(** Below [e] there are only directories that can be listed, with distinct
    names, and regular files. *)
Fixpoint plain (e : entry) : bool :=
  match e with
  | Directory entries =>
      distinct (map fst entries)
      && (fix all (es : list (string * entry)) : bool :=
            match es with
            | [] => true
            | (_, c) :: es' => plain c && all es'
            end) entries
  | RegularFile _ => true
  | SpecialFile _ | UnlistableDirectory _ | NoEntry _ => false
  end.

(** The folders and files of a summary, together. *)
Definition entries_in (x : Z * Z * Z) : Z := let '(d, f, _) := x in d + f.

Lemma plain_Directory entries :
  plain (Directory entries) = true ->
  NoDup (map fst entries)
  /\ Forall (fun ne => plain (snd ne) = true) entries.
Proof.
  cbn [plain]. intros H. apply andb_true_iff in H as [Hd Hall].
  split; [apply distinct_NoDup, Hd|].
  clear Hd. induction entries as [|[n c] es IH]; constructor.
  - apply andb_true_iff in Hall as [Hc _]. exact Hc.
  - apply IH. apply andb_true_iff in Hall as [_ Hall]. exact Hall.
Qed.

Lemma plain_readable e : plain e = true -> readable e = true.
Proof.
  induction e as [sz|entries IH|err|sz|err] using entry_ind;
    try (cbn; congruence).
  cbn [plain readable]. intros H. apply andb_true_iff in H as [Hd Hall].
  apply andb_true_iff. split; [exact Hd|]. clear Hd.
  induction IH as [|[n c] es Hc _ IHes]; [reflexivity|].
  apply andb_true_iff in Hall as [Hpc Hall]. apply andb_true_iff.
  split; [apply Hc, Hpc|apply IHes, Hall].
Qed.

Lemma entries_in_add3 x y : entries_in (add3 x y) = entries_in x + entries_in y.
Proof.
  destruct x as [[d f] b], y as [[d' f'] b']. cbn. lia.
Qed.

Lemma entries_in_sum3 l : entries_in (sum3 l) = total_of (map entries_in l).
Proof.
  induction l as [|x l IH]; [reflexivity|].
  unfold sum3 in *. cbn [fold_right map total_of].
  rewrite entries_in_add3, IH. reflexivity.
Qed.

Lemma total_of_Permutation l l' : Permutation l l' -> total_of l = total_of l'.
Proof.
  unfold total_of.
  induction 1 as [|x l l' _ IH|x y l|l l' l'' _ IH1 _ IH2]; cbn [fold_right];
    lia.
Qed.

(** Two tests that split a list put every element in one of two parts. *)
Lemma split_Permutation {A} (p q : A -> bool) (l : list A) :
  (forall a, In a l -> q a = negb (p a)) ->
  Permutation (filter p l ++ filter q l)%list l.
Proof.
  induction l as [|a l IH]; intros H; [constructor|].
  assert (IH' : Permutation (filter p l ++ filter q l)%list l).
  { apply IH. intros b Hb. apply H. right. exact Hb. }
  cbn [filter]. rewrite (H a (or_introl eq_refl)).
  destruct (p a); cbn [negb app].
  - constructor. exact IH'.
  - apply Permutation_sym, Permutation_cons_app, Permutation_sym, IH'.
Qed.

(** The loop of the renderer calls [print], when nothing raises, once for
    each item and, below each folder, as often as that folder takes. *)
Lemma print_items_length prefix show_size dir recurse folders total
    (weight : string -> Z) :
  forall all_items i,
    (forall item,
        In item all_items ->
        if existsb (String.eqb item) folders
        then forall new_prefix,
               Z.of_nat (length (recurse item new_prefix)) = weight item - 1
        else weight item = 1
             /\ exists sz, os.getsize (os.child dir item) = Ok sz) ->
    exists out,
      print_items prefix show_size dir recurse folders total i all_items
      = (out, None)
      /\ Z.of_nat (length out) = total_of (map weight all_items).
Proof.
  induction all_items as [|item rest IH]; intros i H.
  - exists []. split; reflexivity.
  - destruct (IH (i + 1)) as (out & Hrest & Hlen).
    { intros item' Hin. apply H. right. exact Hin. }
    specialize (H item (or_introl eq_refl)).
    cbn [print_items]. cbv zeta. rewrite Hrest.
    destruct (existsb (String.eqb item) folders).
    + eexists. split; [reflexivity|].
      cbn [length map total_of fold_right]. rewrite length_app.
      fold (total_of (map weight rest)).
      rewrite <- Hlen, Nat2Z.inj_succ, Nat2Z.inj_add, H. lia.
    + destruct H as [Hw [sz Hsz]]. rewrite Hsz.
      destruct show_size;
        (eexists; split; [reflexivity|];
         cbn [length map total_of fold_right];
         fold (total_of (map weight rest));
         rewrite <- Hlen, Nat2Z.inj_succ, Hw; lia).
Qed.

Lemma plain_file e :
  plain e = true -> os.isdir e = false ->
  entries_in (census e) = 1 /\ exists sz, os.getsize e = Ok sz.
Proof.
  destruct e; try discriminate. intros _ _. cbn. eauto.
Qed.

Lemma plain_isfile e : plain e = true -> os.isfile e = negb (os.isdir e).
Proof. destruct e; try discriminate; reflexivity. Qed.

Lemma print_tree_length (show_size : bool) (target : entry) :
  plain target = true ->
  os.isdir target = true ->
  forall path prefix,
    Z.of_nat (length (_print_tree path prefix show_size target))
    = entries_in (census target) - 1.
Proof.
  induction target as [sz|entries IH|err|sz|err] using entry_ind;
    intros Hplain Hdir path prefix; try discriminate.
  destruct (plain_Directory entries Hplain) as [Hnd Hall].
  rewrite Forall_forall in IH, Hall.
  assert (Hlisted : forall item,
             In item (sorted (map fst entries)) ->
             plain (os.lookup entries item) = true
             /\ In (item, os.lookup entries item) entries).
  { intros item Hin.
    apply (proj1 (sorted_In _ _)), lookup_listed in Hin.
    split; [exact (Hall _ Hin)|exact Hin]. }
  rewrite _print_tree_Directory. cbv zeta.
  set (weight := fun item => entries_in (census (os.lookup entries item))).
  destruct (print_items_length prefix show_size (Directory entries)
              (fun item new_prefix =>
                 _print_tree (posixpath.join path item) new_prefix show_size
                   (os.lookup entries item))
              (filter (fun item => os.isdir (os.lookup entries item))
                 (sorted (map fst entries)))
              (Z.of_nat
                 (length
                    (filter (fun item => os.isdir (os.lookup entries item))
                       (sorted (map fst entries))
                     ++ filter (fun item => os.isfile (os.lookup entries item))
                          (sorted (map fst entries)))%list))
              weight
              (filter (fun item => os.isdir (os.lookup entries item))
                 (sorted (map fst entries))
               ++ filter (fun item => os.isfile (os.lookup entries item))
                    (sorted (map fst entries)))%list
              0) as (out & Hloop & Hlen).
  { intros item Hin.
    assert (Hitem : In item (sorted (map fst entries))).
    { apply in_app_or in Hin as [Hin|Hin];
        apply filter_In in Hin as [Hin _]; exact Hin. }
    destruct (Hlisted item Hitem) as [Hp Hentry].
    destruct (existsb _ _) eqn:Hfolder.
    - apply existsb_eqb_In, filter_In in Hfolder as [_ Hd].
      intros new_prefix. unfold weight.
      exact (IH _ Hentry Hp Hd (posixpath.join path item) new_prefix).
    - cbn [os.child]. apply plain_file; [exact Hp|].
      destruct (os.isdir (os.lookup entries item)) eqn:Hd; [|reflexivity].
      assert (Hin' : In item
                       (filter (fun item => os.isdir (os.lookup entries item))
                          (sorted (map fst entries)))).
      { apply filter_In. split; [exact Hitem|exact Hd]. }
      apply existsb_eqb_In in Hin'. congruence. }
  rewrite Hloop, Hlen.
  rewrite (total_of_Permutation _ (map weight (map fst entries))).
  - unfold weight.
    rewrite (map_lookup_distinct (fun e => entries_in (census e)) entries Hnd).
    rewrite census_Directory, entries_in_add3, entries_in_sum3, map_map.
    cbn [entries_in]. lia.
  - apply Permutation_map.
    etransitivity; [|apply Permutation_sym, StringSort.Permuted_sort].
    apply split_Permutation. intros item Hin.
    apply plain_isfile. apply (Hlisted item Hin).
Qed.

(** X11.  For a directory that holds only directories that can be listed
    and regular files, the tree view and the summary agree: besides its
    header and its two rules, [display_structure_tree] calls [print], with
    sizes or without, exactly once for each folder and each file that
    [get_structure_summary] counts, the root folder apart.  (The count is
    of calls of [print]: a name that holds a newline makes its call print
    more than one line.) *)
Theorem tree_view_prints_once_per_counted_entry
    (cwd folder_path : string) (show_size : bool) (target : entry) :
  plain target = true ->
  os.isdir target = true ->
  exists node folders files total_size,
    get_folder_structure cwd folder_path target = (Ok node, [])
    /\ count_items node = (folders, files, total_size)
    /\ Z.of_nat (length (display_structure_tree cwd folder_path show_size target))
       = 3 + (folders - 1) + files.
Proof.
  intros Hplain Hdir.
  destruct (readable_scan cwd target (plain_readable target Hplain) Hdir
              folder_path) as (node & Hscan & Hcount).
  destruct (census target) as [[folders files] total_size] eqn:Hcensus.
  exists node, folders, files, total_size.
  split; [exact Hscan|]. split; [exact Hcount|].
  unfold display_structure_tree. rewrite !length_app. cbn [length].
  rewrite !Nat2Z.inj_add.
  rewrite (print_tree_length show_size target Hplain Hdir folder_path "").
  rewrite Hcensus. cbn [entries_in]. lia.
Qed.

Lemma tree_view_prints_once_per_counted_entry_witness :
  exists node folders files total_size,
    get_folder_structure "/home/u" "root" sorted_example = (Ok node, [])
    /\ count_items node = (folders, files, total_size)
    /\ Z.of_nat (length (display_structure_tree "/home/u" "root" true
                           sorted_example))
       = 3 + (folders - 1) + files.
Proof.
  apply (tree_view_prints_once_per_counted_entry "/home/u" "root" true
           sorted_example); reflexivity.
Defined.

(** ** The command *)

Section DispatcherProperties.

Variable getenv : option string.
Variable cwd : string.
Variable requests_post :
  string -> list (string * string) -> chat_request -> Z -> result response.
Variable io_error : option exn.
Variable help_text : string.
Variable str_of_object : json -> string.

(** The three lines every run with a key starts with. *)
Definition header (args : Args) : output :=
  ["🚀 DeepSeek 文件结构分析Agent";
   "📍 扫描路径: " ++ posixpath.abspath cwd (args_path args);
   str_mul "-" 50].

(** The operations [results] lists when nothing raises: those asked for,
    the export only if it was written, which takes a file that can be
    opened and a scanned tree [structure] whose names and paths are text. *)
Definition operations_done (args : Args) (structure : Node) : list string :=
  ((if args_tree args then ["tree"] else [])
     ++ (if args_stats args then ["stats"] else [])
     ++ (if given (args_json args)
         then if match io_error with
                 | None => text_tree structure
                 | Some _ => false
                 end
              then ["json"] else []
         else [])
     ++ (if given (args_ai args) then ["ai"] else []))%list.

Lemma get_structure_summary_exists folder_path target :
  os.exists_ target = true ->
  exists summary out,
    get_structure_summary cwd folder_path target = (Ok summary, out).
Proof.
  intros Hex. unfold get_structure_summary.
  destruct (get_folder_structure_exists cwd folder_path target Hex)
    as (node & out & ->).
  eauto.
Qed.

Lemma analyze_with_ai_returns agent folder_path target question max_depth :
  os.exists_ target = true ->
  exists answer out,
    analyze_with_ai cwd requests_post agent folder_path target question max_depth
    = (Ok answer, out).
Proof.
  intros Hex.
  destruct (analyze_with_ai_exists cwd requests_post agent folder_path target
              question max_depth Hex) as (structure & out & _ & ->).
  destruct (request_answer _ _ _); eauto.
Qed.

Lemma save_structure_to_json_outcome structure file :
  exists out document,
    save_structure_to_json structure file io_error
    = (match io_error with
       | None => text_tree structure
       | Some _ => false
       end, out, document).
Proof.
  pose proof (save_structure_to_json_written structure file io_error) as H.
  destruct (save_structure_to_json structure file io_error)
    as [[saved out] document].
  cbn [fst] in H. subst saved. eauto.
Qed.

Lemma then_Ok {A B} (m : prog A) (k : A -> prog B) a out :
  m = (Ok a, out) ->
  then_ m k = (fst (k a), (out ++ snd (k a))%list).
Proof. intros ->. unfold then_. destruct (k a). reflexivity. Qed.

Lemma run_operations_returns
    (agent : FileStructureAgent) (args : Args) (target target_after : entry) :
  os.exists_ target = true ->
  os.exists_ target_after = true ->
  exists structure scanned,
    get_folder_structure cwd (args_path args) target = (Ok structure, scanned)
    /\ exists done out,
         run_operations cwd requests_post io_error str_of_object agent args
           target target_after
         = (Ok done, out)
         /\ map fst done = operations_done args structure.
Proof.
  intros Hex Hex'.
  destruct (get_structure_summary_exists (args_path args) target Hex)
    as (summary & o1 & Hsum).
  destruct (get_folder_structure_exists cwd (args_path args) target Hex)
    as (structure & o2 & Hscan).
  destruct (analyze_with_ai_returns agent (args_path args) target
              (match args_ai args with Some q => q | None => "" end)
              (args_depth args) Hex) as (answer & o3 & Hai).
  destruct (analyze_with_ai_returns agent (args_path args) target_after
              (match args_ai args with Some q => q | None => "" end)
              (args_depth args) Hex') as (answer' & o4 & Hai').
  destruct (save_structure_to_json_outcome structure
              (match args_json args with Some f => f | None => "" end))
    as (o5 & document & Hsave).
  exists structure, o2. split; [exact Hscan|].
  unfold run_operations, operations_done.
  destruct args as [path tree size json stats ai depth all output_].
  cbn [args_path args_tree args_size args_json args_stats args_ai args_depth
         args_all args_output] in *.
  destruct tree, stats, json as [file|], ai as [question|];
    cbn [given];
    try destruct (String.eqb file ""); try destruct (String.eqb question "");
    cbn [negb]; unfold then_, ret, print, print_all;
    rewrite ?Hsum, ?Hscan, ?Hsave, ?Hai, ?Hai';
    destruct (match io_error with
              | None => text_tree structure
              | Some _ => false
              end);
    (eexists _, _; split; [reflexivity|reflexivity]).
Qed.

(** X12.  When the scanned path exists, before and after the export, the
    operations never raise, and [results] lists, in the fixed order tree,
    stats, json, ai, exactly the operations asked for; the export is listed
    only if it was written, and a failed export stops nothing after it. *)
Theorem operations_run_in_order_and_report
    (agent : FileStructureAgent) (args : Args) (target target_after : entry) :
  os.exists_ target = true ->
  os.exists_ target_after = true ->
  exists structure scanned,
    get_folder_structure cwd (args_path args) target = (Ok structure, scanned)
    /\ exists done out,
         run_operations cwd requests_post io_error str_of_object agent args
           target target_after
         = (Ok done, out)
         /\ map fst done = operations_done args structure.
Proof. exact (run_operations_returns agent args target target_after). Qed.

Lemma init_given :
  given getenv = true -> exists agent, __init__ getenv = Ok agent.
Proof.
  unfold given, __init__. destruct getenv as [key|]; [|discriminate].
  destruct (String.eqb key ""); [discriminate|eauto].
Qed.

Lemma init_not_given :
  given getenv = false ->
  __init__ getenv
  = Raise (Exn ValueError "❌ 未找到DEEPSEEK_API_KEY环境变量，请检查.env文件").
Proof.
  unfold given, __init__. destruct getenv as [key|]; [|reflexivity].
  destruct (String.eqb key ""); [reflexivity|discriminate].
Qed.

(** X13.  When the command line is parsed and [DEEPSEEK_API_KEY] is not in
    the environment, or is empty, [main] prints the error and the four
    lines of advice and ends with status 1: nothing else is printed, and
    neither the path nor the network is looked at.  (With [-h], or with a
    flag or a value the parser refuses, the program ends in [parse_args]
    before the key is asked for; see X16.) *)
Theorem main_without_key_stops_at_once
    (args : Args) (target target_after : entry) :
  given getenv = false ->
  main getenv cwd requests_post io_error help_text str_of_object
    (Namespace args) target target_after
  = (1, ["❌ ❌ 未找到DEEPSEEK_API_KEY环境变量，请检查.env文件";
         newline ++ "💡 解决方案:";
         "1. 创建 .env 文件并在其中添加:";
         "   DEEPSEEK_API_KEY=你的deepseek_api密钥";
         "2. 重新运行程序"]).
Proof.
  intros Hkey. unfold main, main_try. rewrite (init_not_given Hkey).
  reflexivity.
Qed.

(** X14.  When the command line is parsed, with a key, on a path that does
    not exist, [main] prints its three header lines and the error and ends
    with status 1, whatever operations were asked for: nothing is scanned,
    written or sent. *)
Theorem main_on_missing_path_does_nothing
    (args : Args) (target target_after : entry) :
  given getenv = true ->
  os.exists_ target = false ->
  main getenv cwd requests_post io_error help_text str_of_object
    (Namespace args) target target_after
  = (1, (header args
           ++ [("❌ 错误: 路径不存在 '" ++ args_path args ++ "'")%string])%list).
Proof.
  intros Hkey Hex. destruct (init_given Hkey) as [agent Hagent].
  unfold main, main_try. rewrite Hagent, Hex. reflexivity.
Qed.

(** X15.  When the command line is parsed, with a key and an existing
    path, and no operation is asked for (an empty [--json] or [--ai] value
    counts as none), [main] prints the header, the usage text and the hint,
    and ends with status 0: the directory is not scanned and nothing is
    sent. *)
Theorem main_without_operation_prints_help
    (args : Args) (target target_after : entry) :
  given getenv = true ->
  os.exists_ target = true ->
  args_tree args = false ->
  args_stats args = false ->
  given (args_json args) = false ->
  given (args_ai args) = false ->
  args_all args = false ->
  main getenv cwd requests_post io_error help_text str_of_object
    (Namespace args) target target_after
  = (0, (header args
           ++ [help_text; (newline ++ "💡 提示: 使用 --all 执行所有操作")%string])%list).
Proof.
  intros Hkey Hex Htree Hstats Hjson Hai Hall.
  destruct (init_given Hkey) as [agent Hagent].
  unfold main, main_try. rewrite Hagent, Hex.
  unfold expand_all. rewrite Hall. cbv iota zeta.
  unfold run_operations. rewrite Htree, Hstats, Hjson, Hai, Hall.
  destruct (args_json args), (args_ai args); reflexivity.
Qed.

Lemma main_parsed_status
    (args : Args) (target target_after : entry) :
  os.exists_ target_after = true ->
  fst (main getenv cwd requests_post io_error help_text str_of_object
         (Namespace args) target target_after)
  = if given getenv && os.exists_ target then 0 else 1.
Proof.
  intros Hafter.
  destruct (given getenv) eqn:Hkey.
  - destruct (os.exists_ target) eqn:Hex.
    + destruct (init_given Hkey) as [agent Hagent].
      destruct (run_operations_returns agent
                  (expand_all args) target target_after Hex Hafter)
        as (structure & scanned & _ & done & out & Hrun & _).
      unfold main, main_try. rewrite Hagent, Hex.
      cbn [negb]. unfold then_ at 1. cbn [fst snd].
      unfold then_, ret, print, print_all. rewrite Hrun.
      destruct (args_all args);
        destruct (negb _); reflexivity.
    + destruct (init_given Hkey) as [agent Hagent].
      unfold main, main_try. rewrite Hagent, Hex. reflexivity.
  - unfold main, main_try. rewrite (init_not_given Hkey). reflexivity.
Qed.

(** X16.  Provided the scanned path still exists once the export is
    written, the program ends with status 0, 1 or 2: with 2 exactly when
    [parse_args] refuses the command line; with 0 exactly when the help
    was asked for with [-h], or the command line is parsed, the key is set
    and the path exists; with 1 otherwise.  After [-h] only the help is
    printed, after a refusal nothing is on standard output, in both cases
    whatever the key and the path are.  A failed export or a failed request
    does not change the status. *)
Theorem main_exit_status
    (parsed : command_line) (target target_after : entry) :
  os.exists_ target_after = true ->
  let run :=
    main getenv cwd requests_post io_error help_text str_of_object parsed
      target target_after in
  (fst run = 0 \/ fst run = 1 \/ fst run = 2)
  /\ (fst run = 2 <-> parsed = UsageError)
  /\ (fst run = 0 <->
      parsed = HelpExit
      \/ ((exists args, parsed = Namespace args)
          /\ given getenv = true /\ os.exists_ target = true))
  /\ (parsed = HelpExit -> run = (0, [help_text]))
  /\ (parsed = UsageError -> run = (2, [])).
Proof.
  intros Hafter. cbv zeta.
  destruct parsed as [args| |].
  - rewrite (main_parsed_status args target target_after Hafter).
    assert (Hs : (if given getenv && os.exists_ target then 0 else 1) = 0
                 <-> given getenv = true /\ os.exists_ target = true).
    { destruct (given getenv), (os.exists_ target); cbn [andb]; split;
        intros H; try discriminate H; try (destruct H; discriminate); auto. }
    split; [destruct (given getenv && os.exists_ target); auto|].
    split.
    { split; [|discriminate].
      destruct (given getenv && os.exists_ target); discriminate. }
    split; [|split; discriminate].
    rewrite Hs. split.
    + intros H. right. split; [exists args; reflexivity|exact H].
    + intros [H|[_ H]]; [discriminate|exact H].
  - cbn [main fst]. split; [auto|]. split; [split; discriminate|].
    split; [split; auto|]. split; [intros _; reflexivity|discriminate].
  - cbn [main fst]. split; [auto|].
    split; [split; intros _; reflexivity|].
    split; [|split; [discriminate|intros _; reflexivity]].
    split; [discriminate|].
    intros [H|((args & H) & _)]; discriminate.
Qed.

End DispatcherProperties.

Definition export_then_ask : Args :=
  {| args_path := "root"; args_tree := false; args_size := false;
     args_json := Some "out.json"; args_stats := true;
     args_ai := Some "what is it?"; args_depth := 3; args_all := false;
     args_output := "file_structure.json" |}.

Definition no_object_text : json -> string := fun _ => "".

Lemma operations_run_in_order_and_report_witness :
  exists structure scanned,
    get_folder_structure "/home/u" "root" sorted_example
    = (Ok structure, scanned)
    /\ exists done out,
         run_operations "/home/u" offline
           (Some (Exn PermissionError "[Errno 13] Permission denied: 'out.json'"))
           no_object_text some_agent export_then_ask sorted_example
           sorted_example
         = (Ok done, out)
         /\ map fst done = ["stats"; "ai"].
Proof.
  destruct (operations_run_in_order_and_report "/home/u" offline
              (Some (Exn PermissionError
                       "[Errno 13] Permission denied: 'out.json'"))
              no_object_text some_agent export_then_ask sorted_example
              sorted_example eq_refl eq_refl)
    as (structure & scanned & Hscan & done & out & Hrun & Hdone).
  exists structure, scanned. split; [exact Hscan|].
  exists done, out. split; [exact Hrun|exact Hdone].
Defined.

Lemma main_without_key_stops_at_once_witness :
  fst (main None "/home/u" offline None "usage" no_object_text
         (Namespace export_then_ask) sorted_example sorted_example) = 1.
Proof.
  rewrite (main_without_key_stops_at_once None "/home/u" offline None "usage"
             no_object_text export_then_ask sorted_example sorted_example
             eq_refl).
  reflexivity.
Defined.

Lemma main_on_missing_path_does_nothing_witness :
  main (Some "sk-test") "/home/u" offline None "usage" no_object_text
    (Namespace export_then_ask)
    (NoEntry (os.ENOENT "root")) (NoEntry (os.ENOENT "root"))
  = (1, ["🚀 DeepSeek 文件结构分析Agent"; "📍 扫描路径: /home/u/root";
         str_mul "-" 50; "❌ 错误: 路径不存在 'root'"]).
Proof.
  apply (main_on_missing_path_does_nothing (Some "sk-test") "/home/u" offline
           None "usage" no_object_text export_then_ask
           (NoEntry (os.ENOENT "root")) (NoEntry (os.ENOENT "root")));
    reflexivity.
Defined.

Lemma main_without_operation_prints_help_witness :
  main (Some "sk-test") "/home/u" offline None "usage" no_object_text
    (Namespace default_args) sorted_example sorted_example
  = (0, ["🚀 DeepSeek 文件结构分析Agent"; "📍 扫描路径: /home/u";
         str_mul "-" 50; "usage";
         newline ++ "💡 提示: 使用 --all 执行所有操作"]).
Proof.
  apply (main_without_operation_prints_help (Some "sk-test") "/home/u" offline
           None "usage" no_object_text default_args sorted_example
           sorted_example); reflexivity.
Defined.

Lemma main_exit_status_witness :
  fst (main (Some "sk-test") "/home/u" offline None "usage" no_object_text
         (Namespace export_then_ask) sorted_example sorted_example) = 0
  <-> Namespace export_then_ask = HelpExit
      \/ ((exists args, Namespace export_then_ask = Namespace args)
          /\ given (Some "sk-test") = true
          /\ os.exists_ sorted_example = true).
Proof.
  apply (main_exit_status (Some "sk-test") "/home/u" offline None "usage"
           no_object_text (Namespace export_then_ask) sorted_example
           sorted_example eq_refl).
Defined.
